(** * btx: panel mapper and raw-image time tool

    A shallow embedding of the numerical core of the btx repository:

    - [PsanaInterface]: [assemble_image_stack_batch] and
      [disassemble_image_stack_batch] of [btx/interfaces/psana_interface.py];
    - [TimeTool] and [TimeToolRun]: the [RawImageTimeTool] class of
      [btx/timetool/rawimagetimetool.py] ([calibrate], [detect_edges],
      [fit_calib], [jitter_correct], [actual_time] and the [model]
      property);
    - [PsanaRun]: the event bookkeeping of the [PsanaInterface] class
      ([distribute_events], [get_images], [get_timestamp], [skip_event],
      [turn_calibration_off]).

    Python exceptions are values of [exn]; a call that may raise returns a
    [result].  numpy arrays are nested lists, rectangular by assumption
    where a statement needs it. *)

From Stdlib Require Import ZArith List Ascii String Floats Lia.
From stdpp Require Import base list strings.

(** ** Exceptions and the error monad *)

Inductive exn : Type :=
  | ValueError
  | IndexError
  | TypeError
  | NameError
  | OverflowError
  | FileNotFoundError
  | InvalidHutchError.

Inductive result (A : Type) : Type :=
  | Ok (a : A)
  | Raise (e : exn).

Arguments Ok {A} a.
Arguments Raise {A} e.

#[global] Instance result_ret : MRet result := @Ok.

#[global] Instance result_bind : MBind result :=
  λ A B f m, match m with Ok a => f a | Raise e => Raise e end.

(** A loop whose body may raise: [for x in l: a = f(a, x)]. *)
Fixpoint foldlM {A B} (f : A → B → result A) (a : A) (l : list B) : result A :=
  match l with
  | [] => Ok a
  | x :: l => a' ← f a x; foldlM f a' l
  end.

(** ** numpy primitives *)

Module Numpy.

(** An integer index [i] into an axis of length [n]: negative indices count
    from the end, anything outside [-n, n) raises [IndexError]. *)
Definition norm_index (n : nat) (i : Z) : result nat :=
  if ((0 <=? i) && (i <? Z.of_nat n))%Z then Ok (Z.to_nat i)
  else if ((- Z.of_nat n <=? i) && (i <? 0))%Z then Ok (Z.to_nat (i + Z.of_nat n))
  else Raise IndexError.

(** [np.max] of an integer array given in flat order; a zero-size array has
    no maximum ([ValueError]). *)
Definition np_max (xs : list Z) : result Z :=
  match xs with
  | [] => Raise ValueError
  | x :: xs' => Ok (foldl Z.max x xs')
  end.

(** A dimension handed to [np.zeros]: negative dimensions raise. *)
Definition dim (z : Z) : result nat :=
  if (z <? 0)%Z then Raise ValueError else Ok (Z.to_nat z).

(** Broadcasting a list along one axis to length [n]: equal lengths pass,
    length one is repeated, anything else is a shape mismatch. *)
Definition broadcast_to {A} (n : nat) (xs : list A) : result (list A) :=
  if decide (length xs = n) then Ok xs
  else match xs with
       | [x] => Ok (replicate n x)
       | _ => Raise ValueError
       end.

(** [a[i]] on the first axis with a non-negative loop index. *)
Definition getitem {A} (a : list A) (i : nat) : result A :=
  match a !! i with
  | Some x => Ok x
  | None => Raise IndexError
  end.

(** [np.polyfit(x, y, deg)] on one-dimensional arrays: numpy first checks
    its arguments (a zero-size [x] and arrays of different lengths raise
    [TypeError]) and then solves the least-squares problem, which is left
    to [lstsq] here. *)
Definition np_polyfit {F} (lstsq : list Z → list F → nat → result (list F))
    (x : list Z) (y : list F) (deg : nat) : result (list F) :=
  if decide (length x = 0) then Raise TypeError
  else if decide (length x = length y) then lstsq x y deg
  else Raise TypeError.

(** numpy's conversion of an int64 to float64: the nearest float, ties to
    even.  Every int64 is within the float range. *)
Definition int64_to_float64 (z : Z) : float :=
  SF2Prim (binary_normalize prec emax z 0 false).

End Numpy.

(** ** Panel mapper *)

Module PsanaInterface.
Import Numpy.

(** Target coordinates of one panel, shape [(fs, ss)], each a [(row, col)]
    pair, and the whole map, shape [(n_panels, fs, ss, 2)].  The source holds
    them as int64; canvases near that bound cannot be allocated, so
    coordinates are unbounded integers here. *)
Abbreviation index_panel := (list (list (Z * Z))).
Abbreviation index_map := (list (list (list (Z * Z)))).

Section Mapper.

(** Array elements and the fill value of [np.zeros]. *)
Context {V : Type} (zero : V).

Abbreviation panel := (list (list V)).
Abbreviation stack := (list (list (list V))).
Abbreviation image := (list (list V)).

(** The argument of [assemble_image_stack_batch]: [len(image_stack.shape)]
    is 3 or 4.  A batch of zero stacks is the empty list and carries no
    trailing dimensions. *)
Inductive image_stack : Type :=
  | Stack3 (x : stack)
  | Stack4 (xs : list stack).

(** Assembled images: 2-dimensional, or 3-dimensional with a leading batch
    axis. *)
Inductive images : Type :=
  | Image2 (im : image)
  | Image3 (ims : list image).

Definition stack_ndim (x : image_stack) : nat :=
  match x with Stack3 _ => 3 | Stack4 _ => 4 end.

Definition images_ndim (x : images) : nat :=
  match x with Image2 _ => 2 | Image3 _ => 3 end.

(** [pixel_index_map[:, :, :, k]] in flat (C) order. *)
Definition coords (k : Z * Z → Z) (pixel_index_map : index_map) : list Z :=
  k <$> concat (concat pixel_index_map).

(** [image_stack.shape[1]] of a 4-dimensional stack. *)
Definition shape1 (image_stack : list stack) : nat :=
  match image_stack with
  | [] => 0
  | x :: _ => length x
  end.

(** [np.zeros((h, w))]. *)
Definition np_zeros2 (h w : nat) : image := replicate h (replicate w zero).

(** One element store [im[r, c] = v] and one element load. *)
Definition set2 (im : image) (rc : nat * nat) (v : V) : image :=
  alter (λ row, <[rc.2 := v]> row) rc.1 im.

Definition get2 (im : image) (rc : nat * nat) : option V :=
  im !! rc.1 ≫= (.!! rc.2).

(** Element stores in sequence: a later store to a cell overwrites an
    earlier one. *)
Definition write_cells (im : image) (ws : list ((nat * nat) * V)) : image :=
  foldl (λ im w, set2 im w.1 w.2) im ws.

(** Both index arrays of a panel resolved against a canvas of shape
    [(h, w)]. *)
Definition resolve_cell (h w : nat) (rc : Z * Z) : result (nat * nat) :=
  r ← norm_index h rc.1; c ← norm_index w rc.2; mret (r, c).

Definition resolve_panel (h w : nat) (idx : index_panel)
  : result (list (list (nat * nat))) :=
  mapM (mapM (resolve_cell h w)) idx.

(** The value of one image, shape [(fs', ss')], broadcast to the shape of
    the index arrays. *)
Definition broadcast_panel (cells : list (list (nat * nat))) (vals : panel)
  : result panel :=
  rows ← broadcast_to (length cells) vals;
  mapM (λ cv, broadcast_to (length cv.1) cv.2) (zip cells rows).

(** [im[R, C]] for the two index arrays of a panel: a gather of shape
    [(fs, ss)], indices resolved against the shape of [im]. *)
Definition image_width (im : image) : nat :=
  match im with
  | [] => 0
  | row :: _ => length row
  end.

Definition load_cell (im : image) (rc : Z * Z) : result V :=
  cell ← resolve_cell (length im) (image_width im) rc;
  match get2 im cell with
  | Some v => Ok v
  | None => Raise IndexError
  end.

Definition getitem_fancy (im : image) (idx : index_panel) : result panel :=
  mapM (mapM (load_cell im)) idx.

(** [pixel_index_map.shape[:3]]. *)
Definition shape3 (pixel_index_map : index_map) : nat * nat * nat :=
  match pixel_index_map with
  | [] => (0, 0, 0)
  | p :: _ =>
      (length pixel_index_map, length p,
       match p with [] => 0 | row :: _ => length row end)
  end.

End Mapper.

Section Store.

(** The element types of a value array and of the holder it is stored
    into, and numpy's conversion from the one to the other. *)
Context {E V : Type} (cast : E → V).

(** [images[:, R, C] = vals], with [R], [C] the two index arrays of a panel
    and [vals] of shape [(n_images, fs, ss)]: indices are checked, the value
    is broadcast, and the elements are converted and stored in C order in
    every image.  numpy does not promise an order for the stores of one
    assignment; no statement below depends on the order chosen here, only
    on the order of the assignments of the panel loop. *)
Definition setitem_fancy (h w : nat) (ims : list (list (list V)))
    (idx : index_panel) (vals : list (list (list E)))
  : result (list (list (list V))) :=
  cells ← resolve_panel h w idx;
  vals ← mapM (broadcast_panel cells) vals;
  mret (zip_with
          (λ im v, write_cells im (zip (concat cells) (cast <$> concat v)))
          ims vals).

End Store.

Section Functions.

(** The element type of the argument, and its conversion to float64: both
    functions allocate their holder with [np.zeros] and no dtype, a
    float64 array, and every store into it converts.  [E] stands for a
    real numeric dtype, whose conversion never raises: the identity for
    float64, [int64_to_float64] for int64. *)
Context {E : Type} (cast : E → float).

Definition assemble_image_stack_batch (image_stack : @image_stack E)
    (pixel_index_map : index_map) : result (@images float) :=
  let image_stack :=
    match image_stack with Stack3 x => [x] | Stack4 xs => xs end in
  mx ← np_max (coords fst pixel_index_map);
  my ← np_max (coords snd pixel_index_map);
  let index_max_x := (mx + 1)%Z in
  let index_max_y := (my + 1)%Z in
  let stack_num := length image_stack in
  let panel_num := shape1 image_stack in
  h ← dim index_max_x;
  w ← dim index_max_y;
  let images := replicate stack_num (np_zeros2 0%float h w) in
  images ← foldlM (λ images l,
      idx ← getitem pixel_index_map l;
      setitem_fancy cast h w images idx
        ((λ x, default [] (x !! l)) <$> image_stack))
    images (seq 0 panel_num);
  mret (match images with [im] => Image2 im | _ => Image3 images end).

Definition disassemble_image_stack_batch (imgs : @images E)
    (pixel_index_map : index_map) : result (@image_stack float) :=
  let imgs := match imgs with Image2 im => [im] | Image3 ims => ims end in
  let '(n_panels, fs, ss) := shape3 pixel_index_map in
  let image_stack_batch :=
    replicate (length imgs)
      (replicate n_panels (replicate fs (replicate ss 0%float))) in
  image_stack_batch ← foldlM (λ batch panel,
      idx ← getitem pixel_index_map panel;
      vals ← mapM (λ im, getitem_fancy im idx) imgs;
      mret (zip_with
              (λ (x : list (list (list float))) (v : list (list E)),
                 <[panel := (λ row : list E, cast <$> row) <$> v]> x)
              batch vals))
    image_stack_batch (seq 0 n_panels);
  mret (match image_stack_batch with
        | [x] => Stack3 x
        | _ => Stack4 image_stack_batch
        end).

End Functions.

End PsanaInterface.


(** ** Raw-image time tool *)

(** A state monad with exceptions for code that mutates an object and
    prints: a computation maps the state to an outcome and the state it
    leaves, also when it raises. *)
Definition st (S A : Type) : Type := S → result A * S.

#[global] Instance st_ret {S} : MRet (st S) := λ A a s, (Ok a, s).

#[global] Instance st_bind {S} : MBind (st S) :=
  λ A B f m s,
    match m s with
    | (Ok a, s') => f a s'
    | (Raise e, s') => (Raise e, s')
    end.

Definition lift {S A} (r : result A) : st S A := λ s, (r, s).

Definition raise {S A} (e : exn) : st S A := λ s, (Raise e, s).

Definition gets {S A} (f : S → A) : st S A := λ s, (Ok (f s), s).

Definition modify {S} (f : S → S) : st S unit := λ s, (Ok tt, f s).

Module TimeTool.
Import Numpy.

(** The floating-point operations the code uses.  [of_int] is the implicit
    conversion of a Python integer in mixed arithmetic; it raises
    [OverflowError] beyond the float range. *)
Class FloatOps (F : Type) : Type := {
  fzero : F;
  fone : F;
  fadd : F → F → F;
  fsub : F → F → F;
  fmul : F → F → F;
  fdiv : F → F → F;
  fltb : F → F → bool;
  fleb : F → F → bool;
  fis_nan : F → bool;
  fnonzero : F → bool;
  of_int : Z → result F;
}.

(** IEEE 754 binary64, the arithmetic of Python floats and of numpy's
    float64. *)
Definition float_of_int (z : Z) : result float :=
  let x := SF2Prim (binary_normalize prec emax z 0 false) in
  if PrimFloat.is_infinity x then Raise OverflowError else Ok x.

#[global] Instance ieee : FloatOps float := {
  fzero := 0%float;
  fone := 1%float;
  fadd := PrimFloat.add;
  fsub := PrimFloat.sub;
  fmul := PrimFloat.mul;
  fdiv := PrimFloat.div;
  fltb := PrimFloat.ltb;
  fleb := PrimFloat.leb;
  fis_nan := PrimFloat.is_nan;
  fnonzero := λ x, negb (PrimFloat.eqb x 0%float);
  of_int := float_of_int;
}.

Section Tool.
Context {F : Type} `{FloatOps F}.

(** *** Python numbers in mixed arithmetic *)

Inductive pynum : Type :=
  | PyInt (z : Z)
  | PyFloat (x : F).

Definition to_float (a : pynum) : result F :=
  match a with
  | PyInt z => of_int z
  | PyFloat x => Ok x
  end.

Definition py_add (a b : pynum) : result pynum :=
  match a, b with
  | PyInt x, PyInt y => Ok (PyInt (x + y))
  | _, _ => x ← to_float a; y ← to_float b; mret (PyFloat (fadd x y))
  end.

Definition py_mul (a b : pynum) : result pynum :=
  match a, b with
  | PyInt x, PyInt y => Ok (PyInt (x * y))
  | _, _ => x ← to_float a; y ← to_float b; mret (PyFloat (fmul x y))
  end.

(** *** The calibrator object *)

(** The value of [self._model]: the Python list [__init__] stores, or the
    numpy array [np.polyfit] and [np.load] return. *)
Inductive model_t : Type :=
  | PyList (cs : list F)
  | NdArray (cs : list F).

Definition coefficients (m : model_t) : list F :=
  match m with PyList cs => cs | NdArray cs => cs end.

(** [bool(self._model)], the test of [if self._model:].  A list is true
    when it is not empty.  An array of one element has the truth value of
    the element; an array of any other size has no truth value
    ([ValueError]).  For the empty array this is numpy from version 2.2 on;
    earlier versions answered false with a deprecation warning. *)
Definition truth (m : model_t) : result bool :=
  match m with
  | PyList cs => Ok (negb (bool_decide (length cs = 0)))
  | NdArray [c] => Ok (fnonzero c)
  | NdArray _ => Raise ValueError
  end.

Record tool : Type := {
  expmt : string;
  hutch : string;
  _model : model_t;
  edges : option (list Z);
  delays : option (list F);
  edges_fit : option (list Z);
  delays_fit : option (list F);
}.

(** The interpreter state a method sees: the object, what has been printed,
    and the [.npy] files [np.load] can read. *)
Record world : Type := {
  self : tool;
  stdout : list string;
  files : string → option (list F);
}.

Definition printed (s : string) (w : world) : world :=
  {| self := self w; stdout := stdout w ++ [s]; files := files w |}.

Definition print (s : string) : st world unit := modify (printed s).

Definition with_self (f : tool → tool) (w : world) : world :=
  {| self := f (self w); stdout := stdout w; files := files w |}.

Definition setattr (f : tool → tool) : st world unit := modify (with_self f).

Definition set_model (m : model_t) (t : tool) : tool :=
  {| expmt := expmt t; hutch := hutch t; _model := m;
     edges := edges t; delays := delays t;
     edges_fit := edges_fit t; delays_fit := delays_fit t |}.

Definition set_edges_delays (e : list Z) (d : list F) (t : tool) : tool :=
  {| expmt := expmt t; hutch := hutch t; _model := _model t;
     edges := Some e; delays := Some d;
     edges_fit := edges_fit t; delays_fit := delays_fit t |}.

Definition set_fit (e : list Z) (d : list F) (t : tool) : tool :=
  {| expmt := expmt t; hutch := hutch t; _model := _model t;
     edges := edges t; delays := delays t;
     edges_fit := Some e; delays_fit := Some d |}.

(** [__init__]: [self.hutch = self.expmt[:3]], [self._model = []]. *)
Definition init (expmt : string) : tool :=
  {| expmt := expmt; hutch := substring 0 3 expmt; _model := PyList [];
     edges := None; delays := None; edges_fit := None; delays_fit := None |}.

(** *** [jitter_correct] and [actual_time] *)

(** The loop [for i, coeff in enumerate(self._model): correction +=
    coeff*edge_pos**(n-i-1)], with [edge_pos] an [int]. *)
Definition correction_loop (n : nat) (edge_pos : Z) (correction : pynum)
    (model : list (nat * F)) : result pynum :=
  foldlM (λ correction ic,
      term ← py_mul (PyFloat ic.2) (PyInt (edge_pos ^ Z.of_nat (n - ic.1 - 1)));
      py_add correction term)
    correction model.

Definition enumerate {A} (l : list A) : list (nat * A) :=
  zip (seq 0 (length l)) l.

Definition jitter_correct (edge_pos : Z) : st world pynum :=
  let correction := PyInt 0 in
  model ← gets (λ w, _model (self w));
  t ← lift (truth model);
  correction ←
    (if t : bool then
       let n := length (coefficients model) in
       correction ← lift (correction_loop n edge_pos correction
                            (enumerate (coefficients model)));
       _ ← print "Using model to correct for jitter.";
       mret correction
     else
       _ ← print "No calibration model. Jitter correction not possible.";
       mret correction);
  lift (py_mul correction (PyInt 1000)).

Definition actual_time (edge_pos : Z) (nominal_delay : F) : st world pynum :=
  let time := PyFloat nominal_delay in
  correction ← jitter_correct edge_pos;
  lift (py_add time correction).

(** Following the specification: the model evaluated as the sum of the
    terms [c_i * e^(k-i)], highest degree first, in nanoseconds, and the
    correction, that sum times 1000. *)
Fixpoint spec_poly (cs : list F) (e : Z) (acc : pynum) : result pynum :=
  match cs with
  | [] => Ok acc
  | c :: cs' =>
      term ← py_mul (PyFloat c) (PyInt (e ^ Z.of_nat (length cs')));
      acc ← py_add acc term;
      spec_poly cs' e acc
  end.

Definition spec_jitter_correction (cs : list F) (e : Z) : result pynum :=
  ns ← spec_poly cs e (PyInt 0);
  py_mul ns (PyInt 1000).

(** *** The [model] property *)

(** Values a caller may assign to [model]. *)
Inductive pyobj : Type :=
  | VList (cs : list F)
  | VStr (s : string)
  | VArray (cs : list F)
  | VFloat (x : F)
  | VNone.

(** [str.split] on a one-character separator. *)
Fixpoint split_on (sep : ascii) (s : string) : list string :=
  match s with
  | EmptyString => [EmptyString]
  | String c s' =>
      if Ascii.eqb c sep then EmptyString :: split_on sep s'
      else match split_on sep s' with
           | [] => [String c EmptyString]
           | w :: ws => String c w :: ws
           end
  end.

(** [np.load(val)] of a file holding a one-dimensional float array. *)
Definition np_load (val : string) : st world (list F) :=
  λ w, match files w val with
       | Some cs => (Ok cs, w)
       | None => (Raise FileNotFoundError, w)
       end.

(** The setter.  Its list branch reads the name [model], which is bound
    neither in the method nor in the module ([NameError]). *)
Definition model_setter (val : pyobj) : st world unit :=
  match val with
  | VList _ => raise NameError
  | VStr val =>
      ext ← lift (getitem (split_on "." val) 1);
      if String.eqb ext "txt" then mret tt
      else if String.eqb ext "yaml" then mret tt
      else if String.eqb ext "npy" then
        m ← np_load val;
        setattr (set_model (NdArray m))
      else mret tt
  | _ => print "Entry not understood and model has not been changed."
  end.

(** *** [fit_calib] *)

(** [a[mask]] with a boolean mask: the lengths must agree. *)
Definition mask_select {A} (a : list A) (mask : list bool) : result (list A) :=
  if decide (length a = length mask)
  then Ok ((zip a mask) ≫= λ xm, if xm.2 : bool then [xm.1] else [])
  else Raise IndexError.

Definition np_any (mask : list bool) : bool := existsb id mask.

(** Following the specification: the samples whose edge position lies in
    the open window (250, 870). *)
Definition in_window (e : Z) : bool := ((250 <? e) && (e <? 870))%Z.

Definition spec_kept (delays : list F) (edges : list Z) : list (F * Z) :=
  filter (λ de, in_window de.2) (zip delays edges).

Section Fit.

(** [np.polyfit(x, y, deg)]. *)
Context (polyfit : list Z → list F → nat → result (list F)).

Definition fit_calib (delays : list F) (edges : list Z) (amplitudes : list F)
    (fwhm : option (list F)) (order : nat) : st world unit :=
  let inrange := false in
  _ ← setattr (set_edges_delays edges delays);
  let gt250 := (λ e, 250 <? e)%Z <$> edges in
  '(inrange, edges_fit, delays_fit) ←
    (if np_any gt250 then
       delays_fit ← lift (mask_select delays gt250);
       edges_fit ← lift (mask_select edges gt250);
       let lt870 := (λ e, e <? 870)%Z <$> edges_fit in
       if np_any lt870 then
         delays_fit ← lift (mask_select delays_fit lt870);
         edges_fit ← lift (mask_select edges_fit lt870);
         let inrange := true in
         _ ← setattr (set_fit edges_fit delays_fit);
         mret (inrange, edges_fit, delays_fit)
       else mret (inrange, edges_fit, delays_fit)
     else mret (inrange, [], []));
  if inrange : bool then
    _ ← print "Fitting calibration between 250 and 870 pixels.";
    m ← lift (polyfit edges_fit delays_fit order);
    setattr (set_model (NdArray m))
  else
    _ ← print "Fit data is out of 250-870 pixel range. Results questionable.";
    m ← lift (polyfit edges delays order);
    setattr (set_model (NdArray m)).

End Fit.

(** *** [detect_edges] *)

(** A 2-dimensional float array of shape [(length rows, ncols)]. *)
Record frame : Type := {
  ncols : nat;
  rows : list (list F);
}.

Definition wf_frame (img : frame) : Prop :=
  Forall (λ row, length row = ncols img) (rows img).

(** A 2-dimensional array of an integer dtype, as a camera read without
    calibration gives it.  The elements are kept as unbounded integers:
    the wrap-around of the dtype plays no part below, because the in-place
    division of the normalization raises on every integer array, whatever
    it holds. *)
Record int_frame : Type := {
  int_ncols : nat;
  int_rows : list (list Z);
}.

(** An array as the code sees it: the dtype is known at run time only. *)
Inductive camera_image : Type :=
  | FloatImage (img : frame)
  | IntImage (img : int_frame).

(** What [self.det.image(evt=evt)] does for an event: it returns an image,
    of a float or of an integer dtype, returns [None] (no camera image for
    the event), or raises. *)
Inductive retrieval : Type :=
  | Retrieved (img : frame)
  | RetrievedInt (img : int_frame)
  | Missing
  | Failed (e : exn).

(** An event of the run: the EPICS variables read through
    [self.ds.env().epicsStore().value(code)] while it is current, and its
    camera image. *)
Record event : Type := {
  epics : string → F;
  image : retrieval;
}.

Definition lower_ascii (c : ascii) : ascii :=
  let n := nat_of_ascii c in
  if (65 <=? n) && (n <=? 90) then ascii_of_nat (n + 32) else c.

(** [str.lower] on ASCII text. *)
Fixpoint lower (s : string) : string :=
  match s with
  | EmptyString => EmptyString
  | String c s' => String (lower_ascii c) (lower s')
  end.

Definition ttstage_code (hutch : string) : result string :=
  let h := lower hutch in
  let num :=
    if String.eqb h "xpp" then "3"
    else if String.eqb h "xcs" then "4"
    else if String.eqb h "mfx" then "45"
    else if String.eqb h "cxi" then "5"
    else "" in
  if negb (String.eqb num "")
  then Ok ("LAS:FS" +:+ num +:+ ":VIT:FS_TGT_TIME_DIAL")
  else Raise InvalidHutchError.

(** [img[first:last]] on the rows, for bounds that are not negative;
    subscripting [None] raises [TypeError]. *)
Definition crop_image (img : option camera_image) (first last : nat)
  : result camera_image :=
  match img with
  | None => Raise TypeError
  | Some (FloatImage img) =>
      Ok (FloatImage
            {| ncols := ncols img;
               rows := take (last - first) (drop first (rows img)) |})
  | Some (IntImage img) =>
      Ok (IntImage
            {| int_ncols := int_ncols img;
               int_rows := take (last - first) (drop first (int_rows img)) |})
  end.

(** [np.sum(cropped, axis=0)]: the rows added up in order, and zeros when
    there is no row. *)
Definition np_sum_axis0 (a : frame) : list F :=
  match rows a with
  | [] => replicate (ncols a) fzero
  | r :: rs => foldl (zip_with fadd) r rs
  end.

(** numpy's [minimum] and [maximum] of two floats, which propagate NaN,
    and the reductions [np.min] and [np.max], which raise on a zero-size
    array. *)
Definition fmin (m y : F) : F :=
  if fis_nan m then m else if fltb m y then m else y.

Definition fmax (m y : F) : F :=
  if fis_nan m then m else if fltb y m then m else y.

Definition np_min (a : list F) : result F :=
  match a with
  | [] => Raise ValueError
  | x :: xs => Ok (foldl fmin x xs)
  end.

Definition np_fmax (a : list F) : result F :=
  match a with
  | [] => Raise ValueError
  | x :: xs => Ok (foldl fmax x xs)
  end.

(** [proj -= np.min(proj); proj /= np.max(proj)]. *)
Definition normalize (proj : list F) : result (list F) :=
  m ← np_min proj;
  let proj := (λ x, fsub x m) <$> proj in
  m ← np_fmax proj;
  let proj := (λ x, fdiv x m) <$> proj in
  mret proj.

(** The same on an array of an integer dtype.  [np.sum] of integers is an
    integer array; the reductions raise on a zero-size array as above; the
    subtraction is done in place; and the in-place true division raises
    [TypeError] (numpy's [UFuncTypeError]): its float64 result cannot be
    stored in an integer array. *)
Definition int_sum_axis0 (a : int_frame) : list Z :=
  match int_rows a with
  | [] => replicate (int_ncols a) 0%Z
  | r :: rs => foldl (zip_with Z.add) r rs
  end.

Definition np_imin (a : list Z) : result Z :=
  match a with
  | [] => Raise ValueError
  | x :: xs => Ok (foldl Z.min x xs)
  end.

Definition normalize_int (proj : list Z) : result (list F) :=
  m ← np_imin proj;
  let proj := (λ x, x - m)%Z <$> proj in
  m ← np_max proj;
  Raise TypeError.

(** [a.argmax()]: the first index of the maximum, a NaN counting as the
    maximum; raises on a zero-size array. *)
Fixpoint argmax_from (mp : F) (mi i : nat) (xs : list F) : nat :=
  match xs with
  | [] => mi
  | x :: xs =>
      if fis_nan mp then mi
      else if negb (fleb x mp) then argmax_from x i (S i) xs
      else argmax_from mp mi (S i) xs
  end.

Definition argmax (a : list F) : result nat :=
  match a with
  | [] => Raise ValueError
  | x :: xs => Ok (argmax_from x 0 1 xs)
  end.

(** [kernel = np.zeros([300]); kernel[:150] = 1]. *)
Definition kernel : list F := replicate 150 fone ++ replicate 150 fzero.

(** The three lists the loop appends to. *)
Record edge_lists : Type := {
  stage_pos : list F;
  edge_pos : list nat;
  conv_ampl : list F;
}.

Definition append_stage (x : F) : st edge_lists unit :=
  modify (λ l, {| stage_pos := stage_pos l ++ [x];
                  edge_pos := edge_pos l; conv_ampl := conv_ampl l |}).

Definition append_edge (e : nat) : st edge_lists unit :=
  modify (λ l, {| stage_pos := stage_pos l;
                  edge_pos := edge_pos l ++ [e]; conv_ampl := conv_ampl l |}).

Definition append_ampl (a : F) : st edge_lists unit :=
  modify (λ l, {| stage_pos := stage_pos l;
                  edge_pos := edge_pos l; conv_ampl := conv_ampl l ++ [a] |}).

(** [stage_pos.pop(-1)]. *)
Definition pop_stage : st edge_lists unit :=
  λ l, match stage_pos l with
       | [] => (Raise IndexError, l)
       | _ => (Ok tt, {| stage_pos := removelast (stage_pos l);
                         edge_pos := edge_pos l; conv_ampl := conv_ampl l |})
       end.

(** [try: body except Exception: handler]: the handler runs in the state
    the body left when it raised. *)
Definition try_except {S A} (body : st S A) (handler : st S A) : st S A :=
  λ s, match body s with
       | (Ok a, s') => (Ok a, s')
       | (Raise _, s') => handler s'
       end.

Definition det_image (evt : event) : result (option camera_image) :=
  match image evt with
  | Retrieved img => Ok (Some (FloatImage img))
  | RetrievedInt img => Ok (Some (IntImage img))
  | Missing => Ok None
  | Failed e => Raise e
  end.

Section Edges.

(** [scipy.signal.fftconvolve(in1, in2, mode='same')]. *)
Context (fftconvolve : list F → list F → list F).

(** From the cropped image to the convolution. *)
Definition convolved (cropped : camera_image) : result (list F) :=
  proj ← match cropped with
         | FloatImage cropped => normalize (np_sum_axis0 cropped)
         | IntImage cropped => normalize_int (int_sum_axis0 cropped)
         end;
  mret (fftconvolve proj kernel).

(** The body of the [try] for one event. *)
Definition try_body (evt : event) : st edge_lists unit :=
  img ← lift (det_image evt);
  cropped ← lift (crop_image img 40 60);
  conv ← lift (convolved cropped);
  e ← lift (argmax conv);
  _ ← append_edge e;
  last_edge ← gets (λ l, last (edge_pos l));
  a ← lift (match last_edge with
            | Some e => getitem conv e
            | None => Raise IndexError
            end);
  append_ampl a.

(** One round of [for idx, evt in enumerate(self.ds.events())]. *)
Definition loop_body (stage_code : string) (evt : event) : st edge_lists unit :=
  _ ← append_stage (epics evt stage_code);
  try_except (try_body evt) pop_stage.

Fixpoint for_each {S B} (body : B → st S unit) (l : list B) : st S unit :=
  match l with
  | [] => mret tt
  | x :: l => _ ← body x; for_each body l
  end.

Definition detect_edges (hutch : string) (events : list event)
  : result (list F * list nat * list F) :=
  let start := {| stage_pos := []; edge_pos := []; conv_ampl := [] |} in
  stage_code ← ttstage_code hutch;
  match for_each (loop_body stage_code) events start with
  | (Ok _, l) => Ok (stage_pos l, edge_pos l, conv_ampl l)
  | (Raise e, _) => Raise e
  end.

(** What the body of the [try] computes from the image of an event: the
    edge position and the amplitude it appends. *)
Definition frame_edge (img : option camera_image) : result (nat * F) :=
  cropped ← crop_image img 40 60;
  conv ← convolved cropped;
  e ← argmax conv;
  a ← getitem conv e;
  mret (e, a).

(** The sample an event contributes, if any. *)
Definition event_sample (stage_code : string) (evt : event)
  : option (F * nat * F) :=
  match det_image evt ≫= frame_edge with
  | Ok ea => Some (epics evt stage_code, ea.1, ea.2)
  | Raise _ => None
  end.

Definition extend (l : edge_lists) (s : option (F * nat * F)) : edge_lists :=
  match s with
  | Some (d, e, a) =>
      {| stage_pos := stage_pos l ++ [d]; edge_pos := edge_pos l ++ [e];
         conv_ampl := conv_ampl l ++ [a] |}
  | None => l
  end.

End Edges.

(** The events whose image [det.image] returns. *)
Definition retrieved (evt : event) : bool :=
  match image evt with
  | Retrieved _ | RetrievedInt _ => true
  | _ => false
  end.


(** A convolution by the defining sums, cut to the size of [in1] the way
    mode ['same'] centres it.  [fftconvolve] computes the same sums through
    a Fourier transform, up to rounding. *)
Definition convolve_at (in1 in2 : list F) (k : nat) : F :=
  foldl (λ acc i,
      match in1 !! i, (if decide (i ≤ k) then in2 !! (k - i) else None) with
      | Some a, Some b => fadd acc (fmul a b)
      | _, _ => acc
      end)
    fzero (seq 0 (length in1)).

Definition convolve_same (in1 in2 : list F) : list F :=
  let full := convolve_at in1 in2 <$> seq 0 (length in1 + length in2 - 1) in
  take (length in1) (drop ((length in2 - 1) / 2) full).

End Tool.

End TimeTool.

(** ** Specification vocabulary for the panel mapper *)

Module PanelSpec.
Import Numpy PsanaInterface.

(** A rectangular array of shape [(p, f, s)]. *)
Definition shaped {A} (p f s : nat) (x : list (list (list A))) : Prop :=
  length x = p ∧
  Forall (λ pn, length pn = f ∧ Forall (λ row : list A, length row = s) pn) x.

(** The element at [(p, f, s)] of a 3-dimensional array. *)
Definition at3 {A} (x : list (list (list A))) (p f s : nat) : option A :=
  pn ← x !! p; row ← pn !! f; row !! s.

(** The canvas shape [(index_max_x, index_max_y)] that
    [assemble_image_stack_batch] computes from a map. *)
Definition canvas_shape (pixel_index_map : index_map) : result (nat * nat) :=
  mx ← np_max (coords fst pixel_index_map);
  my ← np_max (coords snd pixel_index_map);
  h ← dim (mx + 1);
  w ← dim (my + 1);
  mret (h, w).

(** The canvas cell every source location designates: its coordinate pair
    resolved against the canvas shape the way numpy resolves an index.  For
    a map of non-negative coordinates the cell is the pair itself. *)
Definition targets (pixel_index_map : index_map)
  : result (list (list (list (nat * nat)))) :=
  hw ← canvas_shape pixel_index_map;
  mapM (resolve_panel hw.1 hw.2) pixel_index_map.

(** An image of shape [(h, w)]. *)
Definition image_shape {A} (h w : nat) (im : list (list A)) : Prop :=
  length im = h ∧ Forall (λ row : list A, length row = w) im.

(** The stores of the panel loop for one image stack [x], one block per
    panel [l < n]: panel [l] stores [x[l]] at the cells of panel [l], in C
    order. *)
Definition blocks {V} (cells : list (list (list (nat * nat))))
    (x : list (list (list V))) (n : nat) : list (list (nat * nat * V)) :=
  (λ l, zip (concat (default [] (cells !! l))) (concat (default [] (x !! l))))
    <$> seq 0 n.

#[global] Arguments blocks : simpl never.

(** The batch axis made explicit ([np.expand_dims]) and dropped again. *)
Definition images_list {V} (x : @images V) : list (list (list V)) :=
  match x with Image2 im => [im] | Image3 ims => ims end.

Definition stack_list {V} (x : @image_stack V) : list (list (list (list V))) :=
  match x with Stack3 x => [x] | Stack4 xs => xs end.

Definition pack_images {V} (ims : list (list (list V))) : @images V :=
  match ims with [im] => Image2 im | _ => Image3 ims end.

Definition pack_stack {V} (xs : list (list (list (list V)))) : @image_stack V :=
  match xs with [x] => Stack3 x | _ => Stack4 xs end.

(** The cell of a non-negative coordinate pair is the pair itself. *)
Definition cell_of (zrc : Z * Z) : nat * nat := (Z.to_nat zrc.1, Z.to_nat zrc.2).

Definition cells_of (M : index_map) : list (list (list (nat * nat))) :=
  (λ pn : list (list (Z * Z)),
     (λ row : list (Z * Z), cell_of <$> row) <$> pn) <$> M.

(** Arrays converted element by element ([astype]). *)
Definition cast_stack {E V} (cast : E → V) (x : list (list (list E)))
  : list (list (list V)) :=
  (λ pn : list (list E), (λ row : list E, cast <$> row) <$> pn) <$> x.

Definition cast_image_stack {E V} (cast : E → V) (x : @image_stack E)
  : @image_stack V :=
  match x with
  | Stack3 x => Stack3 (cast_stack cast x)
  | Stack4 xs => Stack4 (cast_stack cast <$> xs)
  end.

Definition cast_image {E V} (cast : E → V) (im : list (list E))
  : list (list V) :=
  (λ row : list E, cast <$> row) <$> im.

Definition cast_images {E V} (cast : E → V) (x : @images E) : @images V :=
  match x with
  | Image2 im => Image2 (cast_image cast im)
  | Image3 ims => Image3 (cast_image cast <$> ims)
  end.

(** What both functions do with a leading axis of length one. *)
Definition squeeze {V} (x : @image_stack V) : @image_stack V :=
  match x with
  | Stack4 [x] => Stack3 x
  | _ => x
  end.

End PanelSpec.

(** ** Concrete inputs *)

Module Examples.
Import Numpy PsanaInterface PanelSpec TimeTool.

(** A map with a negative coordinate and two panels, a batch of two. *)
Definition M_ex : index_map :=
  [[[(0, 0); (0, 1)]; [(1, 0); (1, 1)]];
   [[(0, 2); (0, 3)]; [(-1, 2); (1, 3)]]]%Z.

Definition X_ex : @image_stack Z :=
  Stack4 [[[[1; 2]; [3; 4]]; [[5; 6]; [7; 8]]];
          [[[11; 12]; [13; 14]]; [[15; 16]; [17; 18]]]]%Z.

Definition cells_ex : list (list (list (nat * nat))) :=
  [[[(0, 0); (0, 1)]; [(1, 0); (1, 1)]];
   [[(0, 2); (0, 3)]; [(1, 2); (1, 3)]]].

(** Two panels that store to the same cell. *)
Definition M_collide : index_map :=
  [[[(0, 0); (0, 1)]]; [[(0, 1); (0, 2)]]]%Z.




(** A float64 batch of two for the map [M_ex]. *)
Definition X_float : @image_stack float :=
  Stack4 [[[[1; 2]; [3; 4]]; [[5; 6]; [7; 8]]];
          [[[11; 12]; [13; 14]]; [[15; 16]; [17; 18]]]]%float.

(** A calibrator of experiment [mfxlz0420] in the interpreter state
    [files], holding the model [m]. *)
Definition calibrator (m : @model_t float) (files : string → option (list float))
  : @world float :=
  {| self := set_model m (init "mfxlz0420"); stdout := []; files := files |}.

Definition no_files : string → option (list float) := λ _, None.

(** Coefficient files: one named the usual way, one with a second dot in
    its name, one given by a relative path. *)
Definition coefficient_files (name : string) : option (list float) :=
  if String.eqb name "model.npy" then Some [1; 0; 0]%float
  else if String.eqb name "fit.npy.txt" then Some [1; 0; 0]%float
  else if String.eqb name "./fit.npy" then Some [1; 0; 0]%float
  else None.

(** A stand-in for the least-squares solve of [np.polyfit]: the constant
    polynomial through the first sample. *)
Definition lstsq_first_sample (x : list Z) (y : list float) (deg : nat)
  : result (list float) :=
  match y with
  | y0 :: _ => Ok (replicate deg 0%float ++ [y0])
  | [] => Raise ValueError
  end.

(** Camera frames of 42 rows: one with a step, one flat. *)
Definition frame_step : @frame float :=
  {| ncols := 6; rows := replicate 42 [1; 1; 1; 7; 7; 7]%float |}.

Definition frame_flat : @frame float :=
  {| ncols := 4; rows := replicate 42 [5; 5; 5; 5]%float |}.

(** A flat frame of an integer dtype, and a float frame without columns. *)
Definition int_frame_flat : int_frame :=
  {| int_ncols := 4; int_rows := replicate 42 [5; 5; 5; 5]%Z |}.


Definition event_of (delay : float) (r : @retrieval float) : @event float :=
  {| epics := λ _, delay; image := r |}.

Definition run_events : list (@event float) :=
  [event_of 1 (Retrieved frame_step); event_of 2 Missing;
   event_of 3 (Retrieved frame_step); event_of 4 (Failed ValueError);
   event_of 5 (RetrievedInt int_frame_flat)]%float.

End Examples.

(** ** The [PsanaInterface] object: event bookkeeping *)

Module PsanaRun.
Import Numpy.

(** The exceptions of the class: those of Python and numpy, and the
    [IOError] that [get_images] raises itself. *)
Inductive psana_exn : Type :=
  | Builtin (e : exn)
  | IOError.

Inductive outcome (A : Type) : Type :=
  | Returned (a : A)
  | Thrown (e : psana_exn).

Arguments Returned {A} a.
Arguments Thrown {A} e.

(** A method: it maps the object to an outcome and the object it leaves,
    also when it raises. *)
Definition io (S A : Type) : Type := S → outcome A * S.

#[global] Instance io_ret {S} : MRet (io S) := λ A a s, (Returned a, s).

#[global] Instance io_bind {S} : MBind (io S) :=
  λ A B f m s,
    match m s with
    | (Returned a, s') => f a s'
    | (Thrown e, s') => (Thrown e, s')
    end.

Definition io_lift {S A} (r : result A) : io S A :=
  λ s, match r with
       | Ok a => (Returned a, s)
       | Raise e => (Thrown (Builtin e), s)
       end.

Definition io_raise {S A} (e : psana_exn) : io S A := λ s, (Thrown e, s).

Definition io_gets {S A} (f : S → A) : io S A := λ s, (Returned (f s), s).

Definition io_modify {S} (f : S → S) : io S unit := λ s, (Returned tt, f s).

(** The attributes the bookkeeping methods read and write, and what has
    been printed. *)
Record interface : Type := {
  counter : Z;
  max_events : Z;
  calibrate : bool;
  track_timestamps : bool;
  seconds : list Z;
  nanoseconds : list Z;
  fiducials : list Z;
  event_receiver : option string;
  event_code : option Z;
  event_logic : bool;
  output : list string;
}.

Definition set_counter (c : Z) (s : interface) : interface :=
  {| counter := c; max_events := max_events s; calibrate := calibrate s;
     track_timestamps := track_timestamps s; seconds := seconds s;
     nanoseconds := nanoseconds s; fiducials := fiducials s;
     event_receiver := event_receiver s; event_code := event_code s;
     event_logic := event_logic s; output := output s |}.

Definition set_max_events (m : Z) (s : interface) : interface :=
  {| counter := counter s; max_events := m; calibrate := calibrate s;
     track_timestamps := track_timestamps s; seconds := seconds s;
     nanoseconds := nanoseconds s; fiducials := fiducials s;
     event_receiver := event_receiver s; event_code := event_code s;
     event_logic := event_logic s; output := output s |}.

Definition set_calibrate (b : bool) (s : interface) : interface :=
  {| counter := counter s; max_events := max_events s; calibrate := b;
     track_timestamps := track_timestamps s; seconds := seconds s;
     nanoseconds := nanoseconds s; fiducials := fiducials s;
     event_receiver := event_receiver s; event_code := event_code s;
     event_logic := event_logic s; output := output s |}.

Definition add_timestamp (sec nsec fid : Z) (s : interface) : interface :=
  {| counter := counter s; max_events := max_events s; calibrate := calibrate s;
     track_timestamps := track_timestamps s; seconds := seconds s ++ [sec];
     nanoseconds := nanoseconds s ++ [nsec]; fiducials := fiducials s ++ [fid];
     event_receiver := event_receiver s; event_code := event_code s;
     event_logic := event_logic s; output := output s |}.

Definition add_output (line : string) (s : interface) : interface :=
  {| counter := counter s; max_events := max_events s; calibrate := calibrate s;
     track_timestamps := track_timestamps s; seconds := seconds s;
     nanoseconds := nanoseconds s; fiducials := fiducials s;
     event_receiver := event_receiver s; event_code := event_code s;
     event_logic := event_logic s; output := output s ++ [line] |}.

(** [a[i]] with an integer that may be negative. *)
Definition getitem_int {A} (a : list A) (i : Z) : result A :=
  k ← norm_index (length a) i; getitem a k.

(** [np.cumsum]. *)
Fixpoint cumsum_from (acc : Z) (l : list Z) : list Z :=
  match l with
  | [] => []
  | x :: l => (acc + x)%Z :: cumsum_from (acc + x)%Z l
  end.

Definition cumsum (l : list Z) : list Z := cumsum_from 0 l.

(** The loop that fills [split_indices]: rank [r] gets the quotient, and one
    more when [r] is below the remainder.  [//] and [%] are floor division
    and its remainder. *)
Definition num_per_rank (max_events total_ranks r : Z) : Z :=
  let num_per_rank := (max_events / total_ranks)%Z in
  if (r <? max_events mod total_ranks)%Z then (num_per_rank + 1)%Z
  else num_per_rank.

Definition fill_split (max_events total_ranks : Z) (n : nat) : list Z :=
  foldl (λ split_indices r,
      <[r := num_per_rank max_events total_ranks (Z.of_nat r)]> split_indices)
    (replicate n 0%Z) (seq 0 n).

(** [turn_calibration_off]. *)
Definition turn_calibration_off : io interface unit :=
  io_modify (set_calibrate false).

(** [distribute_events].  The counts are stored in a float64 array
    ([np.zeros]), summed there and converted back with [astype(int)].  A
    float64 holds every integer up to 2^53 exactly, and the counts and
    their sums lie between 0 and [max_events]; so for a maximum of events
    below 2^53 in absolute value the boundaries are the integers computed
    here.  Beyond it numpy rounds, and from 2^1024 on the store raises
    [OverflowError]: the statements about this function keep to maxima
    below 2^53 ([exact_count]).  Memory is not modelled: [np.zeros] is
    taken to return for every size that is not negative. *)
Definition distribute_events (rank total_ranks max_events_arg : Z)
  : io interface unit :=
  max_events_arg ←
    (if (max_events_arg =? -1)%Z then io_gets max_events
     else mret max_events_arg);
  n ← io_lift (dim total_ranks);
  let split_indices := fill_split max_events_arg total_ranks n in
  let split_indices := [0%Z] ++ cumsum split_indices in
  c ← io_lift (getitem_int split_indices rank);
  _ ← io_modify (set_counter c);
  m ← io_lift (getitem_int split_indices (rank + 1));
  io_modify (set_max_events m).

(** [skip_event], for an event whose EVR codes are [event_codes] ([None]
    when the EVR detector has nothing for the event). *)
Definition skip_event (event_codes : option (list Z)) : io interface bool :=
  let skip := false in
  receiver ← io_gets event_receiver;
  match receiver with
  | Some _ =>
      match event_codes with
      | None => io_raise (Builtin TypeError)
      | Some event_codes =>
          code ← io_gets event_code;
          logic ← io_gets event_logic;
          let found_event :=
            match code with
            | Some code => bool_decide (code ∈ event_codes)
            | None => false
            end in
          if negb (eqb found_event logic) then mret true else mret skip
      end
  | None => mret skip
  end.

Section Images.

(** The arrays the detector returns for an event, the zero row of the
    holder, and what [images[i] = value] leaves in row [i]: numpy's cast and
    broadcast of the value, or the exception it raises (as for [None]). *)
Context {A : Type} (zero_row : A) (setrow : option A → result A).

(** An event of the run: what [det.image], [det.calib] and [det.raw]
    return for it, and its [EventId]. *)
Record run_event : Type := {
  ev_image : option A;
  ev_calib : option A;
  ev_raw : option A;
  ev_time : Z * Z;
  ev_fiducials : Z;
}.

(** [get_timestamp]. *)
Definition get_timestamp (evt : run_event) : io interface unit :=
  io_modify (add_timestamp (ev_time evt).1 (ev_time evt).2 (ev_fiducials evt)).

(** The loop of [get_images] over the remaining values of
    [counter_batch]; [events] is [self.runner.event(self.times[i])] for
    every [i]. *)
Fixpoint get_images_loop (events : list run_event) (assemble : bool)
    (batch : list nat) (images : list A) : io interface (list A) :=
  match batch with
  | [] => mret images
  | counter_batch :: batch =>
      c ← io_gets counter;
      m ← io_gets max_events;
      if (m <=? c)%Z then
        let images := take counter_batch images in
        _ ← io_modify (add_output "No more events to retrieve");
        mret images
      else
        evt ← io_lift (getitem_int events c);
        calib ← io_gets calibrate;
        row ←
          (if assemble then
             if negb calib then io_raise IOError
             else io_lift (setrow (ev_image evt))
           else
             if calib then io_lift (setrow (ev_calib evt))
             else io_lift (setrow (ev_raw evt)));
        let images := <[counter_batch := row]> images in
        track ← io_gets track_timestamps;
        _ ← (if track : bool then get_timestamp evt else mret tt);
        _ ← io_modify (λ s, set_counter (counter s + 1) s);
        get_images_loop events assemble batch images
  end.

Definition get_images (events : list run_event) (num_images : Z)
    (assemble : bool) : io interface (list A) :=
  n ← io_lift (dim num_images);
  let images := replicate n zero_row in
  get_images_loop events assemble (seq 0 n) images.

End Images.

End PsanaRun.

(** ** Specification vocabulary for the event bookkeeping *)

Module RunSpec.
Import Numpy PsanaRun.

(** The boundary before rank [k] when [m] events are dealt to [t] ranks:
    [k] quotients and one more for each of the first ranks below the
    remainder. *)
Definition split_point (m t k : Z) : Z :=
  (k * (m / t) + Z.min k (m mod t))%Z.

(** The event indices between [counter] and [max_events], which
    [get_images] visits. *)
Definition rank_range (s : interface) : list Z :=
  seqZ (counter s) (max_events s - counter s).

(** The maximum of events chosen when [max_events] is left at [-1]. *)
Definition chosen_max (max_events_arg : Z) (s : interface) : Z :=
  if (max_events_arg =? -1)%Z then max_events s else max_events_arg.

(** A count that the float64 array of [distribute_events] holds exactly:
    below 2^53 in absolute value. *)
Definition exact_count (m : Z) : Prop :=
  (-9007199254740992 < m < 9007199254740992)%Z.

(** The object [distribute_events] leaves to rank [r], and the number of
    events between [counter] and [max_events], the share of the rank. *)
Definition rank_state (total_ranks max_events_arg : Z) (s : interface) (r : Z)
  : interface :=
  (distribute_events r total_ranks max_events_arg s).2.

Definition share (s : interface) : Z := (max_events s - counter s)%Z.

Section Images.
Context {A : Type} (setrow : option A → result A).

(** The array [get_images] asks the detector for. *)
Definition event_value (assemble calib : bool) (evt : @run_event A) : option A :=
  if assemble then ev_image evt
  else if calib then ev_calib evt else ev_raw evt.

(** The rows stored for a sequence of events. *)
Definition rows_of (assemble calib : bool) (evts : list (@run_event A))
  : result (list A) :=
  mapM (λ evt, setrow (event_value assemble calib evt)) evts.

(** The object after [get_images] has stored one event: its timestamp
    appended when timestamps are tracked, the counter moved on. *)
Definition store_step (s : interface) (evt : @run_event A) : interface :=
  set_counter (counter s + 1)
    (if track_timestamps s
     then add_timestamp (ev_time evt).1 (ev_time evt).2 (ev_fiducials evt) s
     else s).

(** The object after it has stored [evts]. *)
Definition stamp_all (evts : list (@run_event A)) (s : interface) : interface :=
  foldl store_step s evts.

(** The number of events [get_images] stores when asked for [n]. *)
Definition stored (n : nat) (s : interface) : nat :=
  Nat.min n (Z.to_nat (max_events s - counter s)).

(** The events it stores them from. *)
Definition visited (events : list (@run_event A)) (n : nat) (s : interface)
  : list (@run_event A) :=
  take (stored n s) (drop (Z.to_nat (counter s)) events).

(** The object it leaves: the message is printed when it ran out of
    events before [n] were stored. *)
Definition after_images (events : list (@run_event A)) (n : nat)
    (s : interface) : interface :=
  let s' := stamp_all (visited events n s) s in
  if decide (stored n s < n) then add_output "No more events to retrieve" s'
  else s'.

End Images.

(** What a call of [get_images] may do to the object: the limit and the
    switches stay, the counter moves forward and not past the limit, and
    the three timestamp lists grow by one entry for every event counted
    when timestamps are tracked, and not at all otherwise. *)
Definition advanced (s s' : interface) : Prop :=
  max_events s' = max_events s ∧
  calibrate s' = calibrate s ∧
  track_timestamps s' = track_timestamps s ∧
  (counter s ≤ counter s')%Z ∧
  (counter s' ≤ Z.max (counter s) (max_events s))%Z ∧
  let k := if track_timestamps s then Z.to_nat (counter s' - counter s)
           else 0 in
  length (seconds s') = length (seconds s) + k ∧
  length (nanoseconds s') = length (nanoseconds s) + k ∧
  length (fiducials s') = length (fiducials s) + k.

End RunSpec.

(** ** The calibration run of the time tool *)

Module TimeToolRun.
Import Numpy TimeTool.

(** The hutches [ttstage_code] knows, in lower case. *)
Definition hutches : list string := ["xpp"; "xcs"; "mfx"; "cxi"].

Section Calibrate.
Context {F : Type} `{FloatOps F}.
Context (fftconvolve : list F → list F → list F).
Context (polyfit : list Z → list F → nat → result (list F)).

(** [calibrate], for a run whose data source [open_run] has bound and
    whose events are [events]: the edges are detected and a polynomial of
    order 2 is fitted. *)
Definition calibrate (events : list event) : st world unit :=
  h ← gets (λ w, hutch (self w));
  r ← lift (detect_edges fftconvolve h events);
  let '(stage_pos, edge_pos, conv_ampl) := r in
  fit_calib polyfit stage_pos (Z.of_nat <$> edge_pos) conv_ampl None 2.

(** Following the specification of [fit_calib]: the data of the fit, the
    samples in the window or, when there is none, all of them. *)
Definition fitted_samples (delays : list F) (edges : list Z)
  : list Z * list F :=
  let kept := spec_kept delays edges in
  if bool_decide (kept = []) then (edges, delays) else (kept.*2, kept.*1).

End Calibrate.

End TimeToolRun.

(** ** Example runs *)

Module RunExamples.
Import Numpy PsanaRun RunSpec.

(** The attributes as [__init__] leaves them for a run of ten events, with
    timestamps tracked. *)
Definition ten_events : interface :=
  {| counter := 0; max_events := 10; calibrate := true;
     track_timestamps := true;
     seconds := []; nanoseconds := []; fiducials := [];
     event_receiver := None; event_code := None; event_logic := true;
     output := [] |}.

(** Rows of two pixels.  Storing an array of the shape of a row keeps
    it; storing [None] raises [TypeError]. *)
Definition store_row (value : option (list Z)) : result (list Z) :=
  match value with
  | Some a => Ok a
  | None => Raise TypeError
  end.

Definition shot (k : Z) : @run_event (list Z) :=
  {| ev_image := Some [k; k]; ev_calib := Some [k; k + 1];
     ev_raw := Some [k; k + 2]; ev_time := (100 + k, k);
     ev_fiducials := 3 * k |}%Z.

Definition ten_shots : list (@run_event (list Z)) := shot <$> seqZ 0 10.

End RunExamples.

(** ** Facts about the error monad *)

Module ResultFacts.

Lemma bind_Ok {A B} (m : result A) (f : A → result B) (b : B) :
  m ≫= f = Ok b ↔ ∃ a, m = Ok a ∧ f a = Ok b.
Proof.
  destruct m as [a|e]; simpl; split.
  - intros H. by exists a.
  - by intros (a' & [= ->] & H).
  - intros H. discriminate H.
  - intros (a' & H & _). discriminate H.
Qed.

Lemma mapM_Ok {A B} (f : A → result B) (l : list A) (k : list B) :
  mapM f l = Ok k ↔ Forall2 (λ x y, f x = Ok y) l k.
Proof.
  revert k. induction l as [|x l IH]; intros k; simpl.
  - split.
    + intros [= <-]. constructor.
    + intros H. by inversion H.
  - split.
    + intros H. apply bind_Ok in H as (y & Hy & H).
      apply bind_Ok in H as (k' & Hk' & [= <-]).
      constructor; [done|]. by apply IH.
    + intros H. inversion H as [|? y ? k' Hy Hk']; subst.
      rewrite Hy. simpl. apply IH in Hk'. by rewrite Hk'.
Qed.

Lemma mapM_Ok_fmap {A B} (f : A → result B) (g : A → B) (l : list A) :
  (∀ x, x ∈ l → f x = Ok (g x)) → mapM f l = Ok (g <$> l).
Proof.
  intros H. apply mapM_Ok. apply Forall2_fmap_r, Forall_Forall2_diag.
  by apply Forall_forall.
Qed.

Lemma mapM_Ok_id {A} (f : A → result A) (l : list A) :
  (∀ x, x ∈ l → f x = Ok x) → mapM f l = Ok l.
Proof.
  intros H. rewrite <- (list_fmap_id l) at 2. by apply mapM_Ok_fmap.
Qed.

Lemma foldlM_snoc {A B} (f : A → B → result A) (a : A) (l : list B) (x : B) :
  foldlM f a (l ++ [x]) = foldlM f a l ≫= λ a', f a' x.
Proof.
  revert a. induction l as [|y l IH]; intros a; simpl.
  - by destruct (f a x).
  - destruct (f a y) as [a'|e]; simpl; [apply IH|done].
Qed.

End ResultFacts.

(** ** Element stores on a canvas *)

Module CanvasFacts.
Import Numpy PsanaInterface PanelSpec ResultFacts.

Section Canvas.
Context {V : Type} (zero : V).
Implicit Types (im : list (list V)) (rc : nat * nat) (v : V).
Implicit Types (ws : list (nat * nat * V)).

Lemma image_shape_zeros h w : image_shape h w (np_zeros2 zero h w).
Proof.
  split; [apply length_replicate|].
  apply Forall_replicate, length_replicate.
Qed.

Lemma image_shape_set2 h w im rc v :
  image_shape h w im → image_shape h w (set2 im rc v).
Proof.
  intros [Hh Hw]. split; unfold set2.
  - by rewrite length_alter.
  - apply Forall_lookup. intros i row Hrow.
    rewrite list_lookup_alter in Hrow. case_decide as Hi.
    + apply fmap_Some in Hrow as (row' & Hrow' & ->).
      rewrite length_insert. by eapply (Forall_lookup_1 _ _ _ _ Hw).
    + by eapply (Forall_lookup_1 _ _ _ _ Hw).
Qed.

Lemma image_shape_write_cells h w im ws :
  image_shape h w im → image_shape h w (write_cells im ws).
Proof.
  revert im. induction ws as [|x ws IH]; intros im H; [done|].
  simpl. apply IH. by apply image_shape_set2.
Qed.

Lemma get2_in_shape h w im r c :
  image_shape h w im → r < h → c < w → is_Some (get2 im (r, c)).
Proof.
  intros [Hh Hw] Hr Hc. unfold get2. simpl.
  destruct (lookup_lt_is_Some_2 im r) as [row Hrow]; [lia|].
  rewrite Hrow. simpl. apply lookup_lt_is_Some_2.
  by rewrite (Forall_lookup_1 _ _ _ _ Hw Hrow).
Qed.

Lemma get2_zeros h w r c :
  r < h → c < w → get2 (np_zeros2 zero h w) (r, c) = Some zero.
Proof.
  intros Hr Hc. unfold get2, np_zeros2. simpl.
  rewrite lookup_replicate_2 by done. simpl.
  by rewrite lookup_replicate_2.
Qed.

Lemma get2_set2_eq im rc v :
  is_Some (get2 im rc) → get2 (set2 im rc v) rc = Some v.
Proof.
  intros [v' Hv']. unfold get2, set2 in *.
  rewrite list_lookup_alter_eq.
  destruct (im !! rc.1) as [row|]; [|done]. simpl in *.
  apply list_lookup_insert_eq. by eapply lookup_lt_Some.
Qed.

Lemma get2_set2_ne im rc rc' v :
  rc ≠ rc' → get2 (set2 im rc v) rc' = get2 im rc'.
Proof.
  intros Hne. unfold get2, set2.
  destruct (decide (rc.1 = rc'.1)) as [Heq|Hr].
  - rewrite Heq, list_lookup_alter_eq.
    destruct (im !! rc'.1) as [row|]; [|done]. simpl.
    apply list_lookup_insert_ne. intros Hc. apply Hne.
    destruct rc, rc'. simpl in *. congruence.
  - by rewrite list_lookup_alter_ne.
Qed.

Lemma get2_set2_is_Some im rc rc' v :
  is_Some (get2 im rc') → is_Some (get2 (set2 im rc v) rc').
Proof.
  intros H. destruct (decide (rc = rc')) as [->|Hne].
  - by rewrite get2_set2_eq.
  - by rewrite get2_set2_ne.
Qed.

Lemma write_cells_snoc im ws w :
  write_cells im (ws ++ [w]) = set2 (write_cells im ws) w.1 w.2.
Proof. unfold write_cells. by rewrite foldl_snoc. Qed.

Lemma write_cells_app im ws ws' :
  write_cells im (ws ++ ws') = write_cells (write_cells im ws) ws'.
Proof. unfold write_cells. by rewrite foldl_app. Qed.

Lemma get2_write_cells_is_Some im ws rc :
  is_Some (get2 im rc) → is_Some (get2 (write_cells im ws) rc).
Proof.
  revert im. induction ws as [|w ws IH]; intros im H; [done|].
  simpl. apply IH. by apply get2_set2_is_Some.
Qed.

(** A cell no store names keeps its value. *)
Lemma get2_write_cells_notin im ws rc :
  rc ∉ ws.*1 → get2 (write_cells im ws) rc = get2 im rc.
Proof.
  revert im. induction ws as [|w ws IH]; intros im H; [done|].
  simpl in *. apply not_elem_of_cons in H as [Hne H].
  rewrite IH by done. by apply get2_set2_ne.
Qed.

(** A cell some store names holds the value of one of the stores that name
    it. *)
Lemma get2_write_cells_in im ws rc :
  rc ∈ ws.*1 → is_Some (get2 im rc) →
  ∃ v, (rc, v) ∈ ws ∧ get2 (write_cells im ws) rc = Some v.
Proof.
  induction ws as [|w ws IH] using rev_ind; intros Hin Hsome.
  - by apply elem_of_nil in Hin.
  - rewrite write_cells_snoc.
    destruct (decide (w.1 = rc)) as [Heq|Hne].
    + exists w.2. split.
      * apply elem_of_app. right. apply list_elem_of_singleton.
        destruct w. simpl in *. by subst.
      * rewrite Heq. apply get2_set2_eq. by apply get2_write_cells_is_Some.
    + rewrite fmap_app in Hin. apply elem_of_app in Hin as [Hin|Hin].
      * destruct (IH Hin Hsome) as (v & Hv & Hget).
        exists v. split; [apply elem_of_app; by left|].
        by rewrite get2_set2_ne.
      * apply list_elem_of_singleton in Hin. by subst.
Qed.

(** Stores grouped in blocks: the cell holds a value stored by the last
    block that names it, and its initial value when no block does. *)
Lemma get2_write_blocks im (Ws : list (list (nat * nat * V))) rc :
  is_Some (get2 im rc) →
  (∃ l blk v, Ws !! l = Some blk ∧ (rc, v) ∈ blk ∧
     get2 (write_cells im (concat Ws)) rc = Some v ∧
     ∀ l' blk', Ws !! l' = Some blk' → rc ∈ blk'.*1 → l' ≤ l)
  ∨ ((∀ blk, blk ∈ Ws → rc ∉ blk.*1) ∧
     get2 (write_cells im (concat Ws)) rc = get2 im rc).
Proof.
  intros Hsome. induction Ws as [|blk Ws IH] using rev_ind.
  - right. split; [|done]. intros blk Hblk. by apply elem_of_nil in Hblk.
  - rewrite concat_app, write_cells_app. simpl. rewrite app_nil_r.
    destruct (decide (rc ∈ blk.*1)) as [Hin|Hnotin].
    + left.
      destruct (get2_write_cells_in (write_cells im (concat Ws)) blk rc)
        as (v & Hv & Hget); [done|by apply get2_write_cells_is_Some|].
      exists (length Ws), blk, v. split_and!; [|done|done|].
      * by rewrite lookup_app_r, Nat.sub_diag.
      * intros l' blk' Hl' _. apply lookup_lt_Some in Hl'.
        rewrite length_app in Hl'. simpl in Hl'. lia.
    + rewrite get2_write_cells_notin by done.
      destruct IH as [(l & blk0 & v & Hl & Hv & Hget & Hmax)|[Hno Hget]].
      * left. exists l, blk0, v. split_and!; [|done|done|].
        { rewrite lookup_app_l; [done|]. by eapply lookup_lt_Some. }
        intros l' blk' Hl' Hin'.
        destruct (decide (l' < length Ws)) as [Hlt|Hge].
        { rewrite lookup_app_l in Hl' by done. by eapply Hmax. }
        rewrite lookup_app_r in Hl' by lia.
        apply list_lookup_singleton_Some in Hl' as [_ <-]. done.
      * right. split; [|done]. intros blk' Hblk'.
        apply elem_of_app in Hblk' as [Hblk'|Hblk'].
        { by apply Hno. }
        apply list_elem_of_singleton in Hblk'. by subst.
Qed.

End Canvas.

End CanvasFacts.

(** ** Nested lists as rectangular arrays *)

Module ShapeFacts.
Import Numpy PsanaInterface PanelSpec ResultFacts.

Lemma elem_of_concat {A} (x : A) (ls : list (list A)) :
  x ∈ concat ls ↔ ∃ l, x ∈ l ∧ l ∈ ls.
Proof.
  induction ls as [|l ls IH]; simpl.
  - split; [by intros ?%elem_of_nil|]. by intros (l & _ & ?%elem_of_nil).
  - rewrite elem_of_app, IH. split.
    + intros [Hx|(l' & Hx & Hl')].
      * exists l. split; [done|by left].
      * exists l'. split; [done|by right].
    + intros (l' & Hx & Hl'). apply elem_of_cons in Hl' as [->|Hl'].
      * by left.
      * right. by exists l'.
Qed.

Lemma zip_concat {A B} (a : list (list A)) (b : list (list B)) :
  Forall2 (λ r1 r2, length r1 = length r2) a b →
  zip (concat a) (concat b) = concat (zip_with zip a b).
Proof.
  induction 1 as [|r1 r2 a b Hlen _ IH]; [done|].
  simpl. by rewrite zip_with_app, IH.
Qed.

(** Membership in two flattened arrays of one shape, zipped: the same
    position of both. *)
Lemma elem_of_zip_concat {A B} (a : list (list A)) (b : list (list B)) x y :
  Forall2 (λ r1 r2, length r1 = length r2) a b →
  (x, y) ∈ zip (concat a) (concat b) ↔
  ∃ i j ra rb, a !! i = Some ra ∧ b !! i = Some rb ∧
               ra !! j = Some x ∧ rb !! j = Some y.
Proof.
  intros Hshape. rewrite zip_concat by done. rewrite elem_of_concat.
  split.
  - intros (row & Hxy & Hrow).
    apply elem_of_lookup_zip_with in Hrow as (i & ra & rb & -> & Ha & Hb).
    apply list_elem_of_lookup in Hxy as [j Hj].
    apply lookup_zip_Some in Hj as [Hx Hy]. by exists i, j, ra, rb.
  - intros (i & j & ra & rb & Ha & Hb & Hx & Hy).
    exists (zip ra rb). split.
    + apply list_elem_of_lookup. exists j. by apply lookup_zip_Some.
    + apply elem_of_lookup_zip_with. by exists i, ra, rb.
Qed.

Lemma elem_of_concat_lookup {A} (a : list (list A)) x :
  x ∈ concat a ↔ ∃ i j ra, a !! i = Some ra ∧ ra !! j = Some x.
Proof.
  rewrite elem_of_concat. split.
  - intros (ra & Hx & Hra).
    apply list_elem_of_lookup in Hx as [j Hj].
    apply list_elem_of_lookup in Hra as [i Hi]. by exists i, j, ra.
  - intros (i & j & ra & Hi & Hj). exists ra.
    split; apply list_elem_of_lookup; eauto.
Qed.

(** Distinct positions of a duplicate-free flattened array hold distinct
    elements. *)
Lemma NoDup_concat_lookup {A} (a : list (list A)) i i' j j' ra ra' x :
  NoDup (concat a) →
  a !! i = Some ra → ra !! j = Some x →
  a !! i' = Some ra' → ra' !! j' = Some x →
  i = i' ∧ j = j'.
Proof.
  revert i i'. induction a as [|r a IH]; intros i i' Hnd Hi Hj Hi' Hj'.
  - done.
  - simpl in Hnd. apply NoDup_app in Hnd as (Hr & Hdisj & Ha).
    assert (∀ k rk jk, a !! k = Some rk → rk !! jk = Some x → x ∈ concat a)
      as Hin.
    { intros k rk jk Hk Hjk. apply elem_of_concat_lookup. eauto. }
    destruct i as [|i], i' as [|i']; simpl in *.
    + assert (ra = r) as -> by congruence.
      assert (ra' = r) as -> by congruence.
      split; [done|]. by apply (NoDup_lookup r j j' x).
    + assert (ra = r) as -> by congruence.
      exfalso. apply (Hdisj x).
      * by apply (list_elem_of_lookup_2 r j).
      * by apply (Hin i' ra' j').
    + assert (ra' = r) as -> by congruence.
      exfalso. apply (Hdisj x).
      * by apply (list_elem_of_lookup_2 r j').
      * by apply (Hin i ra j).
    + destruct (IH i i' Ha Hi Hj Hi' Hj') as [-> ->]. done.
Qed.

Lemma NoDup_concat_inv {A} (a : list (list A)) :
  NoDup (concat a) → Forall NoDup a.
Proof.
  induction a as [|r a IH]; simpl; intros H; [done|].
  apply NoDup_app in H as (Hr & _ & Ha). constructor; auto.
Qed.

Lemma concat_concat {A} (a : list (list (list A))) :
  concat (concat a) = concat (@concat A <$> a).
Proof.
  induction a as [|pn a IH]; [done|].
  simpl. by rewrite concat_app, IH.
Qed.

(** The same for a 3-dimensional array flattened twice. *)
Lemma NoDup_at3_inj {A} (a : list (list (list A))) p f s p' f' s' x :
  NoDup (concat (concat a)) →
  at3 a p f s = Some x → at3 a p' f' s' = Some x →
  p = p' ∧ f = f' ∧ s = s'.
Proof.
  unfold at3. rewrite concat_concat. intros Hnd H H'.
  destruct (a !! p) as [pn|] eqn:Hp; [|done].
  destruct (a !! p') as [pn'|] eqn:Hp'; [|done]. simpl in *.
  destruct (pn !! f) as [row|] eqn:Hf; [|done].
  destruct (pn' !! f') as [row'|] eqn:Hf'; [|done]. simpl in *.
  assert (x ∈ concat pn) as Hx by (apply elem_of_concat_lookup; eauto).
  assert (x ∈ concat pn') as Hx' by (apply elem_of_concat_lookup; eauto).
  apply list_elem_of_lookup in Hx as [k Hk].
  apply list_elem_of_lookup in Hx' as [k' Hk'].
  destruct (NoDup_concat_lookup (@concat A <$> a) p p' k k'
              (concat pn) (concat pn') x) as [Hpp _]; try done.
  { by rewrite list_lookup_fmap, Hp. }
  { by rewrite list_lookup_fmap, Hp'. }
  subst p'. assert (pn' = pn) as -> by congruence.
  apply NoDup_concat_inv in Hnd.
  assert (NoDup (concat pn)) as Hpn.
  { eapply (Forall_lookup_1 _ _ p _ Hnd). by rewrite list_lookup_fmap, Hp. }
  destruct (NoDup_concat_lookup pn f f' s s' row row' x) as [Hff Hss]; done.
Qed.

End ShapeFacts.

(** ** The panel loop of [assemble_image_stack_batch] *)

Module AssembleFacts.
Import Numpy PsanaInterface PanelSpec ResultFacts CanvasFacts ShapeFacts.

Section Assemble.
Context {V : Type} (zero : V).
Context {E : Type} (cast : E → V).

Lemma shaped_lookup {A} p f s (x : list (list (list A))) l pn :
  shaped p f s x → x !! l = Some pn →
  length pn = f ∧ Forall (λ row, length row = s) pn.
Proof. intros [_ H] Hl. by apply (Forall_lookup_1 _ _ _ _ H Hl). Qed.

Lemma shaped_same_rows {A B} p f s (x : list (list (list A)))
    (y : list (list (list B))) l pa pb :
  shaped p f s x → shaped p f s y → x !! l = Some pa → y !! l = Some pb →
  Forall2 (λ r1 r2, length r1 = length r2) pa pb.
Proof.
  intros Hx Hy Ha Hb.
  destruct (shaped_lookup _ _ _ _ _ _ Hx Ha) as [Hfa Hsa].
  destruct (shaped_lookup _ _ _ _ _ _ Hy Hb) as [Hfb Hsb].
  apply Forall2_same_length_lookup. split; [congruence|].
  intros i ra rb Hra Hrb.
  rewrite (Forall_lookup_1 _ _ _ _ Hsa Hra).
  by rewrite (Forall_lookup_1 _ _ _ _ Hsb Hrb).
Qed.

Lemma resolve_panel_shape h w idx cells :
  resolve_panel h w idx = Ok cells →
  Forall2 (λ r1 r2, length r1 = length r2) idx cells.
Proof.
  intros H. apply mapM_Ok in H.
  eapply Forall2_impl; [exact H|]. intros r1 r2 Hr. simpl in Hr.
  apply mapM_Ok in Hr. by eapply Forall2_length.
Qed.

(** Resolving the coordinates keeps the shape of the map. *)
Lemma resolve_map_shaped h w (M : index_map) cells p f s :
  mapM (resolve_panel h w) M = Ok cells → shaped p f s M → shaped p f s cells.
Proof.
  intros H [Hp HM]. apply mapM_Ok in H. split.
  - by rewrite <- (Forall2_length _ _ _ H).
  - apply Forall_lookup. intros l cn Hcn.
    destruct (Forall2_lookup_r _ _ _ _ _ H Hcn) as (idx & Hidx & Hres).
    pose proof (Forall_lookup_1 _ _ _ _ HM Hidx) as [Hf Hs].
    apply resolve_panel_shape in Hres.
    split; [by rewrite <- (Forall2_length _ _ _ Hres)|].
    apply Forall_lookup. intros i row Hrow.
    destruct (Forall2_lookup_r _ _ _ _ _ Hres Hrow) as (r & Hr & Hlen).
    rewrite <- Hlen. by apply (Forall_lookup_1 _ _ _ _ Hs Hr).
Qed.

Lemma broadcast_to_same {A} n (xs : list A) :
  length xs = n → broadcast_to n xs = Ok xs.
Proof. intros H. unfold broadcast_to. by rewrite decide_True. Qed.

(** A value of the shape of the index arrays is broadcast to itself. *)
Lemma broadcast_panel_same {A} cells (v : list (list A)) :
  Forall2 (λ r1 r2, length r1 = length r2) cells v →
  broadcast_panel cells v = Ok v.
Proof.
  intros H. unfold broadcast_panel.
  rewrite broadcast_to_same by (symmetry; by eapply Forall2_length). simpl.
  rewrite <- (snd_zip cells v) at 2
    by (by rewrite (Forall2_length _ _ _ H)).
  apply mapM_Ok_fmap. intros [crow vrow] Hin. simpl.
  apply list_elem_of_lookup in Hin as [i Hi].
  apply lookup_zip_Some in Hi as [Hc Hv].
  apply broadcast_to_same.
  symmetry. by eapply (Forall2_lookup_lr _ _ _ _ _ _ H).
Qed.

Lemma setitem_fancy_Ok h w (ims : list (list (list V))) idx cells
    (vals : list (list (list E))) :
  resolve_panel h w idx = Ok cells →
  Forall (Forall2 (λ r1 r2, length r1 = length r2) cells) vals →
  setitem_fancy cast h w ims idx vals =
  Ok (zip_with
        (λ im v, write_cells im (zip (concat cells) (cast <$> concat v)))
        ims vals).
Proof.
  intros Hres Hvals. unfold setitem_fancy. rewrite Hres. simpl.
  rewrite (mapM_Ok_id (broadcast_panel cells) vals); [done|].
  intros v Hv. apply broadcast_panel_same.
  by apply (proj1 (Forall_forall _ _) Hvals).
Qed.

Lemma concat_fmap_rows {A B} (g : A → B) (a : list (list A)) :
  concat ((λ r : list A, g <$> r) <$> a) = g <$> concat a.
Proof.
  induction a as [|r a IH]; [done|].
  cbn [fmap list_fmap concat]. rewrite fmap_app. f_equal. exact IH.
Qed.

Lemma cast_stack_lookup (x : list (list (list E))) l :
  concat (default [] (cast_stack cast x !! l))
  = cast <$> concat (default [] (x !! l)).
Proof.
  unfold cast_stack. rewrite list_lookup_fmap.
  destruct (x !! l) as [pn|]; [|done]. simpl. apply concat_fmap_rows.
Qed.

Lemma shaped_cast_stack p f s (x : list (list (list E))) :
  shaped p f s x → shaped p f s (cast_stack cast x).
Proof.
  intros [Hp Hall]. split; [unfold cast_stack; by rewrite length_fmap|].
  unfold cast_stack. apply Forall_fmap. eapply Forall_impl; [exact Hall|].
  intros pn [Hf Hrows]. simpl. split; [by rewrite length_fmap|].
  apply Forall_fmap. eapply Forall_impl; [exact Hrows|].
  intros row Hrow. simpl. by rewrite length_fmap.
Qed.

Lemma fmap_const_replicate {A B} (c : B) (l : list A) :
  (λ _, c) <$> l = replicate (length l) c.
Proof. induction l as [|x l IH]; [done|]. simpl. f_equal. exact IH. Qed.

Lemma zip_with_fmap_same {A B C D} (f : B → C → D) (g : A → B) (k : A → C)
    (l : list A) :
  zip_with f (g <$> l) (k <$> l) = (λ x, f (g x) (k x)) <$> l.
Proof. induction l as [|x l IH]; [done|]. simpl. f_equal. exact IH. Qed.

Lemma blocks_S (cells : list (list (list (nat * nat))))
    (x : list (list (list V))) n :
  blocks cells x (S n) =
  blocks cells x n ++
  [zip (concat (default [] (cells !! n))) (concat (default [] (x !! n)))].
Proof. unfold blocks. by rewrite seq_S, fmap_app. Qed.

(** After [n] rounds of the panel loop every image holds the stores of the
    first [n] panels, applied to the zero canvas in order. *)
Lemma panel_loop_Ok h w (M : index_map) cells (xs : list (list (list (list E))))
    p f s n :
  mapM (resolve_panel h w) M = Ok cells →
  shaped p f s M → Forall (shaped p f s) xs → n ≤ p →
  foldlM (λ images l,
      idx ← getitem M l;
      setitem_fancy cast h w images idx ((λ x, default [] (x !! l)) <$> xs))
    (replicate (length xs) (np_zeros2 zero h w)) (seq 0 n) =
  Ok ((λ x, write_cells (np_zeros2 zero h w)
              (concat (blocks cells (cast_stack cast x) n)))
        <$> xs).
Proof.
  intros Hres HM Hxs. induction n as [|n IH]; intros Hn.
  - simpl. by rewrite fmap_const_replicate.
  - rewrite seq_S, foldlM_snoc, IH by lia. cbn [mbind result_bind plus].
    pose proof (resolve_map_shaped _ _ _ _ _ _ _ Hres HM) as Hcells.
    destruct (lookup_lt_is_Some_2 M n) as [idx Hidx].
    { destruct HM as [-> _]. lia. }
    unfold getitem. rewrite Hidx. cbn [mbind result_bind].
    pose proof (proj1 (mapM_Ok _ _ _) Hres) as HF2.
    destruct (Forall2_lookup_l _ _ _ _ _ HF2 Hidx) as (cn & Hcn & Hrn).
    rewrite (setitem_fancy_Ok _ _ _ _ cn) ; [|done|].
    + rewrite zip_with_fmap_same. f_equal. apply list_fmap_ext.
      intros i x Hx. rewrite blocks_S, concat_app, write_cells_app.
      simpl. by rewrite app_nil_r, Hcn, cast_stack_lookup.
    + apply Forall_fmap, Forall_forall. intros x Hx. simpl.
      pose proof (proj1 (Forall_forall _ _) Hxs x Hx) as Hshape.
      destruct (lookup_lt_is_Some_2 x n) as [pn Hpn].
      { destruct Hshape as [-> _]. lia. }
      rewrite Hpn. simpl. by eapply shaped_same_rows.
Qed.

Lemma at3_cast_stack (x : list (list (list E))) l i j :
  at3 (cast_stack cast x) l i j = cast <$> at3 x l i j.
Proof.
  unfold at3, cast_stack. rewrite list_lookup_fmap.
  destruct (x !! l) as [pn|]; [|done]. simpl. rewrite list_lookup_fmap.
  destruct (pn !! i) as [row|]; [|done]. simpl. by rewrite list_lookup_fmap.
Qed.

Lemma at3_Some {A} (x : list (list (list A))) l f s v :
  at3 x l f s = Some v ↔
  ∃ pn row, x !! l = Some pn ∧ pn !! f = Some row ∧ row !! s = Some v.
Proof.
  unfold at3. split.
  - intros H. destruct (x !! l) as [pn|]; [|done]. simpl in H.
    destruct (pn !! f) as [row|] eqn:Hrow; [|done]. simpl in H.
    by exists pn, row.
  - intros (pn & row & -> & Hrow & Hv). simpl. by rewrite Hrow.
Qed.

(** Two arrays of one shape are defined at the same positions. *)
Lemma at3_shaped_is_Some {A B} p f s (x : list (list (list A)))
    (y : list (list (list B))) l i j v :
  shaped p f s x → shaped p f s y → at3 x l i j = Some v →
  is_Some (at3 y l i j).
Proof.
  intros Hx Hy (pn & row & Hl & Hi & Hj)%at3_Some.
  destruct (shaped_lookup _ _ _ _ _ _ Hx Hl) as [Hf Hs].
  destruct (lookup_lt_is_Some_2 y l) as [pn' Hl'].
  { destruct Hy as [-> _], Hx as [<- _]. by eapply lookup_lt_Some. }
  destruct (shaped_lookup _ _ _ _ _ _ Hy Hl') as [Hf' Hs'].
  destruct (lookup_lt_is_Some_2 pn' i) as [row' Hi'].
  { rewrite Hf', <- Hf. by eapply lookup_lt_Some. }
  destruct (lookup_lt_is_Some_2 row' j) as [v' Hj'].
  { rewrite (Forall_lookup_1 _ _ _ _ Hs' Hi').
    rewrite <- (Forall_lookup_1 _ _ _ _ Hs Hi). by eapply lookup_lt_Some. }
  exists v'. apply at3_Some. by exists pn', row'.
Qed.

Lemma at3_lt {A} p f s (x : list (list (list A))) l i j v :
  shaped p f s x → at3 x l i j = Some v → l < p ∧ i < f ∧ j < s.
Proof.
  intros Hx (pn & row & Hl & Hi & Hj)%at3_Some.
  destruct (shaped_lookup _ _ _ _ _ _ Hx Hl) as [Hf Hs].
  destruct Hx as [<- _]. split_and!.
  - by eapply lookup_lt_Some.
  - rewrite <- Hf. by eapply lookup_lt_Some.
  - rewrite <- (Forall_lookup_1 _ _ _ _ Hs Hi). by eapply lookup_lt_Some.
Qed.

Lemma blocks_lookup (cells : list (list (list (nat * nat))))
    (x : list (list (list V))) n l blk :
  blocks cells x n !! l = Some blk ↔
  l < n ∧
  blk = zip (concat (default [] (cells !! l))) (concat (default [] (x !! l))).
Proof.
  unfold blocks. rewrite list_lookup_fmap. split.
  - intros H. apply fmap_Some in H as (l' & Hl' & ->).
    apply lookup_seq in Hl' as [-> Hlt]. done.
  - intros [Hlt ->]. by rewrite lookup_seq_lt.
Qed.

(** The stores of panel [l] pair the cell and the value of one source
    location of that panel. *)
Lemma elem_of_block p f s (cells : list (list (list (nat * nat))))
    (x : list (list (list V))) l rc v :
  shaped p f s cells → shaped p f s x → l < p →
  (rc, v) ∈ zip (concat (default [] (cells !! l)))
               (concat (default [] (x !! l))) ↔
  ∃ i j, at3 cells l i j = Some rc ∧ at3 x l i j = Some v.
Proof.
  intros Hc Hx Hl.
  destruct (lookup_lt_is_Some_2 cells l) as [cn Hcn].
  { destruct Hc as [-> _]. done. }
  destruct (lookup_lt_is_Some_2 x l) as [pn Hpn].
  { destruct Hx as [-> _]. done. }
  rewrite Hcn, Hpn. simpl.
  rewrite elem_of_zip_concat by (by eapply shaped_same_rows).
  split.
  - intros (i & j & ra & rb & Ha & Hb & Hrc & Hv).
    exists i, j. split; apply at3_Some; eauto.
  - intros (i & j & (cn' & ra & Hcn' & Ha & Hrc)%at3_Some
                   & (pn' & rb & Hpn' & Hb & Hv)%at3_Some).
    assert (cn' = cn) as -> by congruence.
    assert (pn' = pn) as -> by congruence.
    by exists i, j, ra, rb.
Qed.

Lemma elem_of_block_fst p f s (cells : list (list (list (nat * nat))))
    (x : list (list (list V))) l i j rc :
  shaped p f s cells → shaped p f s x → at3 cells l i j = Some rc →
  rc ∈ (zip (concat (default [] (cells !! l)))
            (concat (default [] (x !! l)))).*1.
Proof.
  intros Hc Hx Hrc.
  destruct (at3_shaped_is_Some _ _ _ _ x _ _ _ _ Hc Hx Hrc) as [v Hv].
  destruct (at3_lt _ _ _ _ _ _ _ _ Hc Hrc) as (Hl & _ & _).
  apply list_elem_of_fmap. exists (rc, v). split; [done|].
  apply (elem_of_block p f s); eauto.
Qed.

(** What one canvas holds after the whole panel loop: a cell some source
    location designates holds the value of such a location in the panel of
    largest index among them; any other cell is zero. *)
Lemma canvas_cell h w p f s (cells : list (list (list (nat * nat))))
    (x : list (list (list V))) r c :
  shaped p f s cells → shaped p f s x → r < h → c < w →
  let im := write_cells (np_zeros2 zero h w) (concat (blocks cells x p)) in
  (∃ l i j v, at3 cells l i j = Some (r, c) ∧ at3 x l i j = Some v ∧
     get2 im (r, c) = Some v ∧
     ∀ l' i' j', at3 cells l' i' j' = Some (r, c) → l' ≤ l)
  ∨ ((∀ l i j, at3 cells l i j ≠ Some (r, c)) ∧ get2 im (r, c) = Some zero).
Proof.
  intros Hc Hx Hr Hw im. subst im.
  destruct (get2_write_blocks (np_zeros2 zero h w) (blocks cells x p) (r, c))
    as [(l & blk & v & Hl & Hv & Hget & Hmax)|[Hno Hget]].
  { rewrite get2_zeros by done. by eexists. }
  - left. apply blocks_lookup in Hl as [Hlt ->].
    apply (elem_of_block p f s) in Hv as (i & j & Hrc & Hxv); try done.
    exists l, i, j, v. split_and!; try done.
    intros l' i' j' Hrc'.
    destruct (at3_lt _ _ _ _ _ _ _ _ Hc Hrc') as (Hl' & _ & _).
    apply (Hmax l' _ (proj2 (blocks_lookup cells x p l' _) (conj Hl' eq_refl))).
    by eapply elem_of_block_fst.
  - right. split; [|by rewrite Hget, get2_zeros].
    intros l i j Hrc.
    destruct (at3_lt _ _ _ _ _ _ _ _ Hc Hrc) as (Hl & _ & _).
    apply (Hno (zip (concat (default [] (cells !! l)))
                    (concat (default [] (x !! l))))).
    + apply list_elem_of_lookup. exists l. by apply blocks_lookup.
    + by eapply elem_of_block_fst.
Qed.

Lemma targets_inv (M : index_map) cells :
  targets M = Ok cells →
  ∃ h w, canvas_shape M = Ok (h, w) ∧ mapM (resolve_panel h w) M = Ok cells.
Proof.
  unfold targets. intros ([h w] & Hcs & Hres)%bind_Ok. by exists h, w.
Qed.

Lemma canvas_shape_inv (M : index_map) h w :
  canvas_shape M = Ok (h, w) →
  ∃ mx my, np_max (coords fst M) = Ok mx ∧ np_max (coords snd M) = Ok my ∧
           dim (mx + 1) = Ok h ∧ dim (my + 1) = Ok w.
Proof.
  unfold canvas_shape.
  intros (mx & Hmx & (my & Hmy & (h' & Hh & (w' & Hw & Heq)%bind_Ok)%bind_Ok)
            %bind_Ok)%bind_Ok.
  injection Heq as -> ->. by exists mx, my.
Qed.

Lemma images_list_pack (ims : list (list (list V))) :
  images_list (pack_images ims) = ims.
Proof. by destruct ims as [|im [|im' ims]]. Qed.

Lemma pack_stack_list (X : @image_stack V) : pack_stack (stack_list X) = squeeze X.
Proof. destruct X as [x|[|x [|x' xs]]]; done. Qed.

End Assemble.

Section AssembleFloat.
Context {E : Type} (cast : E → float).

(** The result of [assemble_image_stack_batch] on inputs of matching
    geometry whose coordinates all resolve. *)
Lemma assemble_Ok (X : @image_stack E) (M : index_map) cells p f s h w :
  canvas_shape M = Ok (h, w) →
  mapM (resolve_panel h w) M = Ok cells →
  shaped p f s M → Forall (shaped p f s) (stack_list X) →
  assemble_image_stack_batch cast X M =
  Ok (pack_images
        ((λ x, write_cells (np_zeros2 0%float h w)
                 (concat (blocks cells (cast_stack cast x) p)))
           <$> stack_list X)).
Proof.
  intros (mx & my & Hmx & Hmy & Hh & Hw)%canvas_shape_inv Hres HM HX.
  unfold assemble_image_stack_batch.
  rewrite Hmx. cbn [mbind result_bind]. rewrite Hmy. cbn [mbind result_bind].
  rewrite Hh. cbn [mbind result_bind]. rewrite Hw. cbn [mbind result_bind].
  change (match X with Stack3 x => [x] | Stack4 xs => xs end)
    with (stack_list X).
  destruct (stack_list X) as [|x xs] eqn:HXl.
  - done.
  - assert (shape1 (x :: xs) = p) as ->.
    { apply Forall_cons in HX as [[Hp _] _]. done. }
    rewrite (panel_loop_Ok 0%float cast h w M cells (x :: xs) p f s p)
      by done.
    done.
Qed.

End AssembleFloat.

End AssembleFacts.

(** ** The gather loop of [disassemble_image_stack_batch] *)

Module DisassembleFacts.
Import Numpy PsanaInterface PanelSpec ResultFacts CanvasFacts ShapeFacts.
Import AssembleFacts.

Section Disassemble.
Context {V : Type} (zero : V).
Context {E : Type} (cast : E → V).

Lemma norm_index_lt n z k : norm_index n z = Ok k → k < n.
Proof.
  unfold norm_index. intros H.
  destruct ((0 <=? z) && (z <? Z.of_nat n))%Z eqn:H1.
  - injection H as <-. apply andb_true_iff in H1 as [?%Z.leb_le ?%Z.ltb_lt].
    lia.
  - destruct ((- Z.of_nat n <=? z) && (z <? 0))%Z eqn:H2; [|done].
    injection H as <-. apply andb_true_iff in H2 as [?%Z.leb_le ?%Z.ltb_lt].
    lia.
Qed.

Lemma resolve_cell_lt h w zrc r c :
  resolve_cell h w zrc = Ok (r, c) → r < h ∧ c < w.
Proof.
  unfold resolve_cell.
  intros (r' & Hr & (c' & Hc & Heq)%bind_Ok)%bind_Ok.
  injection Heq as -> ->. split; by eapply norm_index_lt.
Qed.

(** A source location of the map and its resolved cell. *)
Lemma resolved_at3 h w (M : index_map) cells l i j zrc :
  mapM (resolve_panel h w) M = Ok cells → at3 M l i j = Some zrc →
  ∃ rc, at3 cells l i j = Some rc ∧ resolve_cell h w zrc = Ok rc.
Proof.
  intros HM%mapM_Ok (idx & row & Hl & Hi & Hj)%at3_Some.
  destruct (Forall2_lookup_l _ _ _ _ _ HM Hl) as (cn & Hcn & Hidx%mapM_Ok).
  destruct (Forall2_lookup_l _ _ _ _ _ Hidx Hi) as (cr & Hcr & Hrow%mapM_Ok).
  destruct (Forall2_lookup_l _ _ _ _ _ Hrow Hj) as (rc & Hrc & Hres).
  exists rc. split; [|done]. apply at3_Some. by exists cn, cr.
Qed.

(** A load through numpy indexing from an image of known shape. *)
Lemma load_cell_Ok h w (im : list (list V)) zrc rc v :
  image_shape h w im → resolve_cell h w zrc = Ok rc → get2 im rc = Some v →
  load_cell im zrc = Ok v.
Proof.
  intros [Hh Hw] Hres Hget. unfold load_cell.
  assert (image_width im = w) as ->.
  { destruct im as [|row im]; [by destruct rc|].
    simpl. by apply Forall_cons in Hw as [? _]. }
  rewrite Hh, Hres. simpl. by rewrite Hget.
Qed.

(** Reading the assembled canvas at the coordinates of a source location
    that shares its cell with no other gives back the value stored from
    that location. *)
Lemma canvas_load h w p f s (M : index_map) cells (x : list (list (list V)))
    l i j zrc v :
  mapM (resolve_panel h w) M = Ok cells →
  shaped p f s M → shaped p f s x →
  at3 M l i j = Some zrc → at3 x l i j = Some v →
  (∀ rc l' i' j', at3 cells l i j = Some rc → at3 cells l' i' j' = Some rc →
                  l' = l ∧ i' = i ∧ j' = j) →
  load_cell (write_cells (np_zeros2 zero h w) (concat (blocks cells x p))) zrc
  = Ok v.
Proof.
  intros Hres HM Hx Hzrc Hv Huniq.
  destruct (resolved_at3 _ _ _ _ _ _ _ _ Hres Hzrc) as ([r c] & Hrc & Hcell).
  destruct (resolve_cell_lt _ _ _ _ _ Hcell) as [Hr Hc].
  pose proof (resolve_map_shaped _ _ _ _ _ _ _ Hres HM) as Hcells.
  apply (load_cell_Ok h w _ _ (r, c)); [|done|].
  { apply image_shape_write_cells, image_shape_zeros. }
  destruct (canvas_cell zero h w p f s cells x r c Hcells Hx Hr Hc)
    as [(l0 & i0 & j0 & v0 & Hrc0 & Hv0 & Hget & _)|[Hno _]].
  - destruct (Huniq _ _ _ _ Hrc Hrc0) as (-> & -> & ->).
    rewrite Hget. congruence.
  - by destruct (Hno l i j).
Qed.

Lemma getitem_fancy_Ok (im : list (list V)) (idx : index_panel)
    (pn : list (list V)) :
  Forall2 (Forall2 (λ zrc v, load_cell im zrc = Ok v)) idx pn →
  getitem_fancy im idx = Ok pn.
Proof.
  intros H. apply mapM_Ok. eapply Forall2_impl; [exact H|].
  intros ridx row Hrow. by apply mapM_Ok.
Qed.

(** After [n] rounds of the gather loop the first [n] panels of every stack
    hold the gathered values, converted, and the rest is still the zero
    holder. *)
Lemma gather_loop_Ok (M : index_map) (ims : list (list (list E)))
    (xs : list (list (list (list E)))) (zp : list (list V)) p n :
  length M = p → length ims = length xs →
  (∀ b im x, ims !! b = Some im → xs !! b = Some x →
     Forall2 (λ idx pn, getitem_fancy im idx = Ok pn) M x) →
  n ≤ p →
  foldlM (λ batch panel,
      idx ← getitem M panel;
      vals ← mapM (λ im, getitem_fancy im idx) ims;
      mret (zip_with
              (λ (x : list (list (list V))) (v : list (list E)),
                 <[panel := (λ row : list E, cast <$> row) <$> v]> x)
              batch vals))
    (replicate (length ims) (replicate p zp)) (seq 0 n) =
  Ok ((λ x, take n (cast_stack cast x) ++ replicate (p - n) zp) <$> xs).
Proof.
  intros HM Hlen Hgather. induction n as [|n IH]; intros Hn.
  - simpl. rewrite Nat.sub_0_r, Hlen. by rewrite fmap_const_replicate.
  - rewrite seq_S, foldlM_snoc, IH by lia. cbn [mbind result_bind plus].
    destruct (lookup_lt_is_Some_2 M n) as [idx Hidx]; [lia|].
    unfold getitem. rewrite Hidx. cbn [mbind result_bind].
    assert (∀ b x, xs !! b = Some x → length x = p ∧ is_Some (x !! n)) as Hx.
    { intros b x Hb.
      destruct (lookup_lt_is_Some_2 ims b) as [im Him].
      { rewrite Hlen. by eapply lookup_lt_Some. }
      pose proof (Forall2_length _ _ _ (Hgather b im x Him Hb)) as Hl.
      split; [lia|]. apply lookup_lt_is_Some_2. lia. }
    rewrite (proj2 (mapM_Ok _ ims ((λ x, default [] (x !! n)) <$> xs))).
    + cbn [mbind result_bind mret result_ret].
      rewrite zip_with_fmap_same. f_equal. apply list_fmap_ext.
      intros b x Hb. destruct (Hx b x Hb) as [Hxl [pn Hpn]].
      rewrite Hpn. simpl.
      assert (length (cast_stack cast x) = p) as Hcl.
      { unfold cast_stack. by rewrite length_fmap. }
      rewrite insert_app_r_alt by (rewrite length_take; lia).
      rewrite length_take, Nat.min_l, Nat.sub_diag by lia.
      rewrite (take_S_r (cast_stack cast x) n
                 ((λ row : list E, cast <$> row) <$> pn)).
      2:{ unfold cast_stack. by rewrite list_lookup_fmap, Hpn. }
      replace (p - n) with (S (p - S n)) by lia. simpl.
      by rewrite <- app_assoc.
    + apply Forall2_fmap_r, Forall2_same_length_lookup_2; [done|].
      intros b im x Him Hb. destruct (Hx b x Hb) as [_ [pn Hpn]].
      simpl. rewrite Hpn. simpl.
      destruct (Forall2_lookup_lr _ _ _ _ _ _ (Hgather b im x Him Hb) Hidx Hpn).
      done.
Qed.

Lemma shape3_length (M : index_map) : (shape3 M).1.1 = length M.
Proof. by destruct M. Qed.

Lemma cast_stack_id (x : list (list (list V))) : cast_stack id x = x.
Proof.
  unfold cast_stack. rewrite <- (list_fmap_id x) at 2.
  apply list_fmap_ext. intros _ pn _. simpl.
  rewrite <- (list_fmap_id pn) at 2. apply list_fmap_ext.
  intros _ row _. simpl. apply list_fmap_id.
Qed.

End Disassemble.

Section DisassembleFloat.
Context {E : Type} (cast : E → float).

(** The result of [disassemble_image_stack_batch] when every gather
    succeeds. *)
Lemma disassemble_Ok (out : @images E) (M : index_map)
    (xs : list (list (list (list E)))) :
  length (images_list out) = length xs →
  (∀ b im x, images_list out !! b = Some im → xs !! b = Some x →
     Forall2 (λ idx pn, getitem_fancy im idx = Ok pn) M x) →
  disassemble_image_stack_batch cast out M
  = Ok (pack_stack (cast_stack cast <$> xs)).
Proof.
  intros Hlen Hgather. unfold disassemble_image_stack_batch.
  change (match out with Image2 im => [im] | Image3 ims => ims end)
    with (images_list out).
  pose proof (shape3_length M) as Hp.
  destruct (shape3 M) as [[n_panels fs] ss]. simpl in Hp. subst n_panels.
  rewrite (gather_loop_Ok cast M (images_list out) xs _ (length M) (length M))
    by done.
  cbn [mbind result_bind mret result_ret].
  assert ((λ x : list (list (list E)),
             take (length M) (cast_stack cast x) ++
             replicate (length M - length M)
               (replicate fs (replicate ss 0%float)))
            <$> xs = cast_stack cast <$> xs) as ->; [|done].
  apply list_fmap_ext.
  intros b x Hb. rewrite Nat.sub_diag. simpl. rewrite app_nil_r.
  apply take_ge.
  destruct (lookup_lt_is_Some_2 (images_list out) b) as [im Him].
  { rewrite Hlen. by eapply lookup_lt_Some. }
  unfold cast_stack. rewrite length_fmap.
  by rewrite (Forall2_length _ _ _ (Hgather b im x Him Hb)).
Qed.

End DisassembleFloat.

End DisassembleFacts.

(** ** Panel mapper: the properties *)

Module PanelMapper.
Import Numpy PsanaInterface PanelSpec ResultFacts CanvasFacts ShapeFacts.
Import AssembleFacts DisassembleFacts Examples.

Section Properties.

(** The element type of the arrays given to the two functions and its
    conversion to float64. *)
Context {E : Type} (cast : E → float).

Lemma stack_list_cast (X : @image_stack E) :
  stack_list (cast_image_stack cast X) = cast_stack cast <$> stack_list X.
Proof. by destruct X. Qed.

(** [assemble] followed by [disassemble] on a map whose source locations
    designate pairwise distinct cells. *)
Lemma roundtrip_resolved (X : @image_stack E) (M : index_map) cells p f s :
  targets M = Ok cells →
  NoDup (concat (concat cells)) →
  shaped p f s M →
  Forall (shaped p f s) (stack_list X) →
  ∃ out, assemble_image_stack_batch cast X M = Ok out ∧
         disassemble_image_stack_batch id out M
         = Ok (squeeze (cast_image_stack cast X)).
Proof.
  intros (h & w & Hcs & Hres)%targets_inv Hnd HM HX.
  eexists. split; [by eapply assemble_Ok|].
  rewrite <- pack_stack_list, stack_list_cast.
  rewrite (disassemble_Ok id _ M (cast_stack cast <$> stack_list X)).
  - do 2 f_equal. rewrite <- list_fmap_compose.
    apply list_fmap_ext. intros b x Hb. simpl. apply cast_stack_id.
  - by rewrite images_list_pack, !length_fmap.
  - intros b im x'. rewrite images_list_pack, !list_lookup_fmap.
    destruct (stack_list X !! b) as [x|] eqn:Hb; [|done]. simpl.
    intros [= <-] [= <-].
    pose proof (proj1 (Forall_forall _ _) HX x
                  (list_elem_of_lookup_2 _ _ _ Hb)) as Hx.
    apply (shaped_cast_stack cast) in Hx.
    apply Forall2_same_length_lookup_2.
    { destruct HM as [-> _], Hx as [-> _]. done. }
    intros l idx pn Hidx Hpn. apply getitem_fancy_Ok.
    pose proof (shaped_same_rows _ _ _ _ _ _ _ _ HM Hx Hidx Hpn) as Hrows.
    apply Forall2_same_length_lookup_2; [by eapply Forall2_length|].
    intros i ridx row Hridx Hrow.
    apply Forall2_same_length_lookup_2.
    { by apply (Forall2_lookup_lr _ _ _ _ _ _ Hrows Hridx Hrow). }
    intros j zrc v Hzrc Hv.
    apply (canvas_load 0%float h w p f s M cells (cast_stack cast x) l i j);
      try done.
    + apply at3_Some. by exists idx, ridx.
    + apply at3_Some. by exists pn, row.
    + intros rc l' i' j' Hrc Hrc'.
      by destruct (NoDup_at3_inj cells l' i' j' l i j rc Hnd Hrc' Hrc)
        as (-> & -> & ->).
Qed.

(** Every gather of [disassemble] succeeds on images of one shape against
    which the coordinates of the map resolve. *)
Lemma gathers_Ok (ims : list (list (list E))) (M : index_map) cells h w :
  Forall (image_shape h w) ims →
  mapM (resolve_panel h w) M = Ok cells →
  ∃ xs, Forall2 (λ im x, Forall2 (λ idx pn, getitem_fancy im idx = Ok pn) M x)
          ims xs.
Proof.
  intros Hims Hres. induction Hims as [|im ims Him _ [xs IH]].
  { exists []. constructor. }
  assert (∃ x, Forall2 (λ idx pn, getitem_fancy im idx = Ok pn) M x)
    as [x Hx]; [|exists (x :: xs); by constructor].
  clear IH. apply mapM_Ok in Hres.
  induction Hres as [|idx cn M cells' Hcn _ [x IH]].
  { exists []. constructor. }
  assert (∃ pn, getitem_fancy im idx = Ok pn) as [pn Hpn];
    [|exists (pn :: x); by constructor].
  clear IH. apply mapM_Ok in Hcn.
  assert (∀ ridx crow, Forall2 (λ zrc rc, resolve_cell h w zrc = Ok rc)
                         ridx crow →
            ∃ row, Forall2 (λ zrc v, load_cell im zrc = Ok v) ridx row)
    as Hrow.
  { intros ridx crow Hr.
    induction Hr as [|zrc [r c] ridx crow Hcell _ [row IH]].
    { exists []. constructor. }
    destruct (resolve_cell_lt _ _ _ _ _ Hcell) as [Hr' Hc'].
    destruct (get2_in_shape h w im r c Him Hr' Hc') as [v Hv].
    exists (v :: row). constructor; [|done]. by eapply load_cell_Ok. }
  assert (∃ pn, Forall2 (Forall2 (λ zrc v, load_cell im zrc = Ok v)) idx pn)
    as [pn Hpn]; [|exists pn; by apply getitem_fancy_Ok].
  induction Hcn as [|ridx crow idx' cn' Hr _ [pn IH]].
  { exists []. constructor. }
  apply mapM_Ok in Hr. destruct (Hrow ridx crow Hr) as [row Hrow'].
  exists (row :: pn). by constructor.
Qed.

Lemma disassemble_total (imgs : @images E) (M : index_map) cells h w :
  Forall (image_shape h w) (images_list imgs) →
  mapM (resolve_panel h w) M = Ok cells →
  ∃ xs, disassemble_image_stack_batch cast imgs M = Ok (pack_stack xs) ∧
        length xs = length (images_list imgs).
Proof.
  intros Hims Hres.
  destruct (gathers_Ok (images_list imgs) M cells h w Hims Hres) as [xs Hxs].
  exists (cast_stack cast <$> xs). split.
  - apply disassemble_Ok; [by eapply Forall2_length|].
    intros b im x Him Hx.
    by apply (Forall2_lookup_lr _ _ _ _ _ _ Hxs Him Hx).
  - rewrite length_fmap. symmetry. by eapply Forall2_length.
Qed.

Lemma stack_ndim_pack {A} (xs : list (list (list (list A)))) :
  stack_ndim (pack_stack xs) = if decide (length xs = 1) then 3 else 4.
Proof. by destruct xs as [|x [|x' xs]]. Qed.

Lemma images_ndim_pack {A} (ims : list (list (list A))) :
  images_ndim (pack_images ims) = if decide (length ims = 1) then 2 else 3.
Proof. by destruct ims as [|x [|x' xs]]. Qed.

(** *** Maps of non-negative coordinates *)

Lemma foldl_max_ge (xs : list Z) (a : Z) :
  (a ≤ foldl Z.max a xs)%Z ∧ ∀ x, x ∈ xs → (x ≤ foldl Z.max a xs)%Z.
Proof.
  revert a. induction xs as [|y xs IH]; intros a; simpl.
  - split; [lia|]. by intros x ?%elem_of_nil.
  - destruct (IH (Z.max a y)) as [Ha Hxs]. split; [lia|].
    intros x [->|Hx]%elem_of_cons; [lia|by apply Hxs].
Qed.

Lemma np_max_ge (xs : list Z) m x : np_max xs = Ok m → x ∈ xs → (x ≤ m)%Z.
Proof.
  destruct xs as [|y xs]; [done|]. simpl. intros [= <-].
  destruct (foldl_max_ge xs y) as [Hy Hxs].
  intros [->|Hx]%elem_of_cons; [done|by apply Hxs].
Qed.

Lemma norm_index_nonneg n z :
  (0 ≤ z < Z.of_nat n)%Z → norm_index n z = Ok (Z.to_nat z).
Proof.
  intros [H0 Hn]. unfold norm_index.
  by rewrite (proj2 (Z.leb_le _ _) H0), (proj2 (Z.ltb_lt _ _) Hn).
Qed.

Lemma np_max_Ok (xs : list Z) : xs ≠ [] → ∃ m, np_max xs = Ok m.
Proof. destruct xs as [|x xs]; [done|]. intros _. by eexists. Qed.

Lemma targets_nonneg (M : index_map) :
  concat (concat M) ≠ [] →
  (∀ zrc, zrc ∈ concat (concat M) → (0 ≤ zrc.1)%Z ∧ (0 ≤ zrc.2)%Z) →
  targets M = Ok (cells_of M).
Proof.
  intros Hne Hpos. unfold targets, canvas_shape, coords.
  destruct (np_max_Ok (fst <$> concat (concat M))) as [mx Hmx].
  { intros Heq. apply fmap_nil_inv in Heq. done. }
  destruct (np_max_Ok (snd <$> concat (concat M))) as [my Hmy].
  { intros Heq. apply fmap_nil_inv in Heq. done. }
  rewrite Hmx, Hmy. cbn [mbind result_bind].
  pose proof (λ x, np_max_ge _ _ x Hmx) as Hmx'.
  pose proof (λ x, np_max_ge _ _ x Hmy) as Hmy'.
  assert (∀ zrc, zrc ∈ concat (concat M) →
            (0 ≤ zrc.1 ≤ mx)%Z ∧ (0 ≤ zrc.2 ≤ my)%Z) as Hbound.
  { intros zrc Hin. destruct (Hpos zrc Hin).
    pose proof (Hmx' _ (list_elem_of_fmap_2 fst _ _ Hin)).
    pose proof (Hmy' _ (list_elem_of_fmap_2 snd _ _ Hin)). lia. }
  assert (0 ≤ mx ∧ 0 ≤ my)%Z as [Hmx0 Hmy0].
  { destruct (concat (concat M)) as [|z0 zs]; [done|].
    destruct (Hbound z0 ltac:(by left)). lia. }
  unfold dim.
  rewrite (proj2 (Z.ltb_ge (mx + 1) 0)) by lia.
  rewrite (proj2 (Z.ltb_ge (my + 1) 0)) by lia.
  cbn [mbind result_bind mret result_ret fst snd].
  unfold cells_of. apply mapM_Ok_fmap. intros idx Hidx.
  apply mapM_Ok_fmap. intros ridx Hridx.
  apply mapM_Ok_fmap. intros zrc Hzrc.
  assert (zrc ∈ concat (concat M)) as Hin.
  { apply elem_of_concat. exists ridx. split; [done|].
    apply elem_of_concat. by exists idx. }
  destruct (Hbound zrc Hin) as [Hr Hc].
  unfold resolve_cell.
  rewrite norm_index_nonneg by lia. cbn [mbind result_bind].
  rewrite norm_index_nonneg by lia. done.
Qed.

Lemma concat_fmap_fmap {A B} (g : A → B) (a : list (list A)) :
  concat ((λ r : list A, g <$> r) <$> a) = g <$> concat a.
Proof.
  induction a as [|r a IH]; [done|].
  simpl. rewrite fmap_app. f_equal. exact IH.
Qed.

Lemma NoDup_cells_nonneg (M : index_map) :
  (∀ zrc, zrc ∈ concat (concat M) → (0 ≤ zrc.1)%Z ∧ (0 ≤ zrc.2)%Z) →
  NoDup (concat (concat M)) →
  NoDup (concat (concat (cells_of M))).
Proof.
  intros Hpos Hnd.
  assert (concat (concat (cells_of M)) = cell_of <$> concat (concat M)) as ->.
  { rewrite <- concat_fmap_fmap. f_equal. unfold cells_of.
    clear Hpos Hnd. induction M as [|pn M IH]; [done|].
    simpl. rewrite fmap_app. f_equal. exact IH. }
  apply NoDup_fmap_2_strong; [|done].
  intros [r1 c1] [r2 c2] H1 H2 [= Hr Hc].
  destruct (Hpos _ H1), (Hpos _ H2). simpl in *.
  f_equal; lia.
Qed.

(** The round trip for a map of non-negative coordinates, no two equal. *)
Lemma roundtrip_nonneg (X : @image_stack E) (M : index_map) p f s :
  concat (concat M) ≠ [] →
  (∀ zrc, zrc ∈ concat (concat M) → (0 ≤ zrc.1)%Z ∧ (0 ≤ zrc.2)%Z) →
  NoDup (concat (concat M)) →
  shaped p f s M →
  Forall (shaped p f s) (stack_list X) →
  ∃ out, assemble_image_stack_batch cast X M = Ok out ∧
         disassemble_image_stack_batch id out M
         = Ok (squeeze (cast_image_stack cast X)).
Proof.
  intros Hne Hpos Hnd HM HX.
  eapply roundtrip_resolved; [by apply targets_nonneg| |done|done].
  by apply NoDup_cells_nonneg.
Qed.

(** C1 (as amended).  For every pixel index map whose source locations
    designate pairwise distinct canvas cells and every panel stack [X] of
    the geometry of the map, [assemble] returns, and [disassemble] of its
    result returns the stack converted to float64, squeezed: the converted
    stack itself when [X] is 3-dimensional or a batch of any size other than
    one, and the single converted stack of a batch [Stack4 [x]] of size
    one, whose batch axis both functions drop.  The canvas of [assemble]
    is a float64 array, so the values come back as float64: unchanged when
    [X] is a float64 array (the conversion is the identity, see the
    witness), rounded when an integer of [X] is not a float64. *)
Theorem roundtrip_up_to_squeeze (X : @image_stack E) (M : index_map)
    cells p f s :
  targets M = Ok cells →
  NoDup (concat (concat cells)) →
  shaped p f s M →
  Forall (shaped p f s) (stack_list X) →
  ∃ out, assemble_image_stack_batch cast X M = Ok out ∧
         disassemble_image_stack_batch id out M
         = Ok (squeeze (cast_image_stack cast X)) ∧
         (length (stack_list X) ≠ 1 ∨ stack_ndim X = 3 →
          squeeze (cast_image_stack cast X) = cast_image_stack cast X).
Proof.
  intros Ht Hnd HM HX.
  destruct (roundtrip_resolved X M cells p f s Ht Hnd HM HX) as (out & H1 & H2).
  exists out. split_and!; [done|done|].
  destruct X as [x|[|x [|x' xs]]]; simpl; try done.
  intros [?|?]; done.
Qed.


(** C7.  On inputs it accepts, [assemble] returns a 2-dimensional array for
    a 3-dimensional stack and for a 4-dimensional stack of batch size one,
    and a 3-dimensional array with the batch size of its input otherwise;
    [disassemble] returns a 3-dimensional stack for a 2-dimensional image
    and for a 3-dimensional batch of size one, and a 4-dimensional stack
    with the batch size of its input otherwise. *)
Theorem squeeze_convention (X : @image_stack E) (M : index_map) cells p f s
    (imgs : @images E) (M' : index_map) cells' h w :
  targets M = Ok cells →
  shaped p f s M →
  Forall (shaped p f s) (stack_list X) →
  Forall (image_shape h w) (images_list imgs) →
  mapM (resolve_panel h w) M' = Ok cells' →
  (∃ out, assemble_image_stack_batch cast X M = Ok out ∧
     images_ndim out =
       match X with
       | Stack3 _ => 2
       | Stack4 xs => if decide (length xs = 1) then 2 else 3
       end ∧
     length (images_list out) = length (stack_list X)) ∧
  (∃ st, disassemble_image_stack_batch cast imgs M' = Ok st ∧
     stack_ndim st =
       match imgs with
       | Image2 _ => 3
       | Image3 ims => if decide (length ims = 1) then 3 else 4
       end ∧
     length (stack_list st) = length (images_list imgs)).
Proof.
  intros (h0 & w0 & Hcs & Hres)%targets_inv HM HX Hims Hres'. split.
  - eexists. split; [by eapply assemble_Ok|].
    rewrite images_ndim_pack, images_list_pack, !length_fmap.
    split; [|done]. by destruct X.
  - destruct (disassemble_total imgs M' cells' h w Hims Hres')
      as (xs & Hdis & Hlen).
    exists (pack_stack xs). split; [done|].
    rewrite stack_ndim_pack, Hlen. split; [by destruct imgs|].
    rewrite <- Hlen. by destruct xs as [|x [|x' xs]].
Qed.


End Properties.

Lemma cast_image_stack_id {A} (X : @image_stack A) :
  cast_image_stack id X = X.
Proof.
  destruct X as [x|xs]; simpl; f_equal; [apply cast_stack_id|].
  rewrite <- (list_fmap_id xs) at 2. apply list_fmap_ext.
  intros _ x _. apply cast_stack_id.
Qed.

Lemma shaped_ex : shaped 2 2 2 M_ex.
Proof. split; [done|]. repeat constructor. Qed.

Lemma shaped_X_ex : Forall (shaped 2 2 2) (stack_list X_ex).
Proof. repeat constructor. Qed.

Lemma shaped_X_float : Forall (shaped 2 2 2) (stack_list X_float).
Proof. repeat constructor. Qed.



Lemma roundtrip_up_to_squeeze_witness :
  ∃ out, assemble_image_stack_batch id X_float M_ex = Ok out ∧
         disassemble_image_stack_batch id out M_ex = Ok (squeeze X_float) ∧
         (length (stack_list X_float) ≠ 1 ∨ stack_ndim X_float = 3 →
          squeeze X_float = X_float).
Proof.
  refine (roundtrip_up_to_squeeze id X_float M_ex cells_ex 2 2 2 _ _ _ _).
  - reflexivity.
  - apply (bool_decide_unpack _). vm_compute. reflexivity.
  - exact shaped_ex.
  - exact shaped_X_float.
Defined.

(** C1 as stated fails on a batch of one, whatever the element type: the
    round trip returns the 3-dimensional stack, not the 4-dimensional
    batch it was given.  It also fails on an int64 stack that holds an
    integer which is not a float64: 2^53 + 1 comes back as the float64
    2^53. *)
Lemma roundtrip_batch_of_one_counterexample :
  targets [[[(0, 0)%Z]]] = Ok [[[(0, 0)]]] ∧
  NoDup (concat (concat [[[(0, 0)]]])) ∧
  shaped 1 1 1 [[[(0, 0)%Z]]] ∧
  Forall (shaped 1 1 1) (stack_list (Stack4 [[[[5%float]]]])) ∧
  (assemble_image_stack_batch id (Stack4 [[[[5%float]]]]) [[[(0, 0)%Z]]]
     ≫= λ out, disassemble_image_stack_batch id out [[[(0, 0)%Z]]])
  = Ok (Stack3 [[[5%float]]]) ∧
  Ok (Stack3 [[[5%float]]]) ≠ Ok (Stack4 [[[[5%float]]]]) ∧
  (assemble_image_stack_batch int64_to_float64
     (Stack3 [[[9007199254740993%Z]]]) [[[(0, 0)%Z]]]
     ≫= λ out, disassemble_image_stack_batch id out [[[(0, 0)%Z]]])
  = Ok (Stack3 [[[9007199254740992%float]]]) ∧
  int64_to_float64 9007199254740992 = 9007199254740992%float ∧
  (9007199254740992 ≠ 9007199254740993)%Z.
Proof.
  split_and!; try done; try (vm_compute; reflexivity).
  - apply (bool_decide_unpack _). vm_compute. reflexivity.
  - split; [done|]. repeat constructor.
  - repeat constructor.
Qed.



Lemma squeeze_convention_witness :
  (∃ out, assemble_image_stack_batch int64_to_float64 X_ex M_ex = Ok out ∧
     images_ndim out = 3 ∧
     length (images_list out) = 2) ∧
  (∃ st, disassemble_image_stack_batch int64_to_float64
           (Image3 [[[1; 2; 5; 6]; [3; 4; 7; 8]]]%Z) M_ex = Ok st ∧
     stack_ndim st = 3 ∧
     length (stack_list st) = 1).
Proof.
  apply (squeeze_convention int64_to_float64 X_ex M_ex cells_ex 2 2 2
           (Image3 [[[1; 2; 5; 6]; [3; 4; 7; 8]]]%Z) M_ex cells_ex 2 4).
  - reflexivity.
  - exact shaped_ex.
  - exact shaped_X_ex.
  - repeat constructor.
  - reflexivity.
Defined.



End PanelMapper.

(** ** Time tool: jitter correction and the model property *)

Module Calibrator.
Import Numpy TimeTool ResultFacts.

Section Correction.
Context {F : Type} `{FloatOps F}.

(** The loop of [jitter_correct] adds the terms left to right; the
    exponent [n - i - 1] of a term is the number of coefficients after
    it. *)
Lemma correction_loop_spec (cs : list F) (edge_pos : Z) (acc : pynum) (k : nat) :
  correction_loop (k + length cs) edge_pos acc (zip (seq k (length cs)) cs)
  = spec_poly cs edge_pos acc.
Proof.
  revert k acc. induction cs as [|c cs IH]; intros k acc; [done|].
  cbn [length seq zip_with spec_poly].
  unfold correction_loop at 1. cbn [foldlM fst snd].
  replace (k + S (length cs) - k - 1) with (length cs) by lia.
  destruct (py_mul (PyFloat c) (PyInt (edge_pos ^ Z.of_nat (length cs))))
    as [term|e]; [|done].
  cbn [mbind result_bind]. destruct (py_add acc term) as [acc'|e]; [|done].
  cbn [mbind result_bind].
  replace (k + S (length cs)) with (S k + length cs) by lia.
  apply IH.
Qed.

(** [jitter_correct] on a model held as a non-empty Python list: the
    polynomial of the specification, times 1000. *)
Lemma jitter_correct_list (cs : list F) (edge_pos : Z) (w : @world F) :
  _model (self w) = PyList cs → cs ≠ [] →
  jitter_correct edge_pos w =
  match spec_poly cs edge_pos (PyInt 0) with
  | Ok ns => (py_mul ns (PyInt 1000),
              printed "Using model to correct for jitter." w)
  | Raise e => (Raise e, w)
  end.
Proof.
  intros Hm Hne. unfold jitter_correct, mbind, st_bind, gets, lift.
  rewrite Hm. cbn [truth coefficients]. rewrite bool_decide_false.
  2:{ by destruct cs. }
  cbn [negb]. unfold enumerate.
  pose proof (correction_loop_spec cs edge_pos (PyInt 0) 0) as Hloop.
  rewrite Nat.add_0_l in Hloop. rewrite Hloop.
  by destruct (spec_poly cs edge_pos (PyInt 0)).
Qed.

(** [jitter_correct] on a model held as a numpy array of two or more
    coefficients: the truth test of the array raises. *)
Lemma jitter_correct_array_raises (c1 c2 : F) (cs : list F) (edge_pos : Z)
    (w : @world F) :
  _model (self w) = NdArray (c1 :: c2 :: cs) →
  jitter_correct edge_pos w = (Raise ValueError, w).
Proof.
  intros Hm. unfold jitter_correct, mbind, st_bind, gets, lift.
  by rewrite Hm.
Qed.

(** C3.  Whatever the edge position, [jitter_correct] on a calibrator
    whose model is the empty list of [__init__] returns the integer 0, raises
    nothing, and prints that no correction is possible. *)
Theorem jitter_correct_uncalibrated (edge_pos : Z) (w : @world F) :
  _model (self w) = PyList [] →
  jitter_correct edge_pos w =
  (Ok (PyInt 0),
   printed "No calibration model. Jitter correction not possible." w).
Proof.
  intros Hm. unfold jitter_correct, mbind, st_bind, gets, lift.
  by rewrite Hm.
Qed.

(** The setter on a string, by the second dot-separated component of the
    string. *)
Lemma model_setter_str (s ext : string) (w : @world F) :
  split_on "." s !! 1 = Some ext →
  model_setter (VStr s) w =
  if String.eqb ext "npy" then
    match files w s with
    | Some m => (Ok tt, with_self (set_model (NdArray m)) w)
    | None => (Raise FileNotFoundError, w)
    end
  else (Ok tt, w).
Proof.
  intros Hext. unfold model_setter, mbind, st_bind, lift, getitem.
  rewrite Hext.
  destruct (String.eqb_spec ext "txt") as [->|_]; [done|].
  destruct (String.eqb_spec ext "yaml") as [->|_]; [done|].
  destruct (String.eqb ext "npy"); [|done].
  unfold np_load. by destruct (files w s).
Qed.

(** The setter on the values the code intends.  Assigning a Python list to
    [model] raises [NameError] and leaves the calibrator as it was.
    Assigning a string with exactly one dot replaces the model, by the
    array [np.load] returns, when its extension is [npy] and the file can be
    loaded; with extension [npy] and no such file it raises and changes
    nothing; with any other extension, [txt] and [yaml] included, it
    changes nothing.  Assigning a value that is neither a list nor a
    string prints a message and leaves the model unchanged. *)
Lemma model_setter_cases (val : pyobj) (w : @world F) :
  match val with
  | VList _ => model_setter val w = (Raise NameError, w)
  | VStr s =>
      ∀ stem ext, split_on "." s = [stem; ext] →
        model_setter val w =
        if String.eqb ext "npy" then
          match files w s with
          | Some m => (Ok tt, with_self (set_model (NdArray m)) w)
          | None => (Raise FileNotFoundError, w)
          end
        else (Ok tt, w)
  | _ =>
      model_setter val w =
      (Ok tt, printed "Entry not understood and model has not been changed." w)
  end.
Proof.
  destruct val as [cs|s|cs|x|]; try done.
  intros stem ext Hsplit. apply model_setter_str. by rewrite Hsplit.
Qed.

(** *** [fit_calib] *)

Lemma mask_select_filter {A B} (P : B → bool) (a : list A) (b : list B) :
  length a = length b →
  mask_select a (P <$> b) = Ok ((filter (λ ab, P ab.2) (zip a b)).*1).
Proof.
  intros Hlen. unfold mask_select.
  rewrite decide_True by (by rewrite length_fmap). f_equal.
  revert b Hlen. induction a as [|x a IH]; intros [|y b] Hlen; try done.
  simpl in Hlen. cbn [fmap list_fmap zip_with mbind list_bind snd fst].
  rewrite filter_cons. cbn [snd fst].
  specialize (IH b ltac:(lia)). destruct (P y) eqn:HP.
  - rewrite decide_True by done. simpl. f_equal. exact IH.
  - rewrite decide_False by (by intros []). simpl. exact IH.
Qed.

Lemma mask_select_filter_self {A B} (P : B → bool) (a : list A) (b : list B) :
  length a = length b →
  mask_select b (P <$> b) = Ok ((filter (λ ab, P ab.2) (zip a b)).*2).
Proof.
  intros Hlen. unfold mask_select.
  rewrite decide_True by (by rewrite length_fmap). f_equal.
  revert b Hlen. induction a as [|x a IH]; intros [|y b] Hlen; try done.
  simpl in Hlen. cbn [fmap list_fmap zip_with mbind list_bind snd fst].
  rewrite filter_cons. cbn [snd fst].
  specialize (IH b ltac:(lia)). destruct (P y) eqn:HP.
  - rewrite decide_True by done. simpl. f_equal. exact IH.
  - rewrite decide_False by (by intros []). simpl. exact IH.
Qed.

Lemma np_any_filter {A B} (P : B → bool) (a : list A) (b : list B) :
  length a = length b →
  np_any (P <$> b) = negb (bool_decide (filter (λ ab, P ab.2) (zip a b) = [])).
Proof.
  revert b. induction a as [|x a IH]; intros [|y b] Hlen; try done.
  simpl in Hlen. unfold np_any in *.
  cbn [fmap list_fmap zip_with existsb id]. rewrite filter_cons. cbn [snd].
  destruct (P y) eqn:HP.
  - by rewrite decide_True by done.
  - rewrite decide_False by (by intros []). simpl. apply IH. lia.
Qed.

Lemma filter_window (l : list (F * Z)) :
  filter (λ de, (de.2 <? 870)%Z) (filter (λ de : F * Z, (250 <? de.2)%Z) l)
  = filter (λ de, in_window de.2) l.
Proof.
  rewrite list_filter_filter. apply list_filter_iff. intros [d e]. simpl.
  unfold in_window. rewrite andb_True. tauto.
Qed.

Section Fit.
Context (polyfit : list Z → list F → nat → result (list F)).

(** C5 (as amended).  On samples of equal number, [fit_calib] fits, with
    the order asked for, exactly the samples whose edge position lies
    strictly between 250 and 870 when there is one, and the whole
    unfiltered set when there is none, after printing that the results are
    questionable; it raises exactly when [np.polyfit] raises on the data it
    is given, and otherwise stores what [np.polyfit] returns as the
    model. *)
Theorem fit_calib_window (delays : list F) (edges : list Z)
    (amplitudes : list F) (fwhm : option (list F)) (order : nat) (w : @world F) :
  length delays = length edges →
  let kept := spec_kept delays edges in
  let none := bool_decide (kept = []) in
  let xs := if none then edges else kept.*2 in
  let ys := if none then delays else kept.*1 in
  let msg :=
    if none
    then "Fit data is out of 250-870 pixel range. Results questionable."
    else "Fitting calibration between 250 and 870 pixels." in
  ∃ w',
    fit_calib polyfit delays edges amplitudes fwhm order w
    = (polyfit xs ys order ≫= λ _, Ok tt, w') ∧
    stdout w' = stdout w ++ [msg] ∧
    match polyfit xs ys order with
    | Ok m => _model (self w') = NdArray m
    | Raise _ => _model (self w') = _model (self w)
    end.
Proof.
  intros Hlen kept none xs ys msg.
  unfold fit_calib, mbind, st_bind, setattr, modify, lift, print, mret, st_ret.
  rewrite (np_any_filter (λ e, (250 <? e)%Z) delays edges Hlen).
  set (k1 := filter (λ de : F * Z, (250 <? de.2)%Z) (zip delays edges)).
  assert (kept = filter (λ de : F * Z, (de.2 <? 870)%Z) k1) as Hkept.
  { unfold k1. by rewrite filter_window. }
  destruct (bool_decide (k1 = [])) eqn:Hk1; cbn [negb].
  - apply bool_decide_eq_true in Hk1. rewrite Hk1 in Hkept.
    subst xs ys msg none. rewrite Hkept. simpl.
    destruct (polyfit edges delays order) as [m|e]; simpl; eauto.
  - rewrite (mask_select_filter (λ e, (250 <? e)%Z) delays edges Hlen).
    rewrite (mask_select_filter_self (λ e, (250 <? e)%Z) delays edges Hlen).
    fold k1.
    assert (length k1.*1 = length k1.*2) as Hlen1 by (by rewrite !length_fmap).
    rewrite (np_any_filter (λ e, (e <? 870)%Z) k1.*1 k1.*2 Hlen1).
    rewrite (mask_select_filter (λ e, (e <? 870)%Z) k1.*1 k1.*2 Hlen1).
    rewrite (mask_select_filter_self (λ e, (e <? 870)%Z) k1.*1 k1.*2 Hlen1).
    rewrite zip_fst_snd, <- Hkept. fold none.
    subst xs ys msg. destruct none; cbn [negb].
    + destruct (polyfit edges delays order) as [m|e]; simpl; eauto.
    + destruct (polyfit kept.*2 kept.*1 order) as [m|e]; simpl; eauto.
Qed.

(** Whenever [fit_calib] returns, the model it has stored is a numpy
    array. *)
Lemma fit_calib_stores_array (delays : list F) (edges : list Z)
    (amplitudes : list F) (fwhm : option (list F)) (order : nat)
    (w w' : @world F) :
  fit_calib polyfit delays edges amplitudes fwhm order w = (Ok tt, w') →
  ∃ m, _model (self w') = NdArray m.
Proof.
  unfold fit_calib, mbind, st_bind, setattr, modify, lift, print, mret, st_ret.
  intros Hfit. repeat case_match; simplify_eq; by eexists.
Qed.

(** A model of two or more coefficients that [fit_calib] has fitted makes
    the next [jitter_correct] raise. *)
Lemma fit_then_correct_raises (delays : list F) (edges : list Z)
    (amplitudes : list F) (fwhm : option (list F)) (order : nat)
    (edge_pos : Z) (w w' : @world F) :
  fit_calib polyfit delays edges amplitudes fwhm order w = (Ok tt, w') →
  2 ≤ length (coefficients (_model (self w'))) →
  jitter_correct edge_pos w' = (Raise ValueError, w').
Proof.
  intros Hfit Hcs.
  destruct (fit_calib_stores_array _ _ _ _ _ _ _ Hfit) as [m Hm].
  rewrite Hm in Hcs. simpl in Hcs.
  destruct m as [|c1 [|c2 cs]]; simpl in Hcs; try lia.
  by eapply jitter_correct_array_raises.
Qed.

End Fit.

(** On an empty sample set the fit raises, whatever the solver: numpy
    refuses a zero-size [x]. *)
Lemma fit_calib_empty_raises (lstsq : list Z → list F → nat → result (list F))
    (amplitudes : list F) (fwhm : option (list F)) (order : nat) (w : @world F) :
  fit_calib (np_polyfit lstsq) [] [] amplitudes fwhm order w
  = (Raise TypeError,
     printed "Fit data is out of 250-870 pixel range. Results questionable."
       (with_self (set_edges_delays [] []) w)).
Proof. reflexivity. Qed.

End Correction.

End Calibrator.

(** ** Time tool: edge detection *)

Module EdgeDetection.
Import Numpy TimeTool ResultFacts.

Section Detection.
Context {F : Type} `{FloatOps F}.
Context (fftconvolve : list F → list F → list F).

Lemma argmax_from_lt (xs : list F) (mp : F) (mi i : nat) :
  mi < i → argmax_from mp mi i xs < i + length xs.
Proof.
  revert mp mi i. induction xs as [|x xs IH]; intros mp mi i Hlt; simpl.
  - lia.
  - destruct (fis_nan mp); [lia|].
    destruct (negb (fleb x mp)).
    + specialize (IH x i (S i)). lia.
    + specialize (IH mp mi (S i)). lia.
Qed.

(** [argmax] returns an index of its argument. *)
Lemma argmax_lt (a : list F) (e : nat) : argmax a = Ok e → e < length a.
Proof.
  destruct a as [|x xs]; [done|]. simpl. intros [= <-].
  pose proof (argmax_from_lt xs x 0 1). lia.
Qed.

Lemma argmax_Ok (a : list F) : a ≠ [] → ∃ e, argmax a = Ok e.
Proof. destruct a; [done|]. intros _. by eexists. Qed.

Lemma crop_image_wf (img cropped : @frame F) first last :
  wf_frame img →
  crop_image (Some (FloatImage img)) first last = Ok (FloatImage cropped) →
  wf_frame cropped ∧ ncols cropped = ncols img.
Proof.
  intros Hwf [= <-]. split; [|done]. unfold wf_frame in *. simpl.
  by apply Forall_take, Forall_drop.
Qed.

Lemma foldl_zip_with_length (r : list F) (rs : list (list F)) :
  Forall (λ row, length row = length r) rs →
  length (foldl (zip_with fadd) r rs) = length r.
Proof.
  revert r. induction rs as [|r' rs IH]; intros r Hrs; [done|].
  apply Forall_cons in Hrs as [Hr' Hrs]. simpl.
  assert (length (zip_with fadd r r') = length r) as Hlen.
  { rewrite length_zip_with. lia. }
  rewrite IH; [done|]. rewrite Hlen. done.
Qed.

(** The projection of a frame has one element per column. *)
Lemma np_sum_axis0_length (a : @frame F) :
  wf_frame a → length (np_sum_axis0 a) = ncols a.
Proof.
  unfold wf_frame, np_sum_axis0. intros Hwf.
  destruct (rows a) as [|r rs]; [by rewrite length_replicate|].
  apply Forall_cons in Hwf as [Hr Hrs].
  rewrite foldl_zip_with_length; [done|]. by rewrite Hr.
Qed.

(** The normalization of an integer array always raises. *)
Lemma normalize_int_raises (proj : list Z) :
  ∃ e, normalize_int (F := F) proj = Raise e.
Proof.
  destruct proj as [|x xs]; [by exists ValueError|].
  exists TypeError. reflexivity.
Qed.

(** So an integer frame never gets through the body of the [try]. *)
Lemma frame_edge_int (img : int_frame) :
  ∃ e, frame_edge fftconvolve (Some (IntImage img)) = Raise e.
Proof.
  unfold frame_edge. cbn [crop_image mbind result_bind]. unfold convolved.
  destruct (normalize_int_raises
              (int_sum_axis0
                 {| int_ncols := int_ncols img;
                    int_rows := take (60 - 40) (drop 40 (int_rows img)) |}))
    as [e ->].
  by exists e.
Qed.


(** Normalization raises on an empty projection only, and keeps the
    length. *)
Lemma normalize_Ok (proj : list F) :
  proj ≠ [] → ∃ p, normalize proj = Ok p ∧ length p = length proj.
Proof.
  destruct proj as [|x xs]; [done|]. intros _. unfold normalize.
  cbn [np_min mbind result_bind fmap list_fmap np_fmax mret result_ret].
  eexists. split; [done|]. simpl. by rewrite !length_fmap.
Qed.

Lemma fmin_diag (c : F) : fmin c c = c.
Proof. unfold fmin. by destruct (fis_nan c), (fltb c c). Qed.

Lemma fmax_diag (c : F) : fmax c c = c.
Proof. unfold fmax. by destruct (fis_nan c), (fltb c c). Qed.

Lemma foldl_diag (op : F → F → F) (c : F) (n : nat) :
  op c c = c → foldl op c (replicate n c) = c.
Proof. intros Hop. induction n as [|n IH]; [done|]. simpl. by rewrite Hop. Qed.

(** A projection of zero dynamic range: every element becomes the
    quotient of two zero differences, and nothing is raised. *)
Lemma normalize_constant (c : F) (n : nat) :
  normalize (replicate (S n) c)
  = Ok (replicate (S n) (fdiv (fsub c c) (fsub c c))).
Proof.
  unfold normalize. cbn [replicate np_min mbind result_bind].
  rewrite (foldl_diag fmin c n (fmin_diag c)).
  change (c :: replicate n c) with (replicate (S n) c).
  rewrite fmap_replicate. cbn [replicate np_fmax mbind result_bind].
  rewrite (foldl_diag fmax _ n (fmax_diag _)).
  change (fsub c c :: replicate n (fsub c c)) with (replicate (S n) (fsub c c)).
  by rewrite fmap_replicate.
Qed.

Section Same.

(** Mode ['same'] of [fftconvolve]: the output has the size of [in1]. *)
Hypothesis fftconvolve_same :
  ∀ in1, length (fftconvolve in1 kernel) = length in1.


End Same.

(** One round of the loop appends the sample of the event to all three
    lists, or leaves all three as they were. *)
Lemma loop_body_extend (code : string) (evt : @event F) (l : @edge_lists F) :
  loop_body fftconvolve code evt l
  = (Ok tt, extend l (event_sample fftconvolve code evt)).
Proof.
  assert (∀ (d : F) s e a,
    pop_stage {| stage_pos := s ++ [d]; edge_pos := e; conv_ampl := a |}
    = (Ok tt, {| stage_pos := s; edge_pos := e; conv_ampl := a |})) as Hpop.
  { intros d s e a. unfold pop_stage. cbn [stage_pos edge_pos conv_ampl].
    rewrite removelast_last. by destruct s. }
  destruct l as [sp ep ca].
  unfold loop_body, try_except, try_body, event_sample, frame_edge.
  unfold mbind at 1. unfold st_bind at 1. unfold append_stage, modify.
  cbn [stage_pos edge_pos conv_ampl].
  unfold mbind at 1. unfold st_bind at 1. unfold lift at 1.
  destruct (det_image evt) as [img|ex]; [|by rewrite Hpop].
  unfold mbind at 1. unfold st_bind at 1. unfold lift at 1.
  cbn [mbind result_bind].
  destruct (crop_image img 40 60) as [cropped|ex]; [|by rewrite Hpop].
  unfold mbind at 1. unfold st_bind at 1. unfold lift at 1.
  cbn [mbind result_bind].
  destruct (convolved fftconvolve cropped) as [conv|ex]; [|by rewrite Hpop].
  unfold mbind at 1. unfold st_bind at 1. unfold lift at 1.
  cbn [mbind result_bind].
  destruct (argmax conv) as [e|ex] eqn:He; [|by rewrite Hpop].
  unfold mbind, st_bind, append_edge, append_ampl, modify, gets, lift.
  cbn [stage_pos edge_pos conv_ampl]. rewrite last_snoc.
  destruct (lookup_lt_is_Some_2 conv e (argmax_lt _ _ He)) as [a Ha].
  cbn [result_bind]. unfold getitem. rewrite Ha. done.
Qed.

Lemma for_each_extend (code : string) (events : list (@event F)) (l : @edge_lists F) :
  for_each (loop_body fftconvolve code) events l
  = (Ok tt, foldl extend l (event_sample fftconvolve code <$> events)).
Proof.
  revert l. induction events as [|evt events IH]; intros l; [done|].
  cbn [for_each fmap list_fmap foldl].
  unfold mbind, st_bind. rewrite loop_body_extend. apply IH.
Qed.

Lemma foldl_extend (l : @edge_lists F) (ss : list (option (F * nat * F))) :
  foldl extend l ss
  = {| stage_pos := stage_pos l ++ (omap id ss).*1.*1;
       edge_pos := edge_pos l ++ (omap id ss).*1.*2;
       conv_ampl := conv_ampl l ++ (omap id ss).*2 |}.
Proof.
  revert l. induction ss as [|s ss IH]; intros l.
  - simpl. rewrite !app_nil_r. by destruct l.
  - cbn [foldl]. rewrite IH. destruct s as [[[d e] a]|]; [|done].
    cbn [extend stage_pos edge_pos conv_ampl omap list_omap id fmap
         list_fmap fst snd].
    by rewrite <- !app_assoc.
Qed.

Lemma omap_id_fmap {A B} (f : A → option B) (l : list A) :
  omap id (f <$> l) = omap f l.
Proof.
  induction l as [|x l IH]; [done|].
  cbn [fmap list_fmap omap list_omap id]. destruct (f x); by f_equal.
Qed.

(** [detect_edges] returns, column by column, the samples of the events
    that contribute one, in the order of the events. *)
Lemma detect_edges_samples (hutch code : string) (events : list (@event F)) :
  ttstage_code hutch = Ok code →
  detect_edges fftconvolve hutch events =
  let samples := omap (event_sample fftconvolve code) events in
  Ok (samples.*1.*1, samples.*1.*2, samples.*2).
Proof.
  intros Hcode. unfold detect_edges. rewrite Hcode. cbn [mbind result_bind].
  rewrite for_each_extend, foldl_extend. simpl.
  by rewrite omap_id_fmap.
Qed.

Lemma event_sample_not_retrieved (code : string) (evt : @event F) :
  retrieved evt = false → event_sample fftconvolve code evt = None.
Proof.
  unfold retrieved, event_sample, det_image.
  by destruct (image evt) as [img|img| |ex].
Qed.

(** An event whose image is an integer array contributes no sample. *)
Lemma event_sample_int (code : string) (evt : @event F) (img : int_frame) :
  image evt = RetrievedInt img → event_sample fftconvolve code evt = None.
Proof.
  intros Himg. unfold event_sample, det_image. rewrite Himg.
  cbn [mbind result_bind]. by destruct (frame_edge_int img) as [e ->].
Qed.



Section Aligned.

Hypothesis fftconvolve_same :
  ∀ in1, length (fftconvolve in1 kernel) = length in1.




End Aligned.

(** One round of the loop on a frame whose cropped projection has zero
    dynamic range: normalization does not raise, and the frame is kept. *)
Lemma degenerate_frame_kept (code : string) (evt : @event F) (img cropped : frame)
    (n : nat) (c : F) (l : @edge_lists F) :
  (∀ in1, length (fftconvolve in1 kernel) = length in1) →
  image evt = Retrieved img →
  crop_image (Some (FloatImage img)) 40 60 = Ok (FloatImage cropped) →
  np_sum_axis0 cropped = replicate (S n) c →
  normalize (np_sum_axis0 cropped)
    = Ok (replicate (S n) (fdiv (fsub c c) (fsub c c))) ∧
  ∃ e a,
    loop_body fftconvolve code evt l =
    (Ok tt, {| stage_pos := stage_pos l ++ [epics evt code];
               edge_pos := edge_pos l ++ [e];
               conv_ampl := conv_ampl l ++ [a] |}).
Proof.
  intros Hsame Himg Hcrop Hproj. rewrite Hproj.
  split; [apply normalize_constant|].
  rewrite loop_body_extend. unfold event_sample, det_image, frame_edge.
  rewrite Himg. cbn [mbind result_bind]. rewrite Hcrop.
  cbn [mbind result_bind]. unfold convolved.
  rewrite Hproj, normalize_constant. cbn [mbind result_bind mret result_ret].
  set (conv := fftconvolve _ kernel).
  destruct (argmax_Ok conv) as [e He].
  { intros Heq. pose proof (Hsame (replicate (S n)
      (fdiv (fsub c c) (fsub c c)))) as Hl.
    fold conv in Hl. rewrite Heq in Hl. simpl in Hl. lia. }
  rewrite He. cbn [mbind result_bind].
  destruct (lookup_lt_is_Some_2 conv e (argmax_lt _ _ He)) as [a Ha].
  unfold getitem. rewrite Ha. by exists e, a.
Qed.

(** One round of the loop on a frame of an integer dtype: the exception of
    the normalization is caught, the delay is removed again, and the round
    ends normally with the three lists as they were. *)
Lemma integer_frame_skipped (code : string) (evt : @event F) (img : int_frame)
    (l : @edge_lists F) :
  image evt = RetrievedInt img →
  loop_body fftconvolve code evt l = (Ok tt, l).
Proof.
  intros Himg. rewrite loop_body_extend.
  by rewrite (event_sample_int code evt img Himg).
Qed.

End Detection.

End EdgeDetection.

(** ** Time tool in IEEE arithmetic: evaluations *)

Module TimeToolIEEE.
Import Numpy TimeTool ResultFacts Calibrator EdgeDetection Examples.

Lemma SF64_zero_range (s : spec_float) :
  SF64div (SF64sub s s) (SF64sub s s) = S754_nan.
Proof.
  destruct s as [b|b| |b m e]; try (by destruct b); [done|].
  unfold SF64sub, SFsub. rewrite Z.sub_diag. reflexivity.
Qed.

(** The quotient of two zero differences is NaN, whatever the float. *)
Lemma zero_range_quotient (c : float) : ((c - c) / (c - c))%float = nan.
Proof.
  rewrite <- (SF2Prim_Prim2SF ((c - c) / (c - c))).
  by rewrite div_spec, sub_spec, SF64_zero_range.
Qed.

Lemma convolve_same_length (in1 : list float) :
  length (convolve_same in1 kernel) = length in1.
Proof.
  unfold convolve_same.
  rewrite length_take, length_drop, length_fmap, length_seq.
  assert (length (@kernel float _) = 300) as -> by reflexivity.
  change ((300 - 1) / 2) with 149. lia.
Qed.

(** C8 (as amended).  A frame whose cropped projection has zero dynamic
    range never makes edge detection surface an error.  In one round of
    the loop on such a frame of a float dtype, normalization raises
    nothing: the normalized projection is NaN at every column, the frame is
    not skipped, and its delay, an edge position and an amplitude are
    appended.  On a frame of an integer dtype, of zero dynamic range or
    not, the in-place division raises, the [except] clause swallows the
    exception, and the frame is skipped in silence: the round ends
    normally with the three lists as they were. *)
Theorem zero_range_never_surfaces
    (fftconvolve : list float → list float → list float)
    (code : string) (evt : @event float) (l : @edge_lists float) :
  (∀ in1, length (fftconvolve in1 kernel) = length in1) →
  (∀ (img cropped : @frame float) (n : nat) (c : float),
     image evt = Retrieved img →
     crop_image (Some (FloatImage img)) 40 60 = Ok (FloatImage cropped) →
     np_sum_axis0 cropped = replicate (S n) c →
     normalize (np_sum_axis0 cropped) = Ok (replicate (S n) nan) ∧
     ∃ e a,
       loop_body fftconvolve code evt l =
       (Ok tt, {| stage_pos := stage_pos l ++ [epics evt code];
                  edge_pos := edge_pos l ++ [e];
                  conv_ampl := conv_ampl l ++ [a] |})) ∧
  (∀ img : int_frame,
     image evt = RetrievedInt img →
     loop_body fftconvolve code evt l = (Ok tt, l)).
Proof.
  intros Hsame. split.
  - intros img cropped n c Himg Hcrop Hproj.
    destruct (degenerate_frame_kept fftconvolve code evt img cropped n c l
                Hsame Himg Hcrop Hproj) as [Hnorm Hloop].
    split; [|done]. rewrite Hnorm. cbn [fdiv fsub ieee].
    by rewrite zero_range_quotient.
  - intros img Himg. by eapply integer_frame_skipped.
Qed.

Lemma zero_range_never_surfaces_witness :
  (normalize (np_sum_axis0
                {| ncols := 4; rows := replicate 2 [5; 5; 5; 5]%float |})
     = Ok (replicate 4 nan) ∧
   ∃ e a,
     loop_body convolve_same "LAS:FS45:VIT:FS_TGT_TIME_DIAL"
       (event_of 1 (Retrieved frame_flat))
       {| stage_pos := []; edge_pos := []; conv_ampl := [] |} =
     (Ok tt, {| stage_pos := [] ++ [1%float];
                edge_pos := [] ++ [e];
                conv_ampl := [] ++ [a] |})) ∧
  loop_body convolve_same "LAS:FS45:VIT:FS_TGT_TIME_DIAL"
    (event_of 1 (RetrievedInt int_frame_flat))
    {| stage_pos := []; edge_pos := []; conv_ampl := [] |} =
  (Ok tt, {| stage_pos := []; edge_pos := []; conv_ampl := [] |}).
Proof.
  split.
  - apply (proj1 (zero_range_never_surfaces convolve_same
                    "LAS:FS45:VIT:FS_TGT_TIME_DIAL"
                    (event_of 1 (Retrieved frame_flat))
                    {| stage_pos := []; edge_pos := []; conv_ampl := [] |}
                    convolve_same_length)
             frame_flat
             {| ncols := 4; rows := replicate 2 [5; 5; 5; 5]%float |}
             3 10%float); reflexivity.
  - apply (proj2 (zero_range_never_surfaces convolve_same
                    "LAS:FS45:VIT:FS_TGT_TIME_DIAL"
                    (event_of 1 (RetrievedInt int_frame_flat))
                    {| stage_pos := []; edge_pos := []; conv_ampl := [] |}
                    convolve_same_length)
             int_frame_flat); reflexivity.
Defined.

(** C8 as stated fails: on a float frame whose rows are constant
    [detect_edges] returns normally, with the frame kept at edge position 0
    and a NaN amplitude; on an integer frame whose rows are constant it
    returns normally too, with the frame dropped. *)
Lemma zero_range_counterexample :
  np_sum_axis0 {| ncols := 4; rows := replicate 2 [5; 5; 5; 5]%float |}
    = [10; 10; 10; 10]%float ∧
  detect_edges convolve_same "mfx" [event_of 1 (Retrieved frame_flat)]
    = Ok ([1%float], [0], [nan]) ∧
  int_sum_axis0 {| int_ncols := 4; int_rows := replicate 2 [5; 5; 5; 5]%Z |}
    = [10; 10; 10; 10]%Z ∧
  detect_edges convolve_same "mfx" [event_of 1 (RetrievedInt int_frame_flat)]
    = Ok ([], [], []).
Proof. split_and!; vm_compute; reflexivity. Qed.



(** C2: the code at a model loaded through the [model] property.  The
    stored model is the numpy array [np.load] returns, and [jitter_correct]
    raises [ValueError] where the polynomial evaluates to 100.0 ns, that is
    100000.0 ps. *)
Theorem jitter_correct_loaded_model_raises :
  let w := calibrator (PyList []) coefficient_files in
  let w' := calibrator (NdArray [1; 0; 0]%float) coefficient_files in
  model_setter (VStr "model.npy") w = (Ok tt, w') ∧
  jitter_correct 10 w' = (Raise ValueError, w') ∧
  spec_jitter_correction [1; 0; 0]%float 10 = Ok (PyFloat 100000%float).
Proof. split_and!; vm_compute; reflexivity. Qed.

(** The same coefficients held as a Python list give the correction of
    the specification. *)
Lemma jitter_correct_list_example :
  jitter_correct 10 (calibrator (PyList [1; 0; 0]%float) no_files)
  = (Ok (PyFloat 100000%float),
     printed "Using model to correct for jitter."
       (calibrator (PyList [1; 0; 0]%float) no_files)).
Proof. vm_compute. reflexivity. Qed.

Lemma jitter_correct_uncalibrated_witness :
  jitter_correct 10 (calibrator (PyList []) no_files) =
  (Ok (PyInt 0),
   printed "No calibration model. Jitter correction not possible."
     (calibrator (PyList []) no_files)).
Proof.
  apply (jitter_correct_uncalibrated 10 (calibrator (PyList []) no_files)).
  reflexivity.
Defined.

(** C10: the code at file names with more than one dot.  The setter
    compares [val.split('.')[1]], the text between the first and the second
    dot, and not the ending of the name.  So the name [fit.npy.txt], which
    ends in [.txt], replaces the model by the array of the file; and the
    name [./fit.npy], which ends in [.npy] and names a file that can be
    loaded, leaves the model unchanged, without a message. *)
Theorem model_setter_extension_slip :
  let w := calibrator (PyList []) coefficient_files in
  split_on "." "fit.npy.txt" = ["fit"; "npy"; "txt"] ∧
  model_setter (VStr "fit.npy.txt") w
    = (Ok tt, calibrator (NdArray [1; 0; 0]%float) coefficient_files) ∧
  split_on "." "./fit.npy" = [""; "/fit"; "npy"] ∧
  coefficient_files "./fit.npy" = Some [1; 0; 0]%float ∧
  model_setter (VStr "./fit.npy") w = (Ok tt, w).
Proof. split_and!; vm_compute; reflexivity. Qed.

(** C5 as stated fails on an empty sample set: no sample lies in the
    window, the warning is printed, and the fit of the full (empty) set
    raises. *)
Lemma fit_calib_empty_counterexample :
  let w := calibrator (PyList []) no_files in
  spec_kept (F := float) [] [] = [] ∧
  fit_calib (np_polyfit lstsq_first_sample) [] [] [] None 2 w
  = (Raise TypeError,
     printed "Fit data is out of 250-870 pixel range. Results questionable."
       (with_self (set_edges_delays [] []) w)).
Proof. split; vm_compute; reflexivity. Qed.

Lemma fit_calib_window_witness :
  let delays := [1; 2; 3; 4]%float in
  let edges := [100; 300; 870; 500]%Z in
  let w := calibrator (PyList []) no_files in
  ∃ w',
    fit_calib (np_polyfit lstsq_first_sample) delays edges [] None 2 w
    = ((np_polyfit lstsq_first_sample) [300; 500]%Z [2; 4]%float 2 ≫= λ _, Ok tt, w') ∧
    stdout w' = stdout w ++ ["Fitting calibration between 250 and 870 pixels."] ∧
    _model (self w') = NdArray [0; 0; 2]%float.
Proof.
  apply (fit_calib_window (np_polyfit lstsq_first_sample) [1; 2; 3; 4]%float
           [100; 300; 870; 500]%Z [] None 2
           (calibrator (PyList []) no_files)).
  reflexivity.
Defined.

End TimeToolIEEE.

(** ** Event bookkeeping: dealing events to ranks *)

Module DistributeFacts.
Import Numpy PsanaRun RunSpec ResultFacts.

(** A loop that assigns every index of a holder in turn leaves the
    assigned values. *)
Lemma fill_loop {A} (g : nat → A) (z : A) (n k : nat) :
  k ≤ n →
  foldl (λ a r, <[r := g r]> a) (replicate n z) (seq 0 k)
  = (g <$> seq 0 k) ++ replicate (n - k) z.
Proof.
  induction k as [|k IH]; intros Hk.
  - simpl. by rewrite Nat.sub_0_r.
  - rewrite seq_S, foldl_snoc, IH by lia. simpl.
    rewrite insert_app_r_alt by (rewrite length_fmap, length_seq; lia).
    rewrite length_fmap, length_seq, Nat.sub_diag.
    replace (n - k) with (S (n - S k)) by lia. simpl.
    by rewrite fmap_app, <- app_assoc.
Qed.

Lemma fill_split_fmap (m t : Z) (n : nat) :
  fill_split m t n = (λ r, num_per_rank m t (Z.of_nat r)) <$> seq 0 n.
Proof.
  unfold fill_split.
  rewrite (fill_loop (λ r, num_per_rank m t (Z.of_nat r)) 0%Z n n) by lia.
  by rewrite Nat.sub_diag, app_nil_r.
Qed.

Lemma split_point_step (m t : Z) (k : nat) :
  (0 < t)%Z →
  (split_point m t (Z.of_nat k) + num_per_rank m t (Z.of_nat k))%Z
  = split_point m t (Z.of_nat (S k)).
Proof.
  intros Ht. unfold split_point, num_per_rank.
  pose proof (Z.mod_pos_bound m t Ht) as Hrem.
  rewrite Nat2Z.inj_succ. unfold Z.succ.
  rewrite Z.mul_add_distr_r, Z.mul_1_l.
  destruct (Z.ltb_spec (Z.of_nat k) (m mod t)); lia.
Qed.

(** The running sums of the shares are the boundaries. *)
Lemma cumsum_from_split (m t : Z) (k len : nat) :
  (0 < t)%Z →
  cumsum_from (split_point m t (Z.of_nat k))
    ((λ r, num_per_rank m t (Z.of_nat r)) <$> seq k len)
  = (λ r, split_point m t (Z.of_nat r)) <$> seq (S k) len.
Proof.
  intros Ht. revert k. induction len as [|len IH]; intros k; [done|].
  cbn [seq fmap list_fmap cumsum_from].
  rewrite split_point_step by done. f_equal. apply IH.
Qed.

Lemma split_point_0 (m t : Z) : (0 < t)%Z → split_point m t 0 = 0%Z.
Proof.
  intros Ht. unfold split_point.
  pose proof (Z.mod_pos_bound m t Ht). lia.
Qed.

Lemma split_indices_closed (m t : Z) (n : nat) :
  (0 < t)%Z →
  [0%Z] ++ cumsum (fill_split m t n)
  = (λ r, split_point m t (Z.of_nat r)) <$> seq 0 (S n).
Proof.
  intros Ht. rewrite fill_split_fmap. unfold cumsum.
  rewrite <- (split_point_0 m t Ht) at 2.
  change 0%Z with (Z.of_nat 0) at 2.
  rewrite cumsum_from_split by done.
  cbn [seq fmap list_fmap app]. by rewrite split_point_0.
Qed.

Lemma getitem_int_fmap_seq {A} (g : nat → A) (n : nat) (i : Z) :
  (0 ≤ i < Z.of_nat n)%Z →
  getitem_int (g <$> seq 0 n) i = Ok (g (Z.to_nat i)).
Proof.
  intros Hi. unfold getitem_int, norm_index.
  rewrite length_fmap, length_seq.
  rewrite (proj2 (Z.leb_le _ _)), (proj2 (Z.ltb_lt _ _)) by lia.
  cbn [andb mbind result_bind]. unfold getitem.
  rewrite list_lookup_fmap, lookup_seq_lt by lia. done.
Qed.

Lemma getitem_int_out {A} (a : list A) (i : Z) :
  (Z.of_nat (length a) ≤ i)%Z → getitem_int a i = Raise IndexError.
Proof.
  intros Hi. unfold getitem_int, norm_index.
  rewrite (proj2 (Z.ltb_ge i _)) by lia. rewrite andb_false_r.
  rewrite (proj2 (Z.ltb_ge i 0)) by lia. by rewrite andb_false_r.
Qed.

(** What [distribute_events] leaves for a rank that exists. *)
Lemma distribute_events_Ok (rank total_ranks max_events_arg : Z)
    (s : interface) :
  (0 ≤ rank < total_ranks)%Z →
  let m := chosen_max max_events_arg s in
  distribute_events rank total_ranks max_events_arg s =
  (Returned tt,
   set_max_events (split_point m total_ranks (rank + 1))
     (set_counter (split_point m total_ranks rank) s)).
Proof.
  intros Hrank m. unfold distribute_events.
  assert ((if (max_events_arg =? -1)%Z then io_gets max_events
           else mret max_events_arg) s = (Returned m, s)) as Hm.
  { unfold m, chosen_max. by destruct (max_events_arg =? -1)%Z. }
  unfold mbind at 1. unfold io_bind at 1. rewrite Hm.
  unfold mbind, io_bind, io_lift, io_modify, dim.
  rewrite (proj2 (Z.ltb_ge total_ranks 0)) by lia.
  rewrite split_indices_closed by lia.
  rewrite !getitem_int_fmap_seq by lia.
  by rewrite !Z2Nat.id by lia.
Qed.

End DistributeFacts.

(** ** Event bookkeeping: retrieving images *)

Module ImagesFacts.
Import Numpy PsanaRun RunSpec ResultFacts DistributeFacts.

Section Images.
Context {A : Type} (zero_row : A) (setrow : option A → result A).
Implicit Types (s : interface) (events evts : list (@run_event A)).

Lemma store_step_fields s (evt : @run_event A) :
  counter (store_step s evt) = (counter s + 1)%Z ∧
  max_events (store_step s evt) = max_events s ∧
  calibrate (store_step s evt) = calibrate s ∧
  track_timestamps (store_step s evt) = track_timestamps s ∧
  output (store_step s evt) = output s.
Proof. unfold store_step. destruct s as [? ? ? []]; repeat split; reflexivity. Qed.

(** A round of the loop when no event is left: the holder is cut and the
    loop ends. *)
Lemma loop_step_exhausted events assemble j batch (images : list A) s :
  (max_events s ≤ counter s)%Z →
  get_images_loop setrow events assemble (j :: batch) images s
  = (Returned (take j images), add_output "No more events to retrieve" s).
Proof.
  intros Hle. cbn [get_images_loop].
  unfold mbind, io_bind, io_gets, io_modify, mret, io_ret.
  by rewrite (proj2 (Z.leb_le _ _) Hle).
Qed.

(** A round of the loop that stores an event. *)
Lemma loop_step_store events assemble j batch (images : list A) s evt row :
  (counter s < max_events s)%Z →
  getitem_int events (counter s) = Ok evt →
  (assemble = true → calibrate s = true) →
  setrow (event_value assemble (calibrate s) evt) = Ok row →
  get_images_loop setrow events assemble (j :: batch) images s
  = get_images_loop setrow events assemble batch (<[j := row]> images)
      (store_step s evt).
Proof.
  intros Hlt Hevt Hcal Hrow. cbn [get_images_loop].
  unfold mbind at 1. unfold io_bind at 1. unfold io_gets at 1.
  unfold mbind at 1. unfold io_bind at 1. unfold io_gets at 1.
  rewrite (proj2 (Z.leb_gt _ _) Hlt).
  unfold mbind at 1. unfold io_bind at 1. unfold io_lift at 1. rewrite Hevt.
  unfold mbind at 1. unfold io_bind at 1. unfold io_gets at 1.
  unfold event_value in Hrow.
  assert (∀ (k : A → io interface (list A)),
    ((if assemble
      then if negb (calibrate s) then io_raise IOError
           else io_lift (setrow (ev_image evt))
      else if calibrate s then io_lift (setrow (ev_calib evt))
           else io_lift (setrow (ev_raw evt))) ≫= k) s = k row s) as Hk.
  { intros k. unfold mbind, io_bind, io_lift, io_raise.
    destruct assemble.
    - rewrite (Hcal eq_refl) in *. simpl. by rewrite Hrow.
    - destruct (calibrate s); by rewrite Hrow. }
  rewrite Hk. unfold mbind, io_bind, io_gets, io_modify, get_timestamp.
  unfold store_step. by destruct (track_timestamps s).
Qed.

Lemma stored_S (n : nat) s (evt : @run_event A) :
  (counter s < max_events s)%Z →
  stored (S n) s = S (stored n (store_step s evt)).
Proof.
  intros Hlt. unfold stored.
  destruct (store_step_fields s evt) as (-> & -> & _). lia.
Qed.

Lemma stored_0 (n : nat) s : (max_events s ≤ counter s)%Z → stored n s = 0.
Proof. intros Hle. unfold stored. lia. Qed.

Lemma visited_S events (n : nat) s evt :
  (0 ≤ counter s < max_events s)%Z →
  events !! Z.to_nat (counter s) = Some evt →
  visited events (S n) s = evt :: visited events n (store_step s evt).
Proof.
  intros Hc Hevt. unfold visited.
  rewrite (stored_S n s evt) by lia.
  destruct (store_step_fields s evt) as (-> & _).
  rewrite (drop_S _ _ _ Hevt). simpl.
  by replace (Z.to_nat (counter s + 1)) with (S (Z.to_nat (counter s))) by lia.
Qed.

Lemma getitem_int_lookup {B} (a : list B) (i : Z) :
  (0 ≤ i < Z.of_nat (length a))%Z →
  ∃ x, a !! Z.to_nat i = Some x ∧ getitem_int a i = Ok x.
Proof.
  intros Hi. destruct (lookup_lt_is_Some_2 a (Z.to_nat i)) as [x Hx]; [lia|].
  exists x. split; [done|]. unfold getitem_int, norm_index.
  rewrite (proj2 (Z.leb_le _ _)), (proj2 (Z.ltb_lt _ _)) by lia.
  cbn [andb mbind result_bind]. unfold getitem. by rewrite Hx.
Qed.

(** The loop from round [j] on: the rows of the events between the counter
    and [max_events], at most as many as rounds are left, are stored after
    the rows already in the holder. *)
Lemma get_images_loop_Ok events assemble (len : nat) :
  ∀ (j : nat) (done : list A) s (rows : list A),
    length done = j →
    (0 ≤ counter s)%Z →
    (max_events s ≤ Z.of_nat (length events))%Z →
    (assemble = true → calibrate s = true) →
    rows_of setrow assemble (calibrate s) (visited events len s) = Ok rows →
    get_images_loop setrow events assemble (seq j len)
      (done ++ replicate len zero_row) s
    = (Returned (done ++ rows), after_images events len s).
Proof.
  induction len as [|len IH]; intros j done s rows Hj Hc Hm Hcal Hrows.
  - unfold visited, stored in Hrows. simpl in Hrows. injection Hrows as <-.
    unfold after_images, visited, stored. simpl.
    reflexivity.
  - cbn [seq].
    destruct (Z.le_gt_cases (max_events s) (counter s)) as [Hle|Hlt].
    + rewrite loop_step_exhausted by done.
      unfold after_images, visited in *. rewrite stored_0 in * by done.
      simpl in Hrows. injection Hrows as <-.
      rewrite decide_True by lia. simpl.
      by rewrite take_app_length', app_nil_r.
    + destruct (getitem_int_lookup events (counter s)) as (evt & Hev & Hget);
        [lia|].
      rewrite (visited_S events len s evt) in Hrows by (done || lia).
      unfold rows_of in Hrows. cbn [mapM] in Hrows.
      apply bind_Ok in Hrows as (row & Hrow & Hrows).
      apply bind_Ok in Hrows as (rows' & Hrows' & [= <-]).
      rewrite (loop_step_store events assemble j _ _ s evt row) by done.
      cbn [replicate]. rewrite insert_app_r_alt by lia.
      rewrite Hj, Nat.sub_diag. cbn [insert list_insert].
      replace (done ++ row :: replicate len zero_row)
        with ((done ++ [row]) ++ replicate len zero_row)
        by (by rewrite <- app_assoc).
      destruct (store_step_fields s evt) as (Hc' & Hm' & Hcal' & _).
      rewrite (IH (S j) (done ++ [row]) (store_step s evt) rows').
      * rewrite <- app_assoc. simpl. f_equal.
        unfold after_images.
        rewrite (visited_S events len s evt) by (done || lia).
        rewrite (stored_S len s evt) by lia. simpl.
        by destruct (decide (stored len (store_step s evt) < len));
          [rewrite decide_True by lia|rewrite decide_False by lia].
      * rewrite length_app. simpl. lia.
      * lia.
      * by rewrite Hm'.
      * by rewrite Hcal'.
      * by rewrite Hcal'.
Qed.

(** [get_images] when every value it stores is accepted by the holder. *)
Lemma get_images_Ok events (num_images : Z) assemble s (rows : list A) :
  (0 ≤ num_images)%Z →
  (0 ≤ counter s)%Z →
  (max_events s ≤ Z.of_nat (length events))%Z →
  (assemble = true → calibrate s = true) →
  rows_of setrow assemble (calibrate s)
    (visited events (Z.to_nat num_images) s) = Ok rows →
  get_images zero_row setrow events num_images assemble s
  = (Returned rows, after_images events (Z.to_nat num_images) s).
Proof.
  intros Hn Hc Hm Hcal Hrows. unfold get_images, dim.
  rewrite (proj2 (Z.ltb_ge num_images 0)) by lia.
  unfold mbind, io_bind, io_lift.
  exact (get_images_loop_Ok events assemble (Z.to_nat num_images)
           0 [] s rows eq_refl Hc Hm Hcal Hrows).
Qed.

End Images.

End ImagesFacts.

(** ** Event bookkeeping: the shares of the ranks *)

Module EventDistribution.
Import Numpy PsanaRun RunSpec ResultFacts DistributeFacts.

Lemma cumsum_from_length (acc : Z) (l : list Z) :
  length (cumsum_from acc l) = length l.
Proof.
  revert acc. induction l as [|x l IH]; intros acc; [done|].
  simpl. by rewrite IH.
Qed.

Lemma split_indices_length (m t : Z) (n : nat) :
  length ([0%Z] ++ cumsum (fill_split m t n)) = S n.
Proof.
  rewrite fill_split_fmap. unfold cumsum. simpl.
  by rewrite cumsum_from_length, length_fmap, length_seq.
Qed.


(** The steps of [distribute_events] and the object each failure leaves. *)
Lemma distribute_events_steps (rank total_ranks max_events_arg : Z)
    (s : interface) :
  distribute_events rank total_ranks max_events_arg s =
  match dim total_ranks with
  | Raise e => (Thrown (Builtin e), s)
  | Ok n =>
      let split_indices :=
        [0%Z] ++ cumsum
          (fill_split (chosen_max max_events_arg s) total_ranks n) in
      match getitem_int split_indices rank with
      | Raise e => (Thrown (Builtin e), s)
      | Ok c =>
          match getitem_int split_indices (rank + 1) with
          | Raise e => (Thrown (Builtin e), set_counter c s)
          | Ok m => (Returned tt, set_max_events m (set_counter c s))
          end
      end
  end.
Proof.
  unfold distribute_events.
  assert ((if (max_events_arg =? -1)%Z then io_gets max_events
           else mret max_events_arg) s
          = (Returned (chosen_max max_events_arg s), s)) as Hm.
  { unfold chosen_max. by destruct (max_events_arg =? -1)%Z. }
  unfold mbind at 1. unfold io_bind at 1. rewrite Hm.
  unfold mbind, io_bind, io_lift, io_modify.
  destruct (dim total_ranks) as [n|e]; [|done]. cbv zeta.
  destruct (getitem_int _ rank) as [c|e]; [|done].
  by destruct (getitem_int _ (rank + 1)) as [mx|e].
Qed.

Lemma split_point_last (m t : Z) : (0 < t)%Z → split_point m t t = m.
Proof.
  intros Ht. unfold split_point.
  pose proof (Z.mod_pos_bound m t Ht) as Hrem.
  pose proof (Z.div_mod m t ltac:(lia)) as Hdm. lia.
Qed.

Lemma split_point_share (m t rank : Z) :
  (0 < t)%Z →
  (split_point m t (rank + 1) - split_point m t rank)%Z
  = (m / t + (if (rank <? m mod t)%Z then 1 else 0))%Z.
Proof.
  intros Ht. unfold split_point.
  destruct (Z.ltb_spec rank (m mod t)); lia.
Qed.

(** Consecutive ranges laid end to end. *)
Lemma concat_ranges (g : nat → Z) (n : nat) :
  (∀ k, k < n → (g k ≤ g (S k))%Z) →
  concat ((λ r, seqZ (g r) (g (S r) - g r)) <$> seq 0 n)
  = seqZ (g 0%nat) (g n - g 0%nat).
Proof.
  induction n as [|n IH]; intros Hmono.
  - simpl. by rewrite Z.sub_diag.
  - rewrite seq_S, fmap_app, concat_app, IH by (intros k Hk; apply Hmono; lia).
    simpl. rewrite app_nil_r.
    assert (g 0%nat ≤ g n)%Z as H0n.
    { clear IH. induction n as [|n IHn]; [lia|].
      specialize (Hmono n ltac:(lia)) as Hn.
      assert (g 0%nat ≤ g n)%Z; [|lia].
      apply IHn. intros k Hk. apply Hmono. lia. }
    specialize (Hmono n ltac:(lia)).
    replace (g (S n) - g 0%nat)%Z
      with ((g n - g 0%nat) + (g (S n) - g n))%Z by lia.
    rewrite seqZ_app by lia. do 2 f_equal. lia.
Qed.

(** X1.  [distribute_events] deals the events out completely and without
    overlap: with a positive number of ranks and a maximum of [m] events,
    [m] below 2^53, every rank below [total_ranks] is served, and the
    ranges from [counter] to [max_events] left to ranks 0, 1, ..., laid end
    to end, are exactly the event indices 0, ..., [m - 1] in order. *)
Theorem distribute_events_partition (total_ranks max_events_arg : Z)
    (s : interface) :
  (0 < total_ranks)%Z →
  (0 ≤ chosen_max max_events_arg s)%Z →
  exact_count (chosen_max max_events_arg s) →
  (∀ r : nat, (Z.of_nat r < total_ranks)%Z →
     (distribute_events (Z.of_nat r) total_ranks max_events_arg s).1
     = Returned tt) ∧
  concat ((λ r : nat,
             rank_range (rank_state total_ranks max_events_arg s (Z.of_nat r)))
          <$> seq 0 (Z.to_nat total_ranks))
  = seqZ 0 (chosen_max max_events_arg s).
Proof.
  intros Ht Hm _. set (m := chosen_max max_events_arg s) in *. split.
  - intros r Hr. by rewrite distribute_events_Ok by lia.
  - pose proof (concat_ranges (λ r, split_point m total_ranks (Z.of_nat r))
                  (Z.to_nat total_ranks)) as Hcat.
    cbv beta in Hcat.
    rewrite Z2Nat.id, split_point_last in Hcat by lia.
    change (Z.of_nat 0) with 0%Z in Hcat.
    rewrite split_point_0, Z.sub_0_r in Hcat by done.
    rewrite <- Hcat.
    + f_equal. apply list_eq. intros k. rewrite !list_lookup_fmap.
      destruct (seq 0 (Z.to_nat total_ranks) !! k) as [r|] eqn:Hr; [|done].
      apply lookup_seq in Hr as [-> Hr]. simpl. f_equal.
      unfold rank_range, rank_state.
      rewrite distribute_events_Ok by lia. simpl.
      by replace (Z.of_nat k + 1)%Z with (Z.of_nat (S k)) by lia.
    + intros k Hk. rewrite <- (split_point_step m total_ranks k Ht).
      unfold num_per_rank.
      pose proof (Z.div_pos m total_ranks Hm Ht).
      destruct (Z.of_nat k <? m mod total_ranks)%Z; lia.
Qed.

Lemma distribute_events_partition_witness :
  (∀ r : nat, (Z.of_nat r < 3)%Z →
     (distribute_events (Z.of_nat r) 3 (-1) RunExamples.ten_events).1
     = Returned tt) ∧
  concat ((λ r : nat,
             rank_range (rank_state 3 (-1) RunExamples.ten_events (Z.of_nat r)))
          <$> seq 0 (Z.to_nat 3))
  = seqZ 0 (chosen_max (-1) RunExamples.ten_events).
Proof.
  apply (distribute_events_partition 3 (-1) RunExamples.ten_events).
  - lia.
  - unfold chosen_max. simpl. lia.
  - unfold exact_count, chosen_max. simpl. lia.
Defined.

(** X2.  The shares are even: for a maximum of events below 2^53 in
    absolute value, every rank below [total_ranks] gets the quotient of
    the maximum by the number of ranks or one event more, and a rank never
    gets more than a rank before it. *)
Theorem distribute_events_balanced (rank1 rank2 total_ranks max_events_arg : Z)
    (s : interface) :
  (0 ≤ rank1)%Z → (rank1 ≤ rank2)%Z → (rank2 < total_ranks)%Z →
  exact_count (chosen_max max_events_arg s) →
  let share1 := share (rank_state total_ranks max_events_arg s rank1) in
  let share2 := share (rank_state total_ranks max_events_arg s rank2) in
  let quotient := (chosen_max max_events_arg s / total_ranks)%Z in
  (quotient ≤ share2)%Z ∧ (share2 ≤ share1)%Z ∧ (share1 ≤ quotient + 1)%Z.
Proof.
  intros H1 H12 H2 _. unfold share, rank_state.
  rewrite !distribute_events_Ok by lia. cbn [snd max_events counter
    set_max_events set_counter].
  rewrite !split_point_share by lia.
  destruct (Z.ltb_spec rank1 (chosen_max max_events_arg s mod total_ranks));
    destruct (Z.ltb_spec rank2 (chosen_max max_events_arg s mod total_ranks));
    lia.
Qed.

Lemma distribute_events_balanced_witness :
  let share1 := share (rank_state 3 (-1) RunExamples.ten_events 0) in
  let share2 := share (rank_state 3 (-1) RunExamples.ten_events 2) in
  let quotient := (chosen_max (-1) RunExamples.ten_events / 3)%Z in
  (quotient ≤ share2)%Z ∧ (share2 ≤ share1)%Z ∧ (share1 ≤ quotient + 1)%Z.
Proof.
  apply (distribute_events_balanced 0 2 3 (-1) RunExamples.ten_events);
    try lia.
  unfold exact_count, chosen_max. simpl. lia.
Defined.



(** X4.  Asked for the rank [total_ranks], one past the last, with a
    maximum of events below 2^53 in absolute value, [distribute_events]
    raises [IndexError] only after it has moved the counter to the end of
    the events: the object is left changed. *)
Theorem distribute_events_rank_past_end (total_ranks max_events_arg : Z)
    (s : interface) :
  (0 < total_ranks)%Z →
  exact_count (chosen_max max_events_arg s) →
  distribute_events total_ranks total_ranks max_events_arg s
  = (Thrown (Builtin IndexError),
     set_counter (chosen_max max_events_arg s) s).
Proof.
  intros Ht _. rewrite distribute_events_steps. unfold dim.
  rewrite (proj2 (Z.ltb_ge total_ranks 0)) by lia. cbv zeta.
  rewrite (getitem_int_out _ (total_ranks + 1))
    by (rewrite split_indices_length; lia).
  rewrite split_indices_closed by done.
  rewrite getitem_int_fmap_seq by lia.
  by rewrite Z2Nat.id, split_point_last by lia.
Qed.

Lemma distribute_events_rank_past_end_witness :
  distribute_events 3 3 (-1) RunExamples.ten_events
  = (Thrown (Builtin IndexError),
     set_counter (chosen_max (-1) RunExamples.ten_events)
       RunExamples.ten_events).
Proof.
  apply (distribute_events_rank_past_end 3 (-1) RunExamples.ten_events).
  - lia.
  - unfold exact_count, chosen_max. simpl. lia.
Defined.

End EventDistribution.

(** ** Event bookkeeping: what [get_images] returns and leaves *)

Module ImageRetrieval.
Import Numpy PsanaRun RunSpec ResultFacts DistributeFacts ImagesFacts.
Import EventDistribution.

Section Images.
Context {A : Type} (zero_row : A) (setrow : option A → result A).
Implicit Types (s : interface) (events evts : list (@run_event A)).

Lemma store_step_stamps s (evt : @run_event A) :
  seconds (store_step s evt)
    = seconds s ++ (if track_timestamps s then [(ev_time evt).1] else []) ∧
  nanoseconds (store_step s evt)
    = nanoseconds s ++ (if track_timestamps s then [(ev_time evt).2] else []) ∧
  fiducials (store_step s evt)
    = fiducials s ++ (if track_timestamps s then [ev_fiducials evt] else []).
Proof.
  unfold store_step. destruct s as [? ? ? []]; simpl;
    by rewrite ?app_nil_r.
Qed.

Lemma stamp_all_fields evts s :
  counter (stamp_all evts s) = (counter s + Z.of_nat (length evts))%Z ∧
  max_events (stamp_all evts s) = max_events s ∧
  calibrate (stamp_all evts s) = calibrate s ∧
  track_timestamps (stamp_all evts s) = track_timestamps s ∧
  output (stamp_all evts s) = output s.
Proof.
  revert s. induction evts as [|evt evts IH]; intros s.
  - unfold stamp_all. simpl. split_and!; (done || lia).
  - unfold stamp_all in *. cbn [foldl].
    destruct (IH (store_step s evt)) as (-> & -> & -> & -> & ->).
    destruct (store_step_fields s evt) as (-> & -> & -> & -> & ->).
    split_and!; try done. simpl length. lia.
Qed.

Lemma stamp_all_stamps evts s :
  seconds (stamp_all evts s)
    = seconds s ++ (if track_timestamps s
                    then (λ evt : @run_event A, (ev_time evt).1) <$> evts
                    else []) ∧
  nanoseconds (stamp_all evts s)
    = nanoseconds s ++ (if track_timestamps s
                        then (λ evt : @run_event A, (ev_time evt).2) <$> evts
                        else []) ∧
  fiducials (stamp_all evts s)
    = fiducials s ++ (if track_timestamps s
                      then (λ evt : @run_event A, ev_fiducials evt) <$> evts
                      else []).
Proof.
  revert s. induction evts as [|evt evts IH]; intros s.
  - unfold stamp_all. simpl. destruct (track_timestamps s);
      by rewrite !app_nil_r.
  - unfold stamp_all in *. cbn [foldl].
    destruct (IH (store_step s evt)) as (-> & -> & ->).
    destruct (store_step_stamps s evt) as (-> & -> & ->).
    destruct (store_step_fields s evt) as (_ & _ & _ & -> & _).
    destruct (track_timestamps s); simpl; by rewrite <- ?app_assoc, ?app_nil_r.
Qed.

Lemma visited_length events (n : nat) s :
  (0 ≤ counter s)%Z → (max_events s ≤ Z.of_nat (length events))%Z →
  length (visited events n s) = stored n s.
Proof.
  intros Hc Hm. unfold visited, stored.
  rewrite length_take, length_drop. lia.
Qed.

Lemma rows_of_length assemble calib evts (rows : list A) :
  rows_of setrow assemble calib evts = Ok rows → length rows = length evts.
Proof.
  unfold rows_of. intros Hrows. apply mapM_Ok in Hrows.
  symmetry. by eapply Forall2_length.
Qed.

Lemma rows_of_app assemble calib evts1 evts2 (rows : list A) :
  rows_of setrow assemble calib (evts1 ++ evts2) = Ok rows →
  ∃ rows1 rows2,
    rows_of setrow assemble calib evts1 = Ok rows1 ∧
    rows_of setrow assemble calib evts2 = Ok rows2 ∧
    rows = rows1 ++ rows2.
Proof.
  unfold rows_of. intros Hrows. apply mapM_Ok in Hrows.
  apply Forall2_app_inv_l in Hrows as (rows1 & rows2 & H1 & H2 & ->).
  exists rows1, rows2. split_and!; [by apply mapM_Ok..|done].
Qed.

(** One round of the loop, by cases. *)
Lemma loop_round events assemble j batch (images : list A) s :
  get_images_loop setrow events assemble (j :: batch) images s =
  if (max_events s <=? counter s)%Z
  then (Returned (take j images), add_output "No more events to retrieve" s)
  else match getitem_int events (counter s) with
       | Raise e => (Thrown (Builtin e), s)
       | Ok evt =>
           if assemble && negb (calibrate s) then (Thrown IOError, s)
           else match setrow (event_value assemble (calibrate s) evt) with
                | Raise e => (Thrown (Builtin e), s)
                | Ok row =>
                    get_images_loop setrow events assemble batch
                      (<[j := row]> images) (store_step s evt)
                end
       end.
Proof.
  destruct (Z.leb_spec (max_events s) (counter s)) as [Hle|Hlt].
  { by apply loop_step_exhausted. }
  destruct (getitem_int events (counter s)) as [evt|e] eqn:Hevt.
  2:{ cbn [get_images_loop].
      unfold mbind, io_bind, io_gets, io_lift.
      rewrite (proj2 (Z.leb_gt _ _) Hlt). by rewrite Hevt. }
  destruct (assemble && negb (calibrate s)) eqn:Hio.
  { apply andb_true_iff in Hio as [-> Hcal].
    cbn [get_images_loop].
    unfold mbind, io_bind, io_gets, io_lift, io_raise.
    rewrite (proj2 (Z.leb_gt _ _) Hlt). rewrite Hevt. by rewrite Hcal. }
  destruct (setrow (event_value assemble (calibrate s) evt)) as [row|e]
    eqn:Hrow.
  { apply loop_step_store; try done.
    intros ->. simpl in Hio. by destruct (calibrate s). }
  cbn [get_images_loop].
  unfold mbind, io_bind, io_gets, io_lift, io_raise.
  rewrite (proj2 (Z.leb_gt _ _) Hlt). rewrite Hevt.
  unfold event_value in Hrow.
  destruct assemble; simpl in Hio.
  - destruct (calibrate s); [|done]. simpl. by rewrite Hrow.
  - destruct (calibrate s); by rewrite Hrow.
Qed.

(** X5.  [get_images] returns the rows of the next events of the run, in
    order: as many as asked for, or as many as are left below
    [max_events] when that is fewer.  It moves the counter past them,
    appends their timestamps when timestamps are tracked, leaves
    [max_events] alone, and prints its message exactly when it returns
    fewer rows than asked for. *)
Theorem get_images_next_events events (num_images : Z) assemble s
    (rows : list A) :
  (0 ≤ num_images)%Z →
  (0 ≤ counter s)%Z →
  (max_events s ≤ Z.of_nat (length events))%Z →
  (assemble = true → calibrate s = true) →
  rows_of setrow assemble (calibrate s)
    (visited events (Z.to_nat num_images) s) = Ok rows →
  ∃ s',
    get_images zero_row setrow events num_images assemble s
    = (Returned rows, s') ∧
    Z.of_nat (length rows)
    = Z.min num_images (Z.max 0 (max_events s - counter s)) ∧
    counter s' = (counter s + Z.of_nat (length rows))%Z ∧
    max_events s' = max_events s ∧
    output s' = output s ++
      (if decide (Z.of_nat (length rows) < num_images)%Z
       then ["No more events to retrieve"] else []) ∧
    let evts := visited events (Z.to_nat num_images) s in
    let stamps (f : @run_event A → Z) :=
      if track_timestamps s then f <$> evts else [] in
    seconds s' = seconds s ++ stamps (λ evt, (ev_time evt).1) ∧
    nanoseconds s' = nanoseconds s ++ stamps (λ evt, (ev_time evt).2) ∧
    fiducials s' = fiducials s ++ stamps (λ evt, ev_fiducials evt).
Proof.
  intros Hn Hc Hm Hcal Hrows.
  exists (after_images events (Z.to_nat num_images) s).
  split; [by apply get_images_Ok|].
  pose proof (rows_of_length _ _ _ _ Hrows) as Hlen.
  rewrite (visited_length events _ s Hc Hm) in Hlen.
  set (evts := visited events (Z.to_nat num_images) s) in *.
  destruct (stamp_all_fields evts s) as (Hc' & Hm' & _ & _ & Ho').
  destruct (stamp_all_stamps evts s) as (Hs' & Hn' & Hf').
  assert (length evts = stored (Z.to_nat num_images) s) as Hevts.
  { by apply visited_length. }
  unfold after_images. fold evts. cbv zeta.
  destruct (decide (stored (Z.to_nat num_images) s < Z.to_nat num_images))
    as [Hshort|Hfull]; cbn [counter max_events output seconds nanoseconds
                             fiducials add_output];
    rewrite Hc', Hm', Ho', Hs', Hn', Hf', Hlen, Hevts.
  - rewrite decide_True by lia. split_and!; try done. unfold stored. lia.
  - rewrite decide_False by lia. rewrite app_nil_r.
    split_and!; try done. unfold stored. lia.
Qed.

Lemma visited_add events (na nb : nat) s :
  (0 ≤ counter s)%Z →
  (counter s + Z.of_nat na ≤ max_events s)%Z →
  (max_events s ≤ Z.of_nat (length events))%Z →
  let s1 := stamp_all (visited events na s) s in
  stored na s = na ∧
  stored (na + nb) s = na + stored nb s1 ∧
  visited events (na + nb) s = visited events na s ++ visited events nb s1.
Proof.
  intros Hc Ha Hm s1.
  assert (stored na s = na) as Hna by (unfold stored; lia).
  destruct (stamp_all_fields (visited events na s) s) as (Hc1 & Hm1 & _).
  rewrite (visited_length events na s Hc Hm), Hna in Hc1. fold s1 in Hc1, Hm1.
  assert (stored (na + nb) s = na + stored nb s1) as Hsum.
  { unfold stored. rewrite Hc1, Hm1. lia. }
  split_and!; try done.
  unfold visited. rewrite Hsum, Hna, <- take_take_drop, drop_drop.
  rewrite Hc1.
  by replace (Z.to_nat (counter s + Z.of_nat na))
    with (Z.to_nat (counter s) + na) by lia.
Qed.

(** X6.  Retrieving in batches is retrieving at once: when [a] events are
    left, [get_images(a)] followed by [get_images(b)] returns the rows
    that [get_images(a + b)] returns, the first [a] of them in the first
    call, and both ways leave the same object. *)
Theorem get_images_batches events (a b : Z) assemble s (rows : list A) :
  (0 ≤ a)%Z → (0 ≤ b)%Z → (0 ≤ counter s)%Z →
  (counter s + a ≤ max_events s)%Z →
  (max_events s ≤ Z.of_nat (length events))%Z →
  (assemble = true → calibrate s = true) →
  rows_of setrow assemble (calibrate s)
    (visited events (Z.to_nat (a + b)) s) = Ok rows →
  ∃ rows1 rows2 s1 s2,
    get_images zero_row setrow events a assemble s = (Returned rows1, s1) ∧
    get_images zero_row setrow events b assemble s1 = (Returned rows2, s2) ∧
    get_images zero_row setrow events (a + b) assemble s
    = (Returned (rows1 ++ rows2), s2) ∧
    Z.of_nat (length rows1) = a.
Proof.
  intros Ha Hb Hc Hleft Hm Hcal Hrows.
  destruct (visited_add events (Z.to_nat a) (Z.to_nat b) s Hc ltac:(lia) Hm)
    as (Hna & Hsum & Hvis).
  set (v1 := visited events (Z.to_nat a) s) in *.
  set (s1 := stamp_all v1 s) in *.
  destruct (stamp_all_fields v1 s) as (Hc1 & Hm1 & Hcal1 & _).
  fold s1 in Hc1, Hm1, Hcal1.
  replace (Z.to_nat (a + b)) with (Z.to_nat a + Z.to_nat b) in Hrows by lia.
  pose proof Hrows as Hall.
  rewrite Hvis in Hrows.
  apply rows_of_app in Hrows as (rows1 & rows2 & Hrows1 & Hrows2 & ->).
  assert (after_images events (Z.to_nat a) s = s1) as Hs1.
  { unfold after_images. fold v1 s1. cbv zeta.
    by rewrite decide_False by lia. }
  exists rows1, rows2, s1, (after_images events (Z.to_nat b) s1).
  split_and!.
  - rewrite <- Hs1. by apply get_images_Ok.
  - apply get_images_Ok; try done.
    + lia.
    + by rewrite Hm1.
    + by rewrite Hcal1.
    + by rewrite Hcal1.
  - rewrite (get_images_Ok zero_row setrow events (a + b) assemble s
               (rows1 ++ rows2)); try done; try lia.
    2:{ by replace (Z.to_nat (a + b)) with (Z.to_nat a + Z.to_nat b) by lia. }
    f_equal.
    replace (Z.to_nat (a + b)) with (Z.to_nat a + Z.to_nat b) by lia.
    unfold after_images. cbv zeta. rewrite Hvis, Hsum.
    assert (stamp_all (v1 ++ visited events (Z.to_nat b) s1) s
            = stamp_all (visited events (Z.to_nat b) s1) s1) as ->.
    { unfold s1, stamp_all. by rewrite foldl_app. }
    destruct (decide (stored (Z.to_nat b) s1 < Z.to_nat b));
      [by rewrite decide_True by lia|by rewrite decide_False by lia].
  - pose proof (rows_of_length _ _ _ _ Hrows1) as Hlen.
    unfold v1 in Hlen. rewrite (visited_length events _ s Hc Hm), Hna in Hlen.
    lia.
Qed.

(** X7.  With calibration turned off, [get_images] cannot assemble: it
    raises [IOError] at the first event it would retrieve and changes
    nothing.  It still returns, with no row and its message printed, when
    no event is left to retrieve, wherever the counter stands.  The
    counter has to index an event only when one is left. *)
Theorem get_images_calibration_off events (num_images : Z) s :
  (0 < num_images)%Z →
  ((counter s < max_events s)%Z →
   (0 ≤ counter s < Z.of_nat (length events))%Z) →
  let s0 := (turn_calibration_off s).2 in
  get_images zero_row setrow events num_images true s0 =
  if (max_events s <=? counter s)%Z
  then (Returned [], add_output "No more events to retrieve" s0)
  else (Thrown IOError, s0).
Proof.
  intros Hn Hleft s0. unfold get_images, dim.
  rewrite (proj2 (Z.ltb_ge num_images 0)) by lia.
  unfold mbind, io_bind, io_lift.
  destruct (Z.to_nat num_images) as [|n] eqn:Hnat; [lia|].
  cbn [seq]. rewrite loop_round.
  change (max_events s0) with (max_events s).
  change (counter s0) with (counter s).
  destruct (Z.leb_spec (max_events s) (counter s)) as [Hend|Hlt]; [done|].
  destruct (getitem_int_lookup events (counter s)) as (evt & _ & ->);
    [by apply Hleft|].
  done.
Qed.

Lemma advanced_refl s : advanced s s.
Proof.
  unfold advanced. split_and!; try (done || lia).
  all: rewrite Z.sub_diag; destruct (track_timestamps s); simpl; lia.
Qed.

Lemma advanced_trans s s1 s2 : advanced s s1 → advanced s1 s2 → advanced s s2.
Proof.
  unfold advanced.
  intros (Hm1 & Hcal1 & Ht1 & Hc1 & Hb1 & Hs1 & Hn1 & Hf1)
         (Hm2 & Hcal2 & Ht2 & Hc2 & Hb2 & Hs2 & Hn2 & Hf2).
  rewrite Hm1, Ht1 in *. rewrite Hs2, Hn2, Hf2, Hs1, Hn1, Hf1.
  split_and!; try (congruence || lia).
  all: destruct (track_timestamps s); lia.
Qed.

Lemma advanced_store_step s (evt : @run_event A) :
  (counter s < max_events s)%Z → advanced s (store_step s evt).
Proof.
  intros Hlt. unfold advanced.
  destruct (store_step_fields s evt) as (-> & -> & -> & -> & _).
  destruct (store_step_stamps s evt) as (-> & -> & ->).
  split_and!; try (done || lia).
  all: rewrite length_app; destruct (track_timestamps s); simpl; lia.
Qed.

Lemma advanced_add_output s line : advanced s (add_output line s).
Proof. apply (advanced_refl s). Qed.

Lemma get_images_loop_advances events assemble batch :
  ∀ (images : list A) s,
    advanced s (get_images_loop setrow events assemble batch images s).2.
Proof.
  induction batch as [|j batch IH]; intros images s.
  - apply advanced_refl.
  - rewrite loop_round.
    destruct (Z.leb_spec (max_events s) (counter s)) as [Hle|Hlt].
    { apply advanced_add_output. }
    destruct (getitem_int events (counter s)) as [evt|e];
      [|apply advanced_refl].
    destruct (assemble && negb (calibrate s)); [apply advanced_refl|].
    destruct (setrow (event_value assemble (calibrate s) evt)) as [row|e];
      [|apply advanced_refl].
    eapply advanced_trans; [by apply (advanced_store_step s evt)|apply IH].
Qed.

(** X8.  Whatever it is asked for and whether it returns or raises,
    [get_images] leaves [max_events], [calibrate] and [track_timestamps] as
    they were, never moves the counter back nor past [max_events], and
    keeps the three timestamp lists in step: each grows by one entry per
    event counted when timestamps are tracked, and by none otherwise.  An
    event whose image could not be stored is neither counted nor
    stamped. *)
Theorem get_images_advances events (num_images : Z) assemble s :
  advanced s (get_images zero_row setrow events num_images assemble s).2.
Proof.
  unfold get_images, mbind, io_bind, io_lift.
  destruct (dim num_images) as [n|e]; [|apply advanced_refl].
  apply get_images_loop_advances.
Qed.

Lemma rows_of_concat assemble calib (chunks : list (list (@run_event A)))
    (rows : list A) :
  rows_of setrow assemble calib (concat chunks) = Ok rows →
  ∃ rowss,
    Forall2 (λ chunk rs, rows_of setrow assemble calib chunk = Ok rs)
      chunks rowss ∧
    concat rowss = rows.
Proof.
  revert rows. induction chunks as [|chunk chunks IH]; intros rows Hrows.
  - injection Hrows as <-. exists []. by split; [constructor|].
  - simpl in Hrows.
    apply rows_of_app in Hrows as (rows1 & rows2 & H1 & H2 & ->).
    destruct (IH rows2 H2) as (rowss & HF & <-).
    exists (rows1 :: rowss). by split; [constructor|].
Qed.

(** Consecutive chunks of a list laid end to end. *)
Lemma concat_chunks {B} (g : nat → nat) (n : nat) (l : list B) :
  (∀ k, k < n → g k ≤ g (S k)) →
  concat ((λ r, take (g (S r) - g r) (drop (g r) l)) <$> seq 0 n)
  = take (g n - g 0) (drop (g 0) l).
Proof.
  induction n as [|n IH]; intros Hmono.
  - simpl. by rewrite Nat.sub_diag.
  - rewrite seq_S, fmap_app, concat_app, IH by (intros k Hk; apply Hmono; lia).
    simpl. rewrite app_nil_r.
    assert (g 0 ≤ g n) as H0n.
    { clear IH. induction n as [|n IHn]; [lia|].
      specialize (Hmono n ltac:(lia)) as Hn.
      assert (g 0 ≤ g n); [|lia].
      apply IHn. intros k Hk. apply Hmono. lia. }
    specialize (Hmono n ltac:(lia)).
    replace (g (S n) - g 0) with ((g n - g 0) + (g (S n) - g n)) by lia.
    rewrite <- take_take_drop, drop_drop.
    by replace (g 0 + (g n - g 0)) with (g n) by lia.
Qed.

Lemma split_point_bounds (m t k : Z) :
  (0 < t)%Z → (0 ≤ m)%Z → (0 ≤ k)%Z → (k < t)%Z →
  (0 ≤ split_point m t k)%Z ∧
  (split_point m t k ≤ split_point m t (k + 1))%Z ∧
  (split_point m t (k + 1) ≤ m)%Z ∧
  (split_point m t (k + 1) - split_point m t k ≤ m / t + 1)%Z.
Proof.
  intros Ht Hm Hk Hkt.
  pose proof (Z.mod_pos_bound m t Ht) as Hrem.
  pose proof (Z.div_pos m t Hm Ht) as Hq.
  pose proof (Z.div_mod m t ltac:(lia)) as Hdm.
  pose proof (split_point_share m t k Ht) as Hshare.
  unfold split_point in *.
  assert (0 ≤ k * (m / t))%Z by (apply Z.mul_nonneg_nonneg; lia).
  assert ((k + 1) * (m / t) ≤ t * (m / t))%Z
    by (apply Z.mul_le_mono_nonneg_r; lia).
  destruct (k <? m mod t)%Z; split_and!; lia.
Qed.

(** X9.  Dealing the events out and retrieving them loses and repeats
    nothing: when every rank calls [distribute_events] on the same object
    and then one [get_images] that asks for at least the quotient plus one
    images, the rows the ranks return, laid end to end in the order of the
    ranks, are the rows of the first [max_events] events of the run in
    order. *)
Theorem ranks_retrieve_every_event events (total_ranks num_images : Z)
    assemble s (rows : list A) :
  (0 < total_ranks)%Z →
  (0 ≤ max_events s)%Z →
  (max_events s ≤ Z.of_nat (length events))%Z →
  (max_events s / total_ranks + 1 ≤ num_images)%Z →
  (assemble = true → calibrate s = true) →
  rows_of setrow assemble (calibrate s)
    (take (Z.to_nat (max_events s)) events) = Ok rows →
  ∃ rowss,
    Forall2 (λ (r : nat) rows_r, ∃ s',
        get_images zero_row setrow events num_images assemble
          (rank_state total_ranks (-1) s (Z.of_nat r))
        = (Returned rows_r, s'))
      (seq 0 (Z.to_nat total_ranks)) rowss ∧
    concat rowss = rows.
Proof.
  intros Ht Hm Hlen Hn Hcal Hrows.
  set (m := max_events s) in *.
  set (g := λ r : nat, Z.to_nat (split_point m total_ranks (Z.of_nat r))).
  assert (∀ k, k < Z.to_nat total_ranks → g k ≤ g (S k)) as Hmono.
  { intros k Hk. unfold g.
    destruct (split_point_bounds m total_ranks (Z.of_nat k))
      as (? & ? & _); try lia.
    replace (Z.of_nat (S k)) with (Z.of_nat k + 1)%Z by lia. lia. }
  pose proof (concat_chunks g (Z.to_nat total_ranks) events Hmono) as Hcat.
  assert (g 0 = 0) as Hg0.
  { unfold g. change (Z.of_nat 0) with 0%Z. by rewrite split_point_0. }
  assert (g (Z.to_nat total_ranks) = Z.to_nat m) as Hgt.
  { unfold g. by rewrite Z2Nat.id, split_point_last by lia. }
  rewrite Hg0, Hgt, Nat.sub_0_r in Hcat.
  change (drop 0 events) with events in Hcat.
  rewrite <- Hcat in Hrows.
  apply rows_of_concat in Hrows as (rowss & HF & Hconcat).
  exists rowss. split; [|done].
  apply Forall2_fmap_l in HF.
  apply Forall2_same_length_lookup. split; [by eapply Forall2_length|].
  intros i r rows_r Hr Hrows_r.
  pose proof (Forall2_lookup_lr _ _ _ _ _ _ HF Hr Hrows_r) as Hchunk.
  cbv beta in Hchunk.
  apply lookup_seq in Hr as [-> Hi]. simpl in Hchunk |- *.
  destruct (split_point_bounds m total_ranks (Z.of_nat i))
    as (Hlo & Hstep & Hhi & Hshare); try lia.
  unfold rank_state. rewrite distribute_events_Ok by lia. cbn [snd].
  change (chosen_max (-1) s) with m.
  eexists. apply get_images_Ok.
  - pose proof (Z.div_pos m total_ranks Hm Ht). lia.
  - simpl. lia.
  - simpl. lia.
  - done.
  - cbn [calibrate set_max_events set_counter].
    rewrite <- Hchunk. f_equal. unfold visited, stored.
    cbn [counter max_events set_max_events set_counter]. unfold g.
    replace (Z.of_nat (S i)) with (Z.of_nat i + 1)%Z by lia.
    f_equal. lia.
Qed.

End Images.

Lemma get_images_next_events_witness :
  ∃ s',
    get_images [0; 0]%Z RunExamples.store_row RunExamples.ten_shots 4 false
      RunExamples.ten_events
    = (Returned [[0; 1]; [1; 2]; [2; 3]; [3; 4]]%Z, s') ∧
    Z.of_nat (length [[0; 1]; [1; 2]; [2; 3]; [3; 4]]%Z)
    = Z.min 4 (Z.max 0 (max_events RunExamples.ten_events
                        - counter RunExamples.ten_events)) ∧
    counter s' = (counter RunExamples.ten_events + 4)%Z ∧
    max_events s' = max_events RunExamples.ten_events ∧
    output s' = output RunExamples.ten_events ++ [] ∧
    seconds s' = seconds RunExamples.ten_events ++ [100; 101; 102; 103]%Z ∧
    nanoseconds s' = nanoseconds RunExamples.ten_events ++ [0; 1; 2; 3]%Z ∧
    fiducials s' = fiducials RunExamples.ten_events ++ [0; 3; 6; 9]%Z.
Proof.
  apply (get_images_next_events [0; 0]%Z RunExamples.store_row
           RunExamples.ten_shots 4 false RunExamples.ten_events
           [[0; 1]; [1; 2]; [2; 3]; [3; 4]]%Z).
  - lia.
  - simpl. lia.
  - simpl. lia.
  - discriminate.
  - reflexivity.
Defined.

Lemma get_images_batches_witness :
  ∃ rows1 rows2 s1 s2,
    get_images [0; 0]%Z RunExamples.store_row RunExamples.ten_shots 2 false
      RunExamples.ten_events = (Returned rows1, s1) ∧
    get_images [0; 0]%Z RunExamples.store_row RunExamples.ten_shots 3 false s1
    = (Returned rows2, s2) ∧
    get_images [0; 0]%Z RunExamples.store_row RunExamples.ten_shots (2 + 3)
      false RunExamples.ten_events = (Returned (rows1 ++ rows2), s2) ∧
    Z.of_nat (length rows1) = 2%Z.
Proof.
  apply (get_images_batches [0; 0]%Z RunExamples.store_row
           RunExamples.ten_shots 2 3 false RunExamples.ten_events
           [[0; 1]; [1; 2]; [2; 3]; [3; 4]; [4; 5]]%Z).
  - lia.
  - lia.
  - simpl. lia.
  - simpl. lia.
  - simpl. lia.
  - discriminate.
  - reflexivity.
Defined.

Lemma get_images_calibration_off_witness :
  (let s0 := (turn_calibration_off RunExamples.ten_events).2 in
   get_images [0; 0]%Z RunExamples.store_row RunExamples.ten_shots 4 true s0
   = (Thrown IOError, s0)) ∧
  (let s0 := (turn_calibration_off
                (set_counter 10 RunExamples.ten_events)).2 in
   get_images [0; 0]%Z RunExamples.store_row RunExamples.ten_shots 4 true s0
   = (Returned [], add_output "No more events to retrieve" s0)).
Proof.
  split.
  - apply (get_images_calibration_off [0; 0]%Z RunExamples.store_row
             RunExamples.ten_shots 4 RunExamples.ten_events).
    + lia.
    + simpl. lia.
  - apply (get_images_calibration_off [0; 0]%Z RunExamples.store_row
             RunExamples.ten_shots 4 (set_counter 10 RunExamples.ten_events)).
    + lia.
    + simpl. lia.
Defined.

Lemma ranks_retrieve_every_event_witness :
  ∃ rowss,
    Forall2 (λ (r : nat) rows_r, ∃ s',
        get_images [0; 0]%Z RunExamples.store_row RunExamples.ten_shots 4
          false (rank_state 3 (-1) RunExamples.ten_events (Z.of_nat r))
        = (Returned rows_r, s'))
      (seq 0 (Z.to_nat 3)) rowss ∧
    concat rowss
    = [[0; 1]; [1; 2]; [2; 3]; [3; 4]; [4; 5]; [5; 6]; [6; 7]; [7; 8];
       [8; 9]; [9; 10]]%Z.
Proof.
  apply (ranks_retrieve_every_event [0; 0]%Z RunExamples.store_row
           RunExamples.ten_shots 3 4 false RunExamples.ten_events).
  - lia.
  - simpl. lia.
  - simpl. lia.
  - vm_compute. discriminate.
  - discriminate.
  - reflexivity.
Defined.

End ImageRetrieval.

(** ** Time tool: what [detect_edges] returns for any run *)

Module EdgeDetectionRun.
Import Numpy TimeTool TimeToolRun ResultFacts EdgeDetection.

Lemma ttstage_code_cases (hutch : string) :
  (lower hutch ∈ hutches ∧ ∃ code, ttstage_code hutch = Ok code) ∨
  (¬ lower hutch ∈ hutches ∧ ttstage_code hutch = Raise InvalidHutchError).
Proof.
  unfold ttstage_code, hutches.
  destruct (String.eqb_spec (lower hutch) "xpp") as [->|Hxpp].
  { left. split; [repeat constructor|by eexists]. }
  destruct (String.eqb_spec (lower hutch) "xcs") as [->|Hxcs].
  { left. split; [repeat constructor|by eexists]. }
  destruct (String.eqb_spec (lower hutch) "mfx") as [->|Hmfx].
  { left. split; [repeat constructor|by eexists]. }
  destruct (String.eqb_spec (lower hutch) "cxi") as [->|Hcxi].
  { left. split; [repeat constructor|by eexists]. }
  right. split; [|done]. intros Hin.
  repeat (apply elem_of_cons in Hin as [Hin|Hin]; [done|]).
  by apply elem_of_nil in Hin.
Qed.

Lemma omap_length_le {A B} (f : A → option B) (l : list A) :
  length (omap f l) ≤ length l.
Proof.
  induction l as [|x l IH]; [done|].
  cbn [omap list_omap]. destruct (f x); simpl; lia.
Qed.

Section Detection.
Context {F : Type} `{FloatOps F}.
Context (fftconvolve : list F → list F → list F).

(** X10.  Whatever the events hold and whatever the convolution returns,
    [detect_edges] raises nothing but [InvalidHutchError]: for a hutch
    that is, in any mix of upper and lower case, one of xpp, xcs, mfx and
    cxi it returns three arrays of one common length, at most the number
    of events; for any other hutch it raises [InvalidHutchError]. *)
Theorem detect_edges_outcomes (hutch : string) (events : list (@event F)) :
  (lower hutch ∈ hutches ∧
   ∃ delays edges ampls,
     detect_edges fftconvolve hutch events = Ok (delays, edges, ampls) ∧
     length delays = length edges ∧ length ampls = length edges ∧
     length edges ≤ length events)
  ∨ (¬ lower hutch ∈ hutches ∧
     detect_edges fftconvolve hutch events = Raise InvalidHutchError).
Proof.
  destruct (ttstage_code_cases hutch) as [[Hin [code Hcode]]|[Hout Hcode]].
  - left. split; [done|].
    rewrite (detect_edges_samples fftconvolve hutch code events Hcode).
    cbv zeta. do 3 eexists. split; [done|].
    rewrite !length_fmap. split_and!; try done. apply omap_length_le.
  - right. split; [done|]. unfold detect_edges. by rewrite Hcode.
Qed.

(** X11.  The events of a run are treated one by one: the arrays of a run
    are those of its first part followed by those of the rest, and nothing
    an event does, an exception caught in the loop included, affects what
    the next events contribute. *)
Theorem detect_edges_app (hutch : string) (events1 events2 : list (@event F)) :
  detect_edges fftconvolve hutch (events1 ++ events2) =
  r1 ← detect_edges fftconvolve hutch events1;
  r2 ← detect_edges fftconvolve hutch events2;
  mret (r1.1.1 ++ r2.1.1, r1.1.2 ++ r2.1.2, r1.2 ++ r2.2).
Proof.
  destruct (ttstage_code_cases hutch) as [[_ [code Hcode]]|[_ Hcode]].
  - rewrite !(detect_edges_samples fftconvolve hutch code _ Hcode).
    cbn [mbind result_bind mret result_ret fst snd].
    by rewrite omap_app, !fmap_app.
  - unfold detect_edges. by rewrite Hcode.
Qed.

Lemma normalize_length (proj p : list F) :
  normalize proj = Ok p → length p = length proj.
Proof.
  destruct proj as [|x proj]; [done|]. intros Hp.
  destruct (normalize_Ok (x :: proj)) as (p' & Hp' & Hlen); [done|].
  congruence.
Qed.

(** The edge position found in a frame is one of its columns. *)
Lemma frame_edge_lt (img : @frame F) (e : nat) (a : F) :
  (∀ in1, length (fftconvolve in1 kernel) = length in1) →
  wf_frame img →
  frame_edge fftconvolve (Some (FloatImage img)) = Ok (e, a) → e < ncols img.
Proof.
  intros Hsame Hwf. unfold frame_edge. cbn [crop_image mbind result_bind].
  set (cropped := {| ncols := ncols img;
                     rows := take (60 - 40) (drop 40 (rows img)) |}).
  destruct (crop_image_wf img cropped 40 60 Hwf eq_refl) as [Hwf' Hcols'].
  unfold convolved.
  destruct (normalize (np_sum_axis0 cropped)) as [p|] eqn:Hnorm; [|done].
  cbn [mbind result_bind mret result_ret].
  destruct (argmax (fftconvolve p kernel)) as [e'|] eqn:He; [|done].
  cbn [mbind result_bind].
  destruct (getitem (fftconvolve p kernel) e') as [a'|]; [|done].
  intros [= <- <-].
  apply argmax_lt in He. rewrite Hsame in He.
  rewrite (normalize_length _ _ Hnorm) in He.
  rewrite (np_sum_axis0_length cropped Hwf') in He. lia.
Qed.

(** X12.  Every edge position [detect_edges] returns is a column of the
    camera: when the frames retrieved are 2-dimensional arrays of [n]
    columns and the convolution has the size of its first input (mode
    'same'), all positions are below [n]. *)
Theorem detect_edges_positions (hutch : string) (events : list (@event F))
    (n : nat) (delays : list F) (edges : list nat) (ampls : list F) :
  (∀ in1, length (fftconvolve in1 kernel) = length in1) →
  (∀ evt img, evt ∈ events → image evt = Retrieved img →
     wf_frame img ∧ ncols img = n) →
  detect_edges fftconvolve hutch events = Ok (delays, edges, ampls) →
  Forall (λ e, e < n) edges.
Proof.
  intros Hsame Hvalid Hdet.
  destruct (ttstage_code_cases hutch) as [[_ [code Hcode]]|[_ Hcode]].
  2:{ unfold detect_edges in Hdet. by rewrite Hcode in Hdet. }
  rewrite (detect_edges_samples fftconvolve hutch code events Hcode) in Hdet.
  cbv zeta in Hdet. injection Hdet as _ <- _.
  apply Forall_fmap, Forall_fmap, Forall_forall. intros [[d e] a] Hin.
  apply list_elem_of_omap in Hin as (evt & Hevt & Hsample). simpl.
  destruct (image evt) as [img|img| |ex] eqn:Himg.
  2:{ by rewrite (event_sample_int fftconvolve code evt img Himg) in Hsample. }
  2,3: by (unfold event_sample, det_image in Hsample; rewrite Himg in Hsample).
  unfold event_sample, det_image in Hsample. rewrite Himg in Hsample.
  cbn [mbind result_bind] in Hsample.
  destruct (frame_edge fftconvolve (Some (FloatImage img)))
    as [[e' a']|] eqn:Hedge; [|done].
  injection Hsample as _ <- _.
  destruct (Hvalid evt img Hevt Himg) as [Hwf <-].
  by eapply frame_edge_lt.
Qed.

End Detection.

End EdgeDetectionRun.

(** ** Time tool: calibration runs and corrections *)

Module CalibrationRun.
Import Numpy TimeTool TimeToolRun ResultFacts Calibrator EdgeDetection.
Import EdgeDetectionRun.

Section Calibration.
Context {F : Type} `{FloatOps F}.

(** X13.  [jitter_correct] and [actual_time] only read the calibrator:
    whatever the model and whether they return or raise, the object is
    left as it was and at most one line is printed; [actual_time] leaves
    exactly what its call of [jitter_correct] leaves. *)
Theorem correction_reads_only (edge_pos : Z) (nominal_delay : F)
    (w : @world F) :
  let w1 := (jitter_correct edge_pos w).2 in
  let w2 := (actual_time edge_pos nominal_delay w).2 in
  w2 = w1 ∧ self w1 = self w ∧
  (stdout w1 = stdout w ∨ ∃ line, stdout w1 = stdout w ++ [line]).
Proof.
  unfold actual_time, jitter_correct, mbind, st_bind, gets, lift, print,
    modify, mret, st_ret.
  destruct (truth (_model (self w))) as [[]|e]; cbn [snd fst].
  - destruct (correction_loop _ edge_pos (PyInt 0) _) as [c|e]; cbn [snd fst].
    + destruct (py_mul c (PyInt 1000)) as [c'|e]; cbn [snd fst].
      * destruct (py_add (PyFloat nominal_delay) c'); cbn [snd];
          (split_and!; [done..|right; by eexists]).
      * split_and!; [done..|right; by eexists].
    + split_and!; [done..|by left].
  - destruct (py_mul (PyInt 0) (PyInt 1000)) as [c'|e] eqn:Hmul;
      cbn [snd fst].
    + destruct (py_add (PyFloat nominal_delay) c'); cbn [snd];
        (split_and!; [done..|right; by eexists]).
    + split_and!; [done..|right; by eexists].
  - split_and!; [done..|by left].
Qed.

(** X14.  A model that is a numpy array of a single coefficient, as a fit
    of order 0 stores it, is used when the coefficient is not zero; when
    it is zero the array tests false and [jitter_correct] answers as if
    there were no model: the integer 0 and the message that no correction
    is possible. *)
Theorem jitter_correct_constant_model (c : F) (edge_pos : Z) (w : @world F) :
  _model (self w) = NdArray [c] →
  jitter_correct edge_pos w =
  if fnonzero c then
    match spec_poly [c] edge_pos (PyInt 0) with
    | Ok ns => (py_mul ns (PyInt 1000),
                printed "Using model to correct for jitter." w)
    | Raise e => (Raise e, w)
    end
  else
    (Ok (PyInt 0),
     printed "No calibration model. Jitter correction not possible." w).
Proof.
  intros Hm. unfold jitter_correct, mbind, st_bind, gets, lift.
  rewrite Hm. cbn [truth coefficients]. destruct (fnonzero c); [|done].
  unfold enumerate.
  pose proof (correction_loop_spec [c] edge_pos (PyInt 0) 0) as Hloop.
  rewrite Nat.add_0_l in Hloop. rewrite Hloop.
  by destruct (spec_poly [c] edge_pos (PyInt 0)).
Qed.

(** X26.  With the coefficients held as a non-empty Python list,
    [actual_time] returns the nominal delay plus the correction of the
    specification: the polynomial, highest degree first, evaluated at the
    edge position and multiplied by 1000.  It raises only when that
    arithmetic does (an integer power too large for a float), and what it
    prints is the message of [jitter_correct]. *)
Theorem actual_time_list_model (cs : list F) (edge_pos : Z) (nominal_delay : F)
    (w : @world F) :
  _model (self w) = PyList cs → cs ≠ [] →
  actual_time edge_pos nominal_delay w =
  match spec_poly cs edge_pos (PyInt 0) with
  | Ok ns =>
      (correction ← py_mul ns (PyInt 1000);
       py_add (PyFloat nominal_delay) correction,
       printed "Using model to correct for jitter." w)
  | Raise e => (Raise e, w)
  end.
Proof.
  intros Hm Hne. unfold actual_time, mbind at 1, st_bind at 1.
  rewrite (jitter_correct_list cs edge_pos w Hm Hne).
  destruct (spec_poly cs edge_pos (PyInt 0)) as [ns|e]; [|done].
  unfold lift. by destruct (py_mul ns (PyInt 1000)).
Qed.

Section Fit.
Context (fftconvolve : list F → list F → list F).
Context (polyfit : list Z → list F → nat → result (list F)).

(** [fit_calib] on samples of equal number: what is fitted and what is
    stored. *)
Lemma fit_calib_fitted (delays : list F) (edges : list Z)
    (amplitudes : list F) (fwhm : option (list F)) (order : nat) (w : @world F) :
  length delays = length edges →
  let xy := fitted_samples delays edges in
  ∃ w',
    fit_calib polyfit delays edges amplitudes fwhm order w
    = (polyfit xy.1 xy.2 order ≫= λ _, Ok tt, w') ∧
    TimeTool.edges (self w') = Some edges ∧
    TimeTool.delays (self w') = Some delays ∧
    match polyfit xy.1 xy.2 order with
    | Ok m => _model (self w') = NdArray m
    | Raise _ => _model (self w') = _model (self w)
    end.
Proof.
  intros Hlen. unfold fitted_samples. cbv zeta.
  set (kept := spec_kept delays edges).
  unfold fit_calib, mbind, st_bind, setattr, modify, lift, print, mret, st_ret.
  rewrite (np_any_filter (λ e, (250 <? e)%Z) delays edges Hlen).
  set (k1 := filter (λ de : F * Z, (250 <? de.2)%Z) (zip delays edges)).
  assert (kept = filter (λ de : F * Z, (de.2 <? 870)%Z) k1) as Hkept.
  { unfold k1, kept, spec_kept. by rewrite filter_window. }
  destruct (bool_decide (k1 = [])) eqn:Hk1; cbn [negb].
  - apply bool_decide_eq_true in Hk1. rewrite Hk1 in Hkept.
    rewrite Hkept. simpl.
    destruct (polyfit edges delays order) as [m|e]; simpl; eauto.
  - rewrite (mask_select_filter (λ e, (250 <? e)%Z) delays edges Hlen).
    rewrite (mask_select_filter_self (λ e, (250 <? e)%Z) delays edges Hlen).
    fold k1.
    assert (length k1.*1 = length k1.*2) as Hlen1 by (by rewrite !length_fmap).
    rewrite (np_any_filter (λ e, (e <? 870)%Z) k1.*1 k1.*2 Hlen1).
    rewrite (mask_select_filter (λ e, (e <? 870)%Z) k1.*1 k1.*2 Hlen1).
    rewrite (mask_select_filter_self (λ e, (e <? 870)%Z) k1.*1 k1.*2 Hlen1).
    rewrite zip_fst_snd, <- Hkept.
    destruct (bool_decide (kept = [])); cbn [negb fst snd].
    + destruct (polyfit edges delays order) as [m|e]; simpl; eauto.
    + destruct (polyfit kept.*2 kept.*1 order) as [m|e]; simpl; eauto.
Qed.

(** X15.  [calibrate] chains edge detection and the fit without a gap: for
    a recognised hutch it fits a polynomial of order 2 to the samples of
    the events that contributed one, those in the window (250, 870) when
    there is one and all of them otherwise; it raises exactly when
    [np.polyfit] does, never from the masks, and then leaves the model as
    it was; it records the detected edges and delays in the object. *)
Theorem calibrate_fits_window (code : string) (events : list (@event F))
    (w : @world F) :
  ttstage_code (hutch (self w)) = Ok code →
  let samples := omap (event_sample fftconvolve code) events in
  let xy := fitted_samples samples.*1.*1 (Z.of_nat <$> samples.*1.*2) in
  ∃ w',
    calibrate fftconvolve polyfit events w
    = (polyfit xy.1 xy.2 2 ≫= λ _, Ok tt, w') ∧
    TimeTool.edges (self w') = Some (Z.of_nat <$> samples.*1.*2) ∧
    TimeTool.delays (self w') = Some samples.*1.*1 ∧
    match polyfit xy.1 xy.2 2 with
    | Ok m => _model (self w') = NdArray m
    | Raise _ => _model (self w') = _model (self w)
    end.
Proof.
  intros Hcode samples xy.
  unfold calibrate, mbind at 1, st_bind at 1, gets.
  unfold mbind at 1, st_bind at 1, lift.
  rewrite (detect_edges_samples fftconvolve _ code events Hcode).
  cbv zeta. fold samples.
  apply (fit_calib_fitted samples.*1.*1 (Z.of_nat <$> samples.*1.*2)).
  by rewrite !length_fmap.
Qed.

(** X16.  A calibration never leaves a model that [jitter_correct] can
    use: [np.polyfit] of order 2 returns three coefficients, the model is
    stored as the numpy array it returns, and the truth test of that array
    raises.  After every [calibrate] that returned, [jitter_correct] and
    [actual_time] raise [ValueError] at every edge position, and leave the
    object alone. *)
Theorem calibrate_then_correct_raises (events : list (@event F))
    (edge_pos : Z) (nominal_delay : F) (w w' : @world F) :
  (∀ x y m, polyfit x y 2 = Ok m → length m = 3) →
  calibrate fftconvolve polyfit events w = (Ok tt, w') →
  jitter_correct edge_pos w' = (Raise ValueError, w') ∧
  actual_time edge_pos nominal_delay w' = (Raise ValueError, w').
Proof.
  intros Hthree Hcal.
  assert (∃ c1 c2 cs, _model (self w') = NdArray (c1 :: c2 :: cs))
    as (c1 & c2 & cs & Hm).
  { destruct (ttstage_code_cases (hutch (self w)))
      as [[_ [code Hcode]]|[_ Hcode]].
    2:{ unfold calibrate, mbind, st_bind, gets, lift, detect_edges in Hcal.
        by rewrite Hcode in Hcal. }
    unfold calibrate, mbind at 1, st_bind at 1, gets in Hcal.
    unfold mbind at 1, st_bind at 1, lift in Hcal.
    rewrite (detect_edges_samples fftconvolve _ code events Hcode) in Hcal.
    cbv zeta in Hcal.
    set (samples := omap (event_sample fftconvolve code) events) in Hcal.
    destruct (fit_calib_fitted samples.*1.*1 (Z.of_nat <$> samples.*1.*2)
                samples.*2 None 2 w) as (w'' & Hrun & _ & _ & Hmodel).
    { by rewrite !length_fmap. }
    rewrite Hcal in Hrun.
    destruct (polyfit _ _ 2) as [m|e] eqn:Hfit; [|done].
    injection Hrun as <-. apply Hthree in Hfit.
    destruct m as [|c1 [|c2 cs]]; try done. by exists c1, c2, cs. }
  assert (jitter_correct edge_pos w' = (Raise ValueError, w')) as Hj.
  { by eapply jitter_correct_array_raises. }
  split; [done|]. unfold actual_time, mbind, st_bind. by rewrite Hj.
Qed.

End Fit.

(** X17.  A calibration run in which no camera image could be retrieved
    fails: no event contributes a sample, and [np.polyfit] refuses the
    empty arrays with [TypeError].  The model is left as it was, while
    [self.edges] and [self.delays] now hold the empty arrays. *)
Theorem calibrate_without_frames
    (fftconvolve : list F → list F → list F)
    (lstsq : list Z → list F → nat → result (list F))
    (code : string) (events : list (@event F)) (w : @world F) :
  ttstage_code (hutch (self w)) = Ok code →
  Forall (λ evt, retrieved evt = false) events →
  ∃ w',
    calibrate fftconvolve (np_polyfit lstsq) events w = (Raise TypeError, w') ∧
    _model (self w') = _model (self w) ∧
    edges (self w') = Some [] ∧ delays (self w') = Some [].
Proof.
  intros Hcode Hnone.
  assert (omap (event_sample fftconvolve code) events = []) as Hsamples.
  { induction Hnone as [|evt events Hevt _ IH]; [done|].
    cbn [omap list_omap].
    by rewrite (event_sample_not_retrieved fftconvolve code evt Hevt). }
  unfold calibrate, mbind at 1, st_bind at 1, gets.
  unfold mbind at 1, st_bind at 1, lift.
  rewrite (detect_edges_samples fftconvolve _ code events Hcode).
  cbv zeta. rewrite Hsamples. cbn [fmap list_fmap].
  rewrite fit_calib_empty_raises. by eexists.
Qed.

(** X18.  [fit_calib] needs as many delays as edges: when the two arrays
    differ in length it always raises, [IndexError] from the mask when an
    edge lies beyond pixel 250 and [TypeError] from [np.polyfit]
    otherwise, and the model is left as it was. *)
Theorem fit_calib_length_mismatch
    (lstsq : list Z → list F → nat → result (list F))
    (delays : list F) (edges : list Z) (amplitudes : list F)
    (fwhm : option (list F)) (order : nat) (w : @world F) :
  length delays ≠ length edges →
  ∃ w',
    fit_calib (np_polyfit lstsq) delays edges amplitudes fwhm order w
    = (Raise (if np_any ((λ e, 250 <? e)%Z <$> edges)
              then IndexError else TypeError), w') ∧
    _model (self w') = _model (self w).
Proof.
  intros Hlen.
  unfold fit_calib, mbind, st_bind, setattr, modify, lift, print, mret, st_ret.
  destruct (np_any ((λ e, (250 <? e)%Z) <$> edges)).
  - unfold mask_select at 1.
    rewrite decide_False by (by rewrite length_fmap). by eexists.
  - unfold np_polyfit.
    destruct (decide (length edges = 0)); [by eexists|].
    rewrite decide_False by done. by eexists.
Qed.

(** [str.split] on a string without the separator returns the string
    alone. *)
Lemma split_on_absent (sep : ascii) (s : string) :
  (∀ k, String.get k s ≠ Some sep) → split_on sep s = [s].
Proof.
  induction s as [|c s IH]; intros Hno; [done|].
  cbn [split_on]. destruct (Ascii.eqb_spec c sep) as [->|Hne].
  { by specialize (Hno 0). }
  rewrite IH; [done|]. intros k. apply (Hno (S k)).
Qed.

(** X19.  The [model] setter either succeeds or changes nothing: whenever
    it raises, the calibrator, the output and the files are as before.  A
    string without a dot is such a case: it always raises [IndexError]. *)
Theorem model_setter_raises_unchanged (val : pyobj) (w : @world F) :
  (∀ e w', model_setter val w = (Raise e, w') → w' = w) ∧
  (∀ s, val = VStr s → (∀ k, String.get k s ≠ Some "."%char) →
        model_setter val w = (Raise IndexError, w)).
Proof.
  split.
  - intros e w' Hset.
    unfold model_setter, raise, print, mbind, st_bind, lift, setattr, modify,
      np_load, mret, st_ret in Hset.
    destruct val as [cs|s|cs|x|]; try (by simplify_eq).
    destruct (getitem (split_on "." s) 1) as [ext|]; [|by simplify_eq].
    repeat case_match; by simplify_eq.
  - intros s -> Hno.
    unfold model_setter, mbind, st_bind, lift.
    by rewrite (split_on_absent _ s Hno).
Qed.

End Calibration.

End CalibrationRun.

(** ** Time tool in IEEE arithmetic: calibration runs *)

Module CalibrationIEEE.
Import Numpy TimeTool TimeToolRun ResultFacts Calibrator EdgeDetection.
Import Examples TimeToolIEEE EdgeDetectionRun CalibrationRun.

(** Adding the float zero changes nothing but the sign of a negative
    zero. *)
Lemma add_zero_r (x : float) :
  Prim2SF x ≠ S754_zero true → (x + 0)%float = x.
Proof.
  intros Hx. apply Prim2SF_inj. rewrite add_spec.
  change (Prim2SF 0) with (S754_zero false).
  by destruct (Prim2SF x) as [[]|[]| |].
Qed.

(** X20.  On a calibrator without a model [actual_time] returns the
    nominal delay itself, bit for bit, whatever the edge position, for
    every nominal delay but the negative zero (which comes back as the
    positive zero); it prints that no correction is possible. *)
Theorem actual_time_uncalibrated (edge_pos : Z) (nominal_delay : float)
    (w : @world float) :
  _model (self w) = PyList [] →
  Prim2SF nominal_delay ≠ S754_zero true →
  actual_time edge_pos nominal_delay w =
  (Ok (PyFloat nominal_delay),
   printed "No calibration model. Jitter correction not possible." w).
Proof.
  intros Hm Hx.
  unfold actual_time, jitter_correct, mbind, st_bind, gets, lift, print,
    modify, mret, st_ret.
  rewrite Hm. cbn [truth length]. rewrite bool_decide_true by done.
  cbn [negb py_mul py_add to_float result_bind result_ret].
  change (of_int (0 * 1000)) with (Ok 0%float).
  cbn [mbind mret result_bind result_ret fadd ieee]. by rewrite add_zero_r.
Qed.

Lemma actual_time_uncalibrated_witness :
  actual_time 412 5%float (calibrator (PyList []) no_files) =
  (Ok (PyFloat 5%float),
   printed "No calibration model. Jitter correction not possible."
     (calibrator (PyList []) no_files)).
Proof.
  apply (actual_time_uncalibrated 412 5%float (calibrator (PyList []) no_files)).
  - reflexivity.
  - vm_compute. discriminate.
Defined.

Lemma detect_edges_positions_witness : Forall (λ e, e < 6) [0; 0].
Proof.
  apply (detect_edges_positions convolve_same "mfx" run_events 6
           [1; 3]%float [0; 0] [3; 3]%float).
  - exact convolve_same_length.
  - intros evt img Hin Himg.
    assert (img = frame_step) as ->.
    { unfold run_events in Hin.
      repeat (apply elem_of_cons in Hin as [->|Hin]);
        simpl in Himg; try congruence.
      by apply elem_of_nil in Hin. }
    split; [|reflexivity].
    apply Forall_replicate. reflexivity.
  - vm_compute. reflexivity.
Defined.

Lemma jitter_correct_constant_model_witness :
  jitter_correct 412 (calibrator (NdArray [0%float]) no_files) =
  (Ok (PyInt 0),
   printed "No calibration model. Jitter correction not possible."
     (calibrator (NdArray [0%float]) no_files)).
Proof.
  etransitivity.
  - apply (jitter_correct_constant_model 0%float 412
             (calibrator (NdArray [0%float]) no_files)).
    reflexivity.
  - vm_compute. reflexivity.
Defined.

Lemma calibrate_fits_window_witness :
  let w := calibrator (PyList []) no_files in
  ∃ w',
    calibrate convolve_same (np_polyfit lstsq_first_sample) run_events w
    = (np_polyfit lstsq_first_sample [0; 0]%Z [1; 3]%float 2 ≫= λ _, Ok tt,
       w') ∧
    edges (self w') = Some [0; 0]%Z ∧
    delays (self w') = Some [1; 3]%float ∧
    _model (self w') = NdArray [0; 0; 1]%float.
Proof.
  pose proof (calibrate_fits_window convolve_same
                (np_polyfit lstsq_first_sample)
                "LAS:FS45:VIT:FS_TGT_TIME_DIAL"
                run_events (calibrator (PyList []) no_files) eq_refl) as Hrun.
  vm_compute in Hrun. vm_compute. exact Hrun.
Defined.

Lemma calibrate_then_correct_raises_witness :
  let w' := (calibrate convolve_same (np_polyfit lstsq_first_sample)
               run_events (calibrator (PyList []) no_files)).2 in
  jitter_correct 412 w' = (Raise ValueError, w') ∧
  actual_time 412 5%float w' = (Raise ValueError, w').
Proof.
  apply (calibrate_then_correct_raises convolve_same
           (np_polyfit lstsq_first_sample) run_events 412 5%float
           (calibrator (PyList []) no_files)).
  - intros x y m. unfold np_polyfit, lstsq_first_sample.
    repeat case_match; intros; simplify_eq; reflexivity.
  - vm_compute. reflexivity.
Defined.

Lemma calibrate_without_frames_witness :
  let w := calibrator (PyList []) no_files in
  ∃ w',
    calibrate convolve_same (np_polyfit lstsq_first_sample)
      [event_of 1 Missing; event_of 2 (Failed ValueError)]%float w
    = (Raise TypeError, w') ∧
    _model (self w') = _model (self w) ∧
    edges (self w') = Some [] ∧ delays (self w') = Some [].
Proof.
  apply (calibrate_without_frames convolve_same lstsq_first_sample
           "LAS:FS45:VIT:FS_TGT_TIME_DIAL"
           [event_of 1 Missing; event_of 2 (Failed ValueError)]%float
           (calibrator (PyList []) no_files)).
  - reflexivity.
  - repeat constructor.
Defined.

Lemma fit_calib_length_mismatch_witness :
  let w := calibrator (PyList []) no_files in
  ∃ w',
    fit_calib (np_polyfit lstsq_first_sample) [1%float] [300; 400]%Z [] None 2 w
    = (Raise IndexError, w') ∧
    _model (self w') = _model (self w).
Proof.
  apply (fit_calib_length_mismatch lstsq_first_sample [1%float] [300; 400]%Z
           [] None 2 (calibrator (PyList []) no_files)).
  simpl. lia.
Defined.

Lemma model_setter_raises_unchanged_witness :
  model_setter (VStr "model") (calibrator (PyList []) coefficient_files)
  = (Raise IndexError, calibrator (PyList []) coefficient_files).
Proof.
  apply (proj2 (model_setter_raises_unchanged (VStr "model")
                  (calibrator (PyList []) coefficient_files)) "model").
  - reflexivity.
  - intros k. do 5 (destruct k as [|k]; [discriminate|]). discriminate.
Defined.

Lemma actual_time_list_model_witness :
  actual_time 10 5%float (calibrator (PyList [1; 0; 0]%float) no_files) =
  (Ok (PyFloat 100005%float),
   printed "Using model to correct for jitter."
     (calibrator (PyList [1; 0; 0]%float) no_files)).
Proof.
  etransitivity.
  - apply (actual_time_list_model [1; 0; 0]%float 10 5%float
             (calibrator (PyList [1; 0; 0]%float) no_files)).
    + reflexivity.
    + discriminate.
  - vm_compute. reflexivity.
Defined.

End CalibrationIEEE.

(** ** Panel mapper: from images to panels and back *)

Module PanelMapperMore.
Import Numpy PsanaInterface PanelSpec ResultFacts CanvasFacts ShapeFacts.
Import AssembleFacts DisassembleFacts PanelMapper Examples.

Section Properties.

(** The element type of the arrays given to the two functions and its
    conversion to float64. *)
Context {E : Type} (cast : E → float).

(** [disassemble_image_stack_batch] on images of one shape against which
    the map resolves: it returns the gathered panels, converted. *)
Lemma disassemble_gather (imgs : @images E) (M : index_map)
    (cells : list (list (list (nat * nat)))) h w :
  Forall (image_shape h w) (images_list imgs) →
  mapM (resolve_panel h w) M = Ok cells →
  ∃ xs,
    Forall2 (λ im x, Forall2 (λ idx pn, getitem_fancy im idx = Ok pn) M x)
      (images_list imgs) xs ∧
    disassemble_image_stack_batch cast imgs M
    = Ok (pack_stack (cast_stack cast <$> xs)).
Proof.
  intros Hims Hres.
  destruct (gathers_Ok (images_list imgs) M cells h w Hims Hres) as [xs Hxs].
  exists xs. split; [done|].
  apply disassemble_Ok; [by eapply Forall2_length|].
  intros b im x Him Hx. by apply (Forall2_lookup_lr _ _ _ _ _ _ Hxs Him Hx).
Qed.

Lemma stack_list_pack {A} (xs : list (list (list (list A)))) :
  stack_list (pack_stack xs) = xs.
Proof. by destruct xs as [|x [|x' xs]]. Qed.

(** The panels gathered from an image have the geometry of the map. *)
Lemma shaped_gathered p f s (M : index_map) (im : list (list E))
    (x : list (list (list E))) :
  shaped p f s M →
  Forall2 (λ idx pn, getitem_fancy im idx = Ok pn) M x →
  shaped p f s x.
Proof.
  intros [Hp Hall] Hx. split; [by rewrite <- (Forall2_length _ _ _ Hx)|].
  apply Forall_lookup. intros l pn Hpn.
  destruct (Forall2_lookup_r _ _ _ _ _ Hx Hpn) as (idx & Hidx & Hget).
  pose proof (Forall_lookup_1 _ _ _ _ Hall Hidx) as [Hf Hrows].
  unfold getitem_fancy in Hget. apply mapM_Ok in Hget.
  split; [by rewrite <- (Forall2_length _ _ _ Hget)|].
  apply Forall_lookup. intros i row Hrow.
  destruct (Forall2_lookup_r _ _ _ _ _ Hget Hrow) as (ridx & Hridx & Hr).
  apply mapM_Ok in Hr. rewrite <- (Forall2_length _ _ _ Hr).
  exact (Forall_lookup_1 _ _ _ _ Hrows Hridx).
Qed.

(** They hold the values of the image at the cells of the map. *)
Lemma at3_gathered h w (M : index_map) cells (im : list (list E))
    (x : list (list (list E))) l i j rc :
  image_shape h w im →
  mapM (resolve_panel h w) M = Ok cells →
  Forall2 (λ idx pn, getitem_fancy im idx = Ok pn) M x →
  at3 cells l i j = Some rc →
  ∃ v, at3 x l i j = Some v ∧ get2 im rc = Some v.
Proof.
  intros Him HM%mapM_Ok Hx (cn & crow & Hl & Hi & Hj)%at3_Some.
  destruct (Forall2_lookup_r _ _ _ _ _ HM Hl) as (idx & Hidx & Hcn%mapM_Ok).
  destruct (Forall2_lookup_r _ _ _ _ _ Hcn Hi) as (ridx & Hridx & Hcr%mapM_Ok).
  destruct (Forall2_lookup_r _ _ _ _ _ Hcr Hj) as (zrc & Hzrc & Hcell).
  destruct (Forall2_lookup_l _ _ _ _ _ Hx Hidx) as (pn & Hpn & Hget).
  unfold getitem_fancy in Hget. apply mapM_Ok in Hget.
  destruct (Forall2_lookup_l _ _ _ _ _ Hget Hridx) as (row & Hrow & Hr%mapM_Ok).
  destruct (Forall2_lookup_l _ _ _ _ _ Hr Hzrc) as (v & Hv & Hload).
  exists v. split; [apply at3_Some; by exists pn, row|].
  destruct rc as [r c].
  destruct (resolve_cell_lt _ _ _ _ _ Hcell) as [Hr' Hc'].
  destruct (get2_in_shape h w im r c Him Hr' Hc') as [v' Hv'].
  rewrite (load_cell_Ok h w im zrc (r, c) v' Him Hcell Hv') in Hload.
  by injection Hload as <-.
Qed.

(** Two images of one shape that agree at every cell are the same. *)
Lemma image_ext {A} h w (a b : list (list A)) :
  image_shape h w a → image_shape h w b →
  (∀ r c, r < h → c < w → get2 a (r, c) = get2 b (r, c)) → a = b.
Proof.
  intros [Ha Hra] [Hb Hrb] Hcells. apply list_eq. intros r.
  destruct (decide (r < h)) as [Hr|Hr].
  2:{ rewrite !(proj2 (lookup_ge_None _ _)) by lia. done. }
  destruct (lookup_lt_is_Some_2 a r) as [ra Hra']; [lia|].
  destruct (lookup_lt_is_Some_2 b r) as [rb Hrb']; [lia|].
  rewrite Hra', Hrb'. f_equal. apply list_eq. intros c.
  pose proof (Forall_lookup_1 _ _ _ _ Hra Hra') as Hla.
  pose proof (Forall_lookup_1 _ _ _ _ Hrb Hrb') as Hlb.
  cbv beta in Hla, Hlb.
  destruct (decide (c < w)) as [Hc|Hc].
  2:{ rewrite !(proj2 (lookup_ge_None _ _)) by lia. done. }
  specialize (Hcells r c Hr Hc). unfold get2 in Hcells. simpl in Hcells.
  by rewrite Hra', Hrb' in Hcells.
Qed.

Lemma image_shape_cast h w (im : list (list E)) :
  image_shape h w im → image_shape h w (cast_image cast im).
Proof.
  intros [Hh Hrows]. unfold cast_image. split; [by rewrite length_fmap|].
  apply Forall_fmap. eapply Forall_impl; [exact Hrows|].
  intros row Hrow. simpl. by rewrite length_fmap.
Qed.

Lemma get2_cast (im : list (list E)) rc :
  get2 (cast_image cast im) rc = cast <$> get2 im rc.
Proof.
  destruct rc as [r c]. unfold get2, cast_image. simpl.
  rewrite list_lookup_fmap. destruct (im !! r) as [row|]; [|done].
  simpl. by rewrite list_lookup_fmap.
Qed.

Lemma cast_images_pack (ims : list (list (list E))) :
  cast_images cast (pack_images ims) = pack_images (cast_image cast <$> ims).
Proof. by destruct ims as [|x [|x' xs]]. Qed.

(** X21.  The round trip the other way: an image of the shape of the
    canvas, taken apart and assembled again, holds at every cell the map
    addresses the value of the image there, converted to float64 (the
    panels [disassemble] returns are float64 arrays), and the float zero
    at every other cell; when the map addresses every cell of the canvas
    the result is the image converted to float64 (a batch of one as a
    single image). *)
Theorem assemble_after_disassemble (imgs : @images E) (M : index_map)
    (cells : list (list (list (nat * nat)))) p f s h w :
  canvas_shape M = Ok (h, w) →
  targets M = Ok cells →
  shaped p f s M →
  Forall (image_shape h w) (images_list imgs) →
  ∃ st out,
    disassemble_image_stack_batch cast imgs M = Ok st ∧
    assemble_image_stack_batch id st M = Ok out ∧
    length (images_list out) = length (images_list imgs) ∧
    (∀ b im, images_list imgs !! b = Some im →
       ∃ im', images_list out !! b = Some im' ∧ image_shape h w im' ∧
         ∀ r c, r < h → c < w →
           ((∃ l i j, at3 cells l i j = Some (r, c)) →
            get2 im' (r, c) = cast <$> get2 im (r, c)) ∧
           ((∀ l i j, at3 cells l i j ≠ Some (r, c)) →
            get2 im' (r, c) = Some 0%float)) ∧
    ((∀ r c, r < h → c < w → ∃ l i j, at3 cells l i j = Some (r, c)) →
     out = cast_images cast (pack_images (images_list imgs))).
Proof.
  intros Hcanvas Htargets HM Hims.
  assert (mapM (resolve_panel h w) M = Ok cells) as Hres.
  { unfold targets in Htargets. rewrite Hcanvas in Htargets. exact Htargets. }
  pose proof (resolve_map_shaped h w M cells p f s Hres HM) as Hcells.
  destruct (disassemble_gather imgs M cells h w Hims Hres)
    as (xs & Hxs & Hdis).
  set (assembled := λ x : list (list (list E)),
         write_cells (np_zeros2 0%float h w)
           (concat (blocks cells (cast_stack cast x) p))).
  assert (∀ b im x, images_list imgs !! b = Some im → xs !! b = Some x →
            image_shape h w (assembled x) ∧
            ∀ r c, r < h → c < w →
              ((∃ l i j, at3 cells l i j = Some (r, c)) →
               get2 (assembled x) (r, c) = cast <$> get2 im (r, c)) ∧
              ((∀ l i j, at3 cells l i j ≠ Some (r, c)) →
               get2 (assembled x) (r, c) = Some 0%float)) as Hcell.
  { intros b im x Him Hx.
    pose proof (Forall_lookup_1 _ _ _ _ Hims Him) as Hshape.
    pose proof (Forall2_lookup_lr _ _ _ _ _ _ Hxs Him Hx) as Hgot.
    cbv beta in Hshape, Hgot.
    split.
    { apply image_shape_write_cells, image_shape_zeros. }
    intros r c Hr Hc.
    destruct (canvas_cell 0%float h w p f s cells (cast_stack cast x) r c
                Hcells
                (shaped_cast_stack cast p f s x
                   (shaped_gathered p f s M im x HM Hgot)) Hr Hc)
      as [(l & i & j & v & Hat & Hv & Hget & _)|[Hnone Hget]].
    - split; [|intros Hno; by destruct (Hno l i j)].
      intros _. fold (assembled x) in Hget. rewrite Hget.
      destruct (at3_gathered h w M cells im x l i j (r, c) Hshape Hres Hgot Hat)
        as (v0 & Hv0 & Hget0).
      rewrite at3_cast_stack, Hv0 in Hv. injection Hv as <-.
      by rewrite Hget0.
    - split; [|done]. intros (l & i & j & Hat). by destruct (Hnone l i j). }
  assert (Forall (shaped p f s) (cast_stack cast <$> xs)) as Hshaped.
  { apply Forall_fmap, Forall_lookup. intros b x Hx.
    destruct (Forall2_lookup_r _ _ _ _ _ Hxs Hx) as (im & Him & Hgot).
    apply shaped_cast_stack. by eapply shaped_gathered. }
  exists (pack_stack (cast_stack cast <$> xs)), (pack_images (assembled <$> xs)).
  split_and!.
  - exact Hdis.
  - rewrite (assemble_Ok id (pack_stack (cast_stack cast <$> xs)) M cells
               p f s h w Hcanvas Hres HM).
    + rewrite stack_list_pack, <- list_fmap_compose. do 2 f_equal.
      apply list_fmap_ext. intros b x _. simpl. unfold assembled.
      by rewrite cast_stack_id.
    + by rewrite stack_list_pack.
  - rewrite images_list_pack, length_fmap. symmetry.
    by eapply Forall2_length.
  - intros b im Him.
    destruct (Forall2_lookup_l _ _ _ _ _ Hxs Him) as (x & Hx & _).
    exists (assembled x). split; [|by apply (Hcell b im x)].
    by rewrite images_list_pack, list_lookup_fmap, Hx.
  - intros Hall. rewrite cast_images_pack. f_equal.
    apply list_eq_same_length with (length xs).
    { rewrite length_fmap. by eapply Forall2_length. }
    { by rewrite length_fmap. }
    intros b a1 a2 Hb. rewrite !list_lookup_fmap.
    destruct (xs !! b) as [x|] eqn:Hx; [|done].
    destruct (Forall2_lookup_r _ _ _ _ _ Hxs Hx) as (im & Him & _).
    rewrite Him. simpl. intros [= <-] [= <-].
    destruct (Hcell b im x Him Hx) as [Hshape Hget].
    apply (image_ext h w); [done| |].
    { apply image_shape_cast. by eapply Forall_lookup_1. }
    intros r c Hr Hc. rewrite get2_cast. by apply Hget, Hall.
Qed.

(** X22.  Batches are handled image by image: the image assembled at
    position [b] of a batch is the image assembled from stack [b] alone,
    and the stack taken apart at position [b] of a batch of images is the
    stack taken from image [b] alone. *)
Theorem batch_is_imagewise (xs : list (list (list (list E))))
    (ims : list (list (list E))) (M : index_map)
    (cells : list (list (list (nat * nat)))) p f s h w :
  canvas_shape M = Ok (h, w) →
  targets M = Ok cells →
  shaped p f s M →
  Forall (shaped p f s) xs →
  Forall (image_shape h w) ims →
  (∃ out, assemble_image_stack_batch cast (Stack4 xs) M = Ok out ∧
     ∀ b x, xs !! b = Some x →
       ∃ im, assemble_image_stack_batch cast (Stack3 x) M = Ok (Image2 im) ∧
             images_list out !! b = Some im) ∧
  (∃ st, disassemble_image_stack_batch cast (Image3 ims) M = Ok st ∧
     ∀ b im, ims !! b = Some im →
       ∃ x, disassemble_image_stack_batch cast (Image2 im) M = Ok (Stack3 x) ∧
            stack_list st !! b = Some x).
Proof.
  intros Hcanvas Htargets HM Hxs Hims.
  assert (mapM (resolve_panel h w) M = Ok cells) as Hres.
  { unfold targets in Htargets. rewrite Hcanvas in Htargets. exact Htargets. }
  split.
  - eexists. split.
    { by apply (assemble_Ok cast (Stack4 xs) M cells p f s h w). }
    intros b x Hb. eexists. split.
    { rewrite (assemble_Ok cast (Stack3 x) M cells p f s h w); try done.
      apply Forall_singleton. by eapply Forall_lookup_1. }
    rewrite images_list_pack. cbn [stack_list].
    by rewrite list_lookup_fmap, Hb.
  - destruct (disassemble_gather (Image3 ims) M cells h w Hims Hres)
      as (gs & Hgs & Hdis).
    eexists. split; [exact Hdis|].
    intros b im Hb. cbn [images_list] in Hgs.
    destruct (Forall2_lookup_l _ _ _ _ _ Hgs Hb) as (x & Hx & Hgot).
    exists (cast_stack cast x). split.
    { rewrite (disassemble_Ok cast (Image2 im) M [x]); [done|done|].
      intros [|b'] im' x'; [|done]. by intros [= <-] [= <-]. }
    rewrite stack_list_pack. by rewrite list_lookup_fmap, Hx.
Qed.

Lemma foldlM_Ok_steps {A B} (g : A → B → result A) (l : list B) :
  ∀ a out, foldlM g a l = Ok out →
    ∀ x, x ∈ l → ∃ a' a'', g a' x = Ok a''.
Proof.
  induction l as [|y l IH]; intros a out Hout x Hx.
  - by apply elem_of_nil in Hx.
  - cbn [foldlM] in Hout. apply bind_Ok in Hout as (a1 & Hstep & Hrest).
    apply elem_of_cons in Hx as [->|Hx]; [by exists a, a1|].
    by eapply IH.
Qed.

Lemma mapM_is_Ok {A B} (g : A → result B) (l : list A) :
  (∀ x, x ∈ l → ∃ y, g x = Ok y) → ∃ k, mapM g l = Ok k.
Proof.
  induction l as [|x l IH]; intros Hall; [by exists []|].
  destruct (Hall x ltac:(by left)) as [y Hy].
  destruct IH as [k Hk]; [intros x' Hx'; apply Hall; by right|].
  exists (y :: k). cbn [mapM]. rewrite Hy. cbn [mbind result_bind].
  by rewrite Hk.
Qed.


(** X24.  [disassemble_image_stack_batch] returns exactly when every
    coordinate pair of the map resolves against the shape of the images;
    in particular it raises on images too small for the map. *)
Theorem disassemble_returns_iff (imgs : @images E) (M : index_map) h w :
  Forall (image_shape h w) (images_list imgs) →
  images_list imgs ≠ [] →
  (∃ st, disassemble_image_stack_batch cast imgs M = Ok st)
  ↔ (∃ cells, mapM (resolve_panel h w) M = Ok cells).
Proof.
  intros Hims Hne. split.
  - intros [st Hst]. unfold disassemble_image_stack_batch in Hst.
    change (match imgs with Image2 im => [im] | Image3 ims => ims end)
      with (images_list imgs) in Hst.
    pose proof (shape3_length M) as Hlen.
    destruct (shape3 M) as [[n fs] ss]. simpl in Hlen. subst n.
    apply bind_Ok in Hst as (batch & Hloop & _).
    destruct (images_list imgs) as [|im ims] eqn:Hl; [done|].
    apply Forall_cons in Hims as [[Hh Hrows] _].
    apply mapM_is_Ok. intros idx Hidx.
    apply list_elem_of_lookup in Hidx as [l Hl'].
    destruct (foldlM_Ok_steps _ _ _ _ Hloop l) as (a' & a'' & Hstep).
    { apply elem_of_seq. split; [lia|]. apply lookup_lt_Some in Hl'. lia. }
    cbv beta in Hstep. unfold getitem in Hstep. rewrite Hl' in Hstep.
    cbn [mbind result_bind] in Hstep.
    apply bind_Ok in Hstep as (vals & Hvals & _).
    cbn [mapM] in Hvals. apply bind_Ok in Hvals as (pn & Hpn & _).
    unfold getitem_fancy in Hpn. apply mapM_Ok in Hpn.
    unfold resolve_panel. apply mapM_is_Ok. intros row Hrow.
    apply list_elem_of_lookup in Hrow as [i Hi].
    destruct (Forall2_lookup_l _ _ _ _ _ Hpn Hi) as (vrow & _ & Hvrow).
    apply mapM_Ok in Hvrow. apply mapM_is_Ok. intros zrc Hzrc.
    apply list_elem_of_lookup in Hzrc as [j Hj].
    destruct (Forall2_lookup_l _ _ _ _ _ Hvrow Hj) as (v & _ & Hv).
    unfold load_cell in Hv. apply bind_Ok in Hv as (cell & Hcell & _).
    destruct im as [|row0 im'].
    { destruct cell as [r c]. apply resolve_cell_lt in Hcell as [Hr _].
      simpl in Hr. lia. }
    apply Forall_cons in Hrows as [Hw _]. simpl in Hcell.
    rewrite Hw in Hcell. simpl in Hh. rewrite <- Hh.
    by exists cell.
  - intros [cells Hcells].
    destruct (disassemble_gather imgs M cells h w Hims Hcells)
      as (xs & _ & Hdis).
    by eexists.
Qed.

End Properties.

Lemma assemble_after_disassemble_witness :
  ∃ st out,
    disassemble_image_stack_batch int64_to_float64
      (Image2 [[1; 2; 5; 6]; [3; 4; 7; 8]]%Z) M_ex = Ok st ∧
    assemble_image_stack_batch id st M_ex = Ok out ∧
    length (images_list out)
    = length (images_list (Image2 [[1; 2; 5; 6]; [3; 4; 7; 8]]%Z)) ∧
    (∀ b im,
       images_list (Image2 [[1; 2; 5; 6]; [3; 4; 7; 8]]%Z) !! b = Some im →
       ∃ im', images_list out !! b = Some im' ∧ image_shape 2 4 im' ∧
         ∀ r c, r < 2 → c < 4 →
           ((∃ l i j, at3 cells_ex l i j = Some (r, c)) →
            get2 im' (r, c) = int64_to_float64 <$> get2 im (r, c)) ∧
           ((∀ l i j, at3 cells_ex l i j ≠ Some (r, c)) →
            get2 im' (r, c) = Some 0%float)) ∧
    ((∀ r c, r < 2 → c < 4 → ∃ l i j, at3 cells_ex l i j = Some (r, c)) →
     out = cast_images int64_to_float64
             (pack_images
                (images_list (Image2 [[1; 2; 5; 6]; [3; 4; 7; 8]]%Z)))).
Proof.
  apply (assemble_after_disassemble int64_to_float64
           (Image2 [[1; 2; 5; 6]; [3; 4; 7; 8]]%Z) M_ex cells_ex 2 2 2 2 4).
  - reflexivity.
  - reflexivity.
  - split; [reflexivity|]. repeat constructor.
  - repeat constructor.
Defined.

Lemma batch_is_imagewise_witness :
  (∃ out, assemble_image_stack_batch int64_to_float64 X_ex M_ex = Ok out ∧
     ∀ b x, stack_list X_ex !! b = Some x →
       ∃ im, assemble_image_stack_batch int64_to_float64 (Stack3 x) M_ex
             = Ok (Image2 im) ∧
             images_list out !! b = Some im) ∧
  (∃ st, disassemble_image_stack_batch int64_to_float64
           (Image3 [[[1; 2; 5; 6]; [3; 4; 7; 8]];
                    [[8; 7; 4; 3]; [6; 5; 2; 1]]]%Z) M_ex = Ok st ∧
     ∀ b im, [[[1; 2; 5; 6]; [3; 4; 7; 8]];
              [[8; 7; 4; 3]; [6; 5; 2; 1]]]%Z !! b = Some im →
       ∃ x, disassemble_image_stack_batch int64_to_float64 (Image2 im) M_ex
            = Ok (Stack3 x) ∧
            stack_list st !! b = Some x).
Proof.
  apply (batch_is_imagewise int64_to_float64 (stack_list X_ex)
           [[[1; 2; 5; 6]; [3; 4; 7; 8]]; [[8; 7; 4; 3]; [6; 5; 2; 1]]]%Z
           M_ex cells_ex 2 2 2 2 4).
  - reflexivity.
  - reflexivity.
  - split; [reflexivity|]. repeat constructor.
  - repeat constructor.
  - repeat constructor.
Defined.


Lemma disassemble_returns_iff_witness :
  (∃ st, disassemble_image_stack_batch int64_to_float64
           (Image2 [[1; 2; 5]]%Z) M_collide = Ok st)
  ↔ (∃ cells, mapM (resolve_panel 1 3) M_collide = Ok cells).
Proof.
  apply (disassemble_returns_iff int64_to_float64 (Image2 [[1; 2; 5]]%Z)
           M_collide 1 3).
  - repeat constructor.
  - discriminate.
Defined.

End PanelMapperMore.

(** ** Event bookkeeping: which events are skipped *)

Module EventSelection.
Import Numpy PsanaRun RunSpec.

Lemma kept_iff (found logic : bool) (P : Prop) :
  (P ↔ found = true) →
  (negb (eqb found logic) = false ↔ (P ↔ logic = true)).
Proof.
  intros HP. destruct found, logic; simpl; intuition (auto; discriminate).
Qed.

(** X25.  [skip_event] only reads the object.  Without an event receiver
    no event is skipped, and the EVR codes are not looked at.  With one,
    an event is kept exactly when having the event code agrees with
    [event_logic]: kept with the code when [event_logic] is true, kept
    without it when [event_logic] is false.  When no event code was given
    the code is never found, so with [event_logic] left true every event
    is skipped. *)
Theorem skip_event_decision (event_codes : option (list Z)) (s : interface) :
  (skip_event event_codes s).2 = s ∧
  (event_receiver s = None → skip_event event_codes s = (Returned false, s)) ∧
  (∀ codes, event_receiver s ≠ None → event_codes = Some codes →
     ∃ skip, skip_event event_codes s = (Returned skip, s) ∧
       (skip = false ↔
        ((∃ c, event_code s = Some c ∧ c ∈ codes) ↔ event_logic s = true)) ∧
       (event_code s = None → skip = event_logic s)).
Proof.
  unfold skip_event, mbind, io_bind, io_gets, io_raise, mret, io_ret.
  split_and!.
  - destruct (event_receiver s); [|done].
    destruct event_codes; [|done].
    by destruct (negb _).
  - by intros ->.
  - intros codes Hrec ->. destruct (event_receiver s); [|done].
    set (found := match event_code s with
                  | Some code => bool_decide (code ∈ codes)
                  | None => false
                  end).
    exists (negb (eqb found (event_logic s))). split_and!.
    + by destruct (negb _).
    + apply kept_iff. unfold found.
      destruct (event_code s) as [c|].
      * split.
        -- intros (c' & [= <-] & Hin). by apply bool_decide_eq_true.
        -- intros Hin%bool_decide_eq_true. by exists c.
      * split; [by intros (c' & Hc' & _)|done].
    + intros Hnone. unfold found. rewrite Hnone. by destruct (event_logic s).
Qed.

End EventSelection.
